(** * Cycle and scenario managers of taipy-core: a shallow embedding

    The development follows
    [taipy/core/cycle/_cycle_manager.py] and
    [taipy/core/scenario/_scenario_manager.py].

    Part I holds the definitions: Python's [datetime] arithmetic as CPython
    computes it, the entities, the repositories and the two managers.
    Part II holds the facts proved about them. *)

From Stdlib Require Import ZArith Lia Bool.
From stdpp Require Import base option list gmap sets strings fin_maps relations.

Local Open Scope Z_scope.

(* ===================================================================== *)
(** * Part I: definitions *)
(* ===================================================================== *)

(** ** Exceptions

    The exceptions of [taipy.core.exceptions.scenario] imported by the
    scenario manager, and the three built-in exceptions the embedded code
    can meet: [AttributeError] (attribute read on [None]),
    [OverflowError] and [ValueError] (date arithmetic out of range). *)

Inductive exn : Type :=
  | DeletingMasterScenario
  | DifferentScenarioConfigs
  | DoesNotBelongToACycle
  | InsufficientScenarioToCompare
  | NonExistingComparator
  | NonExistingScenario
  | NonExistingScenarioConfig
  | UnauthorizedTagError
  | AttributeError
  | OverflowError
  | ValueError.

#[global] Instance exn_eq_dec : EqDecision exn.
Proof. solve_decision. Defined.

(** A computation that can raise: [inl e] is the exception raised. *)
Definition res (A : Type) : Type := (exn + A)%type.

Definition ok {A} (a : A) : res A := inr a.
Definition raise {A} (e : exn) : res A := inl e.

Definition rbind {A B} (r : res A) (k : A -> res B) : res B :=
  match r with
  | inl e => inl e
  | inr a => k a
  end.

(** ** Python's proleptic Gregorian calendar ([datetime.py]) *)

Module Py.

Definition MINYEAR : Z := 1.
Definition MAXYEAR : Z := 9999.
Definition _MAXORDINAL : Z := 3652059.

Definition _DAYS_IN_MONTH (month : Z) : Z :=
  match month with
  | 1 => 31 | 2 => 28 | 3 => 31 | 4 => 30 | 5 => 31 | 6 => 30
  | 7 => 31 | 8 => 31 | 9 => 30 | 10 => 31 | 11 => 30 | 12 => 31
  | _ => -1
  end.

Definition _DAYS_BEFORE_MONTH (month : Z) : Z :=
  match month with
  | 1 => 0 | 2 => 31 | 3 => 59 | 4 => 90 | 5 => 120 | 6 => 151
  | 7 => 181 | 8 => 212 | 9 => 243 | 10 => 273 | 11 => 304 | 12 => 334
  | _ => -1
  end.

(** [year % 4 == 0 and (year % 100 != 0 or year % 400 == 0)] *)
Definition _is_leap (year : Z) : bool :=
  (year mod 4 =? 0) && (negb (year mod 100 =? 0) || (year mod 400 =? 0)).

(** [y = year - 1; y*365 + y//4 - y//100 + y//400] *)
Definition _days_before_year (year : Z) : Z :=
  let y := year - 1 in
  y * 365 + y / 4 - y / 100 + y / 400.

Definition _days_in_month (year month : Z) : Z :=
  if (month =? 2) && _is_leap year then 29 else _DAYS_IN_MONTH month.

Definition _days_before_month (year month : Z) : Z :=
  _DAYS_BEFORE_MONTH month + (if (2 <? month) && _is_leap year then 1 else 0).

Definition _ymd2ord (year month day : Z) : Z :=
  _days_before_year year + _days_before_month year month + day.

Definition _DI400Y : Z := 146097.
Definition _DI100Y : Z := 36524.
Definition _DI4Y : Z := 1461.

(** The month and day of the [n]-th day (from 0) of a year, the second
    half of [_ord2ymd]: an estimate [(n + 50) >> 5] that is either exact
    or one too large. *)
Definition _month_day (leapyear : bool) (n : Z) : Z * Z :=
  let month := Z.shiftr (n + 50) 5 in
  let preceding :=
    _DAYS_BEFORE_MONTH month + (if (2 <? month) && leapyear then 1 else 0) in
  if n <? preceding then
    let month' := month - 1 in
    let preceding' :=
      preceding
      - (_DAYS_IN_MONTH month' + (if (month' =? 2) && leapyear then 1 else 0)) in
    (month', n - preceding' + 1)
  else (month, n - preceding + 1).

Definition _ord2ymd (n : Z) : Z * Z * Z :=
  let n := n - 1 in
  let n400 := n / _DI400Y in
  let n := n mod _DI400Y in
  let year := n400 * 400 + 1 in
  let n100 := n / _DI100Y in
  let n := n mod _DI100Y in
  let n4 := n / _DI4Y in
  let n := n mod _DI4Y in
  let n1 := n / 365 in
  let n := n mod 365 in
  let year := year + n100 * 100 + n4 * 4 + n1 in
  if (n1 =? 4) || (n100 =? 4) then (year - 1, 12, 31)
  else
    let leapyear := (n1 =? 3) && (negb (n4 =? 24) || (n100 =? 3)) in
    let '(month, day) := _month_day leapyear n in
    (year, month, day).

(** *** [date] *)

Record date : Type := mkdate { year : Z; month : Z; day : Z }.

#[global] Instance date_eq_dec : EqDecision date.
Proof. solve_decision. Defined.

(** [_check_date_fields] *)
Definition _check_date_fields (y m d : Z) : bool :=
  (MINYEAR <=? y) && (y <=? MAXYEAR) && (1 <=? m) && (m <=? 12)
  && (1 <=? d) && (d <=? _days_in_month y m).

Definition valid_date (d : date) : bool :=
  _check_date_fields (year d) (month d) (day d).

Definition toordinal (d : date) : Z := _ymd2ord (year d) (month d) (day d).

Definition fromordinal (n : Z) : date :=
  let '(y, m, d) := _ord2ymd n in mkdate y m d.

(** [date.weekday]: Monday is 0, Sunday is 6. *)
Definition weekday (d : date) : Z := (toordinal d + 6) mod 7.

(** [date.replace(year, month, day)]: a new date, checked. *)
Definition date_replace (d : date) (y m dd : option Z) : res date :=
  let y' := default (year d) y in
  let m' := default (month d) m in
  let d' := default (day d) dd in
  if _check_date_fields y' m' d' then ok (mkdate y' m' d') else raise ValueError.

(** *** [timedelta]: days, seconds and microseconds, normalised *)

Record timedelta : Type :=
  mktd { td_days : Z; td_seconds : Z; td_microseconds : Z }.

(** [timedelta(days, seconds, microseconds)] of integer arguments: the
    carries go upwards, the remainders are non-negative. *)
Definition mk_timedelta (days seconds microseconds : Z) : timedelta :=
  let s := seconds + microseconds / 1000000 in
  let us := microseconds mod 1000000 in
  let d := days + s / 86400 in
  let s := s mod 86400 in
  mktd d s us.

Definition td_add (a b : timedelta) : timedelta :=
  mk_timedelta (td_days a + td_days b) (td_seconds a + td_seconds b)
               (td_microseconds a + td_microseconds b).

Definition td_neg (a : timedelta) : timedelta :=
  mk_timedelta (- td_days a) (- td_seconds a) (- td_microseconds a).

(** [date.__sub__(timedelta)], that is [self + timedelta(-other.days)]. *)
Definition date_sub (d : date) (delta : timedelta) : res date :=
  let o := toordinal d + td_days (mk_timedelta (- td_days delta) 0 0) in
  if (0 <? o) && (o <=? _MAXORDINAL) then ok (fromordinal o)
  else raise OverflowError.

(** *** [datetime] (naive: without time zone) *)

Record datetime : Type := mkdatetime {
  dt_date : date;
  hour : Z;
  minute : Z;
  second : Z;
  microsecond : Z
}.

#[global] Instance datetime_eq_dec : EqDecision datetime.
Proof. solve_decision. Defined.

Definition _check_time_fields (h mi s us : Z) : bool :=
  (0 <=? h) && (h <=? 23) && (0 <=? mi) && (mi <=? 59)
  && (0 <=? s) && (s <=? 59) && (0 <=? us) && (us <=? 999999).

Definition valid_datetime (t : datetime) : bool :=
  valid_date (dt_date t)
  && _check_time_fields (hour t) (minute t) (second t) (microsecond t).

(** [datetime.combine(date, time())]: the date at time zero. *)
Definition combine_midnight (d : date) : datetime := mkdatetime d 0 0 0 0.

(** [datetime.replace(month=..., day=...)]: the time of day is kept. *)
Definition datetime_replace (t : datetime) (y m dd : option Z) : res datetime :=
  rbind (date_replace (dt_date t) y m dd) (fun d =>
  ok (mkdatetime d (hour t) (minute t) (second t) (microsecond t))).

(** [datetime.__add__(timedelta)] *)
Definition datetime_add (t : datetime) (other : timedelta) : res datetime :=
  let delta :=
    td_add (mk_timedelta (toordinal (dt_date t))
                         (hour t * 3600 + minute t * 60 + second t)
                         (microsecond t))
           other in
  let h := td_seconds delta / 3600 in
  let rem := td_seconds delta mod 3600 in
  let mi := rem / 60 in
  let s := rem mod 60 in
  if (0 <? td_days delta) && (td_days delta <=? _MAXORDINAL) then
    ok (mkdatetime (fromordinal (td_days delta)) h mi s (td_microseconds delta))
  else raise OverflowError.

(** [datetime.__sub__(timedelta)], that is [self + -other]. *)
Definition datetime_sub (t : datetime) (other : timedelta) : res datetime :=
  datetime_add t (td_neg other).

(** [datetime.isoformat()] is used only for the default display name of a
    cycle; the text is kept abstract as the instant it prints. *)

(** [calendar.monthrange(year, month)[1]]: the number of days of the month. *)
Definition monthrange_ndays (y m : Z) : Z :=
  _DAYS_IN_MONTH m + (if (m =? 2) && _is_leap y then 1 else 0).

End Py.

(** ** Entities *)

(** Identities are opaque tokens: the source builds them from a uuid and
    only ever compares them. *)
Definition Id : Type := nat.

(** Modelled from the spec: the [Frequency] enumeration of
    [taipy.core.common.frequency], which is not among the sources; the
    data model lists DAILY, WEEKLY, MONTHLY and YEARLY. *)
Inductive Frequency : Type := DAILY | WEEKLY | MONTHLY | YEARLY.

#[global] Instance Frequency_eq_dec : EqDecision Frequency.
Proof. solve_decision. Defined.

(** The values a [properties] dictionary holds here: a text (the display
    name) or a set of tags (the authorized tags). *)
Inductive prop_value : Type :=
  | PText (s : string)
  | PTags (ts : gset string).

#[global] Instance prop_value_eq_dec : EqDecision prop_value.
Proof. solve_decision. Defined.

(** Python's truth value of an optional text: [None] and the empty text
    are false. *)
Definition truthy (o : option string) : bool :=
  match o with
  | Some s => negb (bool_decide (s = EmptyString))
  | None => false
  end.

(** ["%0kd" % n] for a [k]-digit non-negative [n]. *)
Fixpoint zero_padded (k : nat) (n : Z) : string :=
  match k with
  | O => EmptyString
  | S k' =>
      zero_padded k' (n / 10)
      +:+ String (Ascii.ascii_of_nat (48 + Z.to_nat (n mod 10))) EmptyString
  end.

(** [datetime.isoformat()] *)
Definition isoformat (t : Py.datetime) : string :=
  let d := Py.dt_date t in
  zero_padded 4 (Py.year d) +:+ "-" +:+ zero_padded 2 (Py.month d) +:+ "-"
  +:+ zero_padded 2 (Py.day d) +:+ "T"
  +:+ zero_padded 2 (Py.hour t) +:+ ":" +:+ zero_padded 2 (Py.minute t) +:+ ":"
  +:+ zero_padded 2 (Py.second t)
  +:+ (if Py.microsecond t =? 0 then EmptyString
       else "." +:+ zero_padded 6 (Py.microsecond t)).

(** Modelled from the spec: the [Cycle] entity of
    [taipy.core.cycle.cycle], which is not among the sources. Two cycles
    are the same cycle when they have the same identity. *)
Module Cycle.

Record t : Type := mk {
  id : Id;
  frequency : Frequency;
  properties : gmap string prop_value;
  creation_date : Py.datetime;
  start_date : Py.datetime;
  end_date : Py.datetime;
  name : option string
}.

#[global] Instance eq_dec : EqDecision t.
Proof. solve_decision. Defined.

(** [cycle == other] *)
Definition eqb (c1 c2 : t) : bool := bool_decide (id c1 = id c2).

End Cycle.

(** Modelled from the spec: a [Pipeline] as far as this core reads it:
    its identity, the identity of its configuration and its [parent_id]. *)
Module Pipeline.

Record t : Type := mk {
  id : Id;
  config_id : string;
  parent_id : option Id
}.

#[global] Instance eq_dec : EqDecision t.
Proof. solve_decision. Defined.

End Pipeline.

(** A subscriber is a callable; Python compares callables by identity, so
    the identity stands for the callable. *)
Definition Callback : Type := nat.

(** Modelled from the spec: the [Scenario] entity of
    [taipy.core.scenario.scenario], which is not among the sources, with
    the methods the manager calls. [is_master] is the attribute
    [_master_scenario]. *)
Module Scenario.

Record t : Type := mk {
  config_id : string;
  pipelines : gmap string Pipeline.t;
  properties : gmap string prop_value;
  id : Id;
  creation_date : option Py.datetime;
  is_master : bool;
  cycle : option Cycle.t;
  tags : gset string;
  subscribers : list Callback
}.

#[global] Instance eq_dec : EqDecision t.
Proof. solve_decision. Defined.

(** [Scenario(config_id, pipelines, properties, scenario_id, creation_date,
    is_master, cycle)]: the pipelines are stored under the identity of
    their configuration; no tag, no subscriber. *)
Definition new (config_id : string) (pipelines : list Pipeline.t)
    (properties : gmap string prop_value) (scenario_id : Id)
    (creation_date : option Py.datetime) (is_master : bool)
    (cycle : option Cycle.t) : t :=
  mk config_id
     (foldl (fun m p => <[Pipeline.config_id p := p]> m) ∅ pipelines)
     properties scenario_id creation_date is_master cycle ∅ [].

Definition has_tag (s : t) (tag : string) : bool := bool_decide (tag ∈ tags s).

Definition set_tags (s : t) (ts : gset string) : t :=
  mk (config_id s) (pipelines s) (properties s) (id s) (creation_date s)
     (is_master s) (cycle s) ts (subscribers s).

Definition set_master_scenario (s : t) (b : bool) : t :=
  mk (config_id s) (pipelines s) (properties s) (id s) (creation_date s)
     b (cycle s) (tags s) (subscribers s).

Definition set_subscribers (s : t) (l : list Callback) : t :=
  mk (config_id s) (pipelines s) (properties s) (id s) (creation_date s)
     (is_master s) (cycle s) (tags s) l.

Definition _add_tag (s : t) (tag : string) : t := set_tags s ({[tag]} ∪ tags s).

Definition _remove_tag (s : t) (tag : string) : t :=
  if has_tag s tag then set_tags s (tags s ∖ {[tag]}) else s.

Definition remove_tag (s : t) (tag : string) : t := _remove_tag s tag.

Definition add_subscriber (s : t) (callback : Callback) : t :=
  set_subscribers s (subscribers s ++ [callback]).

(** [list.remove]: the first occurrence goes. *)
Fixpoint remove_first (callback : Callback) (l : list Callback) : list Callback :=
  match l with
  | [] => []
  | c :: l' => if decide (c = callback) then l' else c :: remove_first callback l'
  end.

Definition remove_subscriber (s : t) (callback : Callback) : t :=
  set_subscribers s (remove_first callback (subscribers s)).

End Scenario.

(** Configurations, as the managers read them. A pipeline configuration is
    opaque but for its identity; a comparator is a named function of the
    values read from the scenarios, in order. *)
Record PipelineConfig : Type := mkPipelineConfig { pipeline_config_id : string }.

Record Comparator (V : Type) : Type := mkComparator {
  __name__ : string;
  call : list V -> V
}.
Arguments mkComparator {V} _ _.
Arguments __name__ {V} _.
Arguments call {V} _ _.

Module ScenarioConfig.

Record t (V : Type) : Type := mk {
  id : string;
  pipeline_configs : list PipelineConfig;
  frequency : option Frequency;
  properties : gmap string prop_value;
  comparators : gmap string (list (Comparator V))
}.
Arguments mk {V} _ _ _ _ _.
Arguments id {V} _.
Arguments pipeline_configs {V} _.
Arguments frequency {V} _.
Arguments properties {V} _.
Arguments comparators {V} _.

End ScenarioConfig.

(** ** The world the managers act on

    The two repositories, the requests issued to the Pipeline Manager (an
    external collaborator), and the identities issued so far. Modelled
    from the spec: the repositories keep what was last [set] under the
    identity of the entity, and hand out copies; an entity changed by a
    caller is persisted only by the next [_set]. *)

Inductive PMRequest : Type :=
  | PMGetOrCreate (config : PipelineConfig) (scenario_id : Id)
  | PMHardDelete (pipeline_id : Id) (scenario_id : Id).

Record World : Type := mkWorld {
  scenarios : gmap Id Scenario.t;
  cycles : gmap Id Cycle.t;
  pm_requests : list PMRequest;
  next_id : Id
}.

Definition empty_world : World := mkWorld ∅ ∅ [] 0%nat.

(** A manager operation: from a world to a result, or the exception
    raised, and the world as the operation leaves it. *)
Definition M (A : Type) : Type := World -> res A * World.

Definition ret {A} (a : A) : M A := fun w => (ok a, w).
Definition throw {A} (e : exn) : M A := fun w => (raise e, w).
Definition lift {A} (r : res A) : M A := fun w => (r, w).

Definition bind {A B} (m : M A) (k : A -> M B) : M B :=
  fun w =>
    match m w with
    | (inl e, w') => (inl e, w')
    | (inr a, w') => k a w'
    end.

Declare Scope manager_scope.
Delimit Scope manager_scope with manager.
Notation "x <- m ;; k" := (bind m (fun x => k))
  (at level 100, m at next level, right associativity) : manager_scope.
Notation "m ;; k" := (bind m (fun _ => k))
  (at level 100, right associativity) : manager_scope.
Notation "x <-? r ;; k" := (rbind r (fun x => k))
  (at level 100, r at next level, right associativity) : manager_scope.

(** [for x in l: body x] *)
Fixpoint for_each {A} (l : list A) (body : A -> M unit) : M unit :=
  match l with
  | [] => ret tt
  | x :: l' => bind (body x) (fun _ => for_each l' body)
  end.

(** A fresh identity ([new_id]). *)
Definition new_id : M Id :=
  fun w => (ok (next_id w),
            mkWorld (scenarios w) (cycles w) (pm_requests w) (S (next_id w))).

Open Scope manager_scope.

(** ** The repositories and the generic manager

    Modelled from the spec: [_Manager] and the repositories are not among
    the sources; the persistence layer is [get(id)], [set(entity)],
    [delete(id)] and filtering scans, and a read reflects the last write. *)

Module _CycleRepository.

Definition _save (cycle : Cycle.t) : M unit :=
  fun w => (ok tt, mkWorld (scenarios w) (<[Cycle.id cycle := cycle]> (cycles w))
                           (pm_requests w) (next_id w)).

Definition _load_all : M (list Cycle.t) :=
  fun w => (ok (map_to_list (cycles w)).*2, w).

(** The cycles with the given frequency and start date. *)
Definition get_cycles_by_frequency_and_start_date
    (frequency : Frequency) (start_date : Py.datetime) : M (list Cycle.t) :=
  all <- _load_all ;;
  ret (filter (fun c => Cycle.frequency c = frequency
                        /\ Cycle.start_date c = start_date) all).

End _CycleRepository.

Module _ScenarioRepository.

Definition _save (scenario : Scenario.t) : M unit :=
  fun w => (ok tt, mkWorld (<[Scenario.id scenario := scenario]> (scenarios w))
                           (cycles w) (pm_requests w) (next_id w)).

Definition load (scenario_id : Id) : M (option Scenario.t) :=
  fun w => (ok (scenarios w !! scenario_id), w).

Definition _load_all : M (list Scenario.t) :=
  fun w => (ok (map_to_list (scenarios w)).*2, w).

Definition _delete (scenario_id : Id) : M unit :=
  fun w => (ok tt, mkWorld (delete scenario_id (scenarios w))
                           (cycles w) (pm_requests w) (next_id w)).

Definition _search_all_config_id (config_id : string) : M (list Scenario.t) :=
  all <- _load_all ;;
  ret (filter (fun s => Scenario.config_id s = config_id) all).

End _ScenarioRepository.

(** ** The Pipeline Manager, an external collaborator

    What it answers to [_get_or_create] is not known here: it may depend
    on everything it was asked before. The requests are recorded in the
    order they are issued. *)

Definition PipelineManager : Type :=
  list PMRequest -> PipelineConfig -> Id -> Pipeline.t.

Module _PipelineManager.

Definition issue (r : PMRequest) : M unit :=
  fun w => (ok tt, mkWorld (scenarios w) (cycles w) (pm_requests w ++ [r])
                           (next_id w)).

Definition _get_or_create (pm : PipelineManager) (p_config : PipelineConfig)
    (scenario_id : Id) : M Pipeline.t :=
  fun w => (ok (pm (pm_requests w) p_config scenario_id),
            snd (issue (PMGetOrCreate p_config scenario_id) w)).

Definition _hard_delete (pipeline_id : Id) (scenario_id : Id) : M unit :=
  issue (PMHardDelete pipeline_id scenario_id).

End _PipelineManager.

(** ** [_CycleManager] *)

Module _CycleManager.

Import Py.

Definition _set (cycle : Cycle.t) : M unit := _CycleRepository._save cycle.

Definition _get_start_date_of_cycle (frequency : Frequency)
    (creation_date : datetime) : res datetime :=
  let start_date := dt_date creation_date in
  start_date <-?
    (if decide (frequency = DAILY) then ok start_date else ok start_date) ;;
  start_date <-?
    (if decide (frequency = WEEKLY)
     then date_sub start_date (mk_timedelta (weekday start_date) 0 0)
     else ok start_date) ;;
  start_date <-?
    (if decide (frequency = MONTHLY)
     then date_replace start_date None None (Some 1)
     else ok start_date) ;;
  start_date <-?
    (if decide (frequency = YEARLY)
     then date_replace start_date None (Some 1) (Some 1)
     else ok start_date) ;;
  ok (combine_midnight start_date).

Definition _get_end_date_of_cycle (frequency : Frequency)
    (start_date : datetime) : res datetime :=
  let end_date := start_date in
  end_date <-?
    (if decide (frequency = DAILY)
     then datetime_add end_date (mk_timedelta 1 0 0)
     else ok end_date) ;;
  end_date <-?
    (if decide (frequency = WEEKLY)
     then datetime_add end_date (mk_timedelta (7 - weekday (dt_date end_date)) 0 0)
     else ok end_date) ;;
  end_date <-?
    (if decide (frequency = MONTHLY)
     then
       let last_day_of_month :=
         monthrange_ndays (year (dt_date start_date)) (month (dt_date start_date)) in
       replaced <-? datetime_replace end_date None None (Some last_day_of_month) ;;
       datetime_add replaced (mk_timedelta 1 0 0)
     else ok end_date) ;;
  end_date <-?
    (if decide (frequency = YEARLY)
     then
       replaced <-? datetime_replace end_date None (Some 12) (Some 31) ;;
       datetime_add replaced (mk_timedelta 1 0 0)
     else ok end_date) ;;
  datetime_sub end_date (mk_timedelta 0 0 1).

(** [now] is what [datetime.now()] reads when no creation date is given. *)
Definition _create (now : datetime) (frequency : Frequency) (name : option string)
    (creation_date : option datetime) (display_name : option string)
    (properties : gmap string prop_value) : M Cycle.t :=
  let creation_date := default now creation_date in
  start_date <- lift (_get_start_date_of_cycle frequency creation_date) ;;
  end_date <- lift (_get_end_date_of_cycle frequency start_date) ;;
  let properties :=
    <["display_name" :=
        PText (if truthy display_name then default EmptyString display_name
               else isoformat start_date)]> properties in
  cycle_id <- new_id ;;
  let cycle :=
    Cycle.mk cycle_id frequency properties creation_date start_date end_date name in
  _set cycle ;;
  ret cycle.

Definition _get_or_create (now : datetime) (frequency : Frequency)
    (creation_date : option datetime) (display_name : option string) : M Cycle.t :=
  let creation_date := default now creation_date in
  start_date <- lift (_get_start_date_of_cycle frequency creation_date) ;;
  cycles <- _CycleRepository.get_cycles_by_frequency_and_start_date
              frequency start_date ;;
  match cycles with
  | c :: _ => ret c
  | [] => _create now frequency None (Some creation_date) display_name ∅
  end.

End _CycleManager.

(** ** [_ScenarioManager] *)

Module _ScenarioManager.

Definition _AUTHORIZED_TAGS_KEY : string := "authorized_tags".

(** [_Manager._set], [_get], [_get_all] and [_delete] *)
Definition _set (scenario : Scenario.t) : M unit :=
  _ScenarioRepository._save scenario.

Definition _get (scenario_id : Id) : M (option Scenario.t) :=
  _ScenarioRepository.load scenario_id.

Definition _get_all : M (list Scenario.t) := _ScenarioRepository._load_all.

Definition _Manager_delete (scenario_id : Id) : M unit :=
  _ScenarioRepository._delete scenario_id.

(** The mutating operations hand back the scenario object as the call
    leaves it: Python changes the caller's object in place. *)
Definition __add_subscriber (callback : Callback) (scenario : Scenario.t)
    : M Scenario.t :=
  let scenario := Scenario.add_subscriber scenario callback in
  _set scenario ;;
  ret scenario.

Definition __remove_subscriber (callback : Callback) (scenario : Scenario.t)
    : M Scenario.t :=
  let scenario := Scenario.remove_subscriber scenario callback in
  _set scenario ;;
  ret scenario.

Definition _subscribe (callback : Callback) (scenario : option Scenario.t)
    : M (option Scenario.t) :=
  match scenario with
  | None =>
      scenarios <- _get_all ;;
      for_each scenarios (fun scn => __add_subscriber callback scn ;; ret tt) ;;
      ret None
  | Some scenario =>
      scenario <- __add_subscriber callback scenario ;;
      ret (Some scenario)
  end.

Definition _unsubscribe (callback : Callback) (scenario : option Scenario.t)
    : M (option Scenario.t) :=
  match scenario with
  | None =>
      scenarios <- _get_all ;;
      for_each scenarios (fun scn => __remove_subscriber callback scn ;; ret tt) ;;
      ret None
  | Some scenario =>
      scenario <- __remove_subscriber callback scenario ;;
      ret (Some scenario)
  end.

(** [scenario.cycle and scenario.cycle == cycle] *)
Definition in_cycle (cycle : Cycle.t) (scenario : Scenario.t) : bool :=
  match Scenario.cycle scenario with
  | Some c => Cycle.eqb c cycle
  | None => false
  end.

Definition _get_all_by_cycle (cycle : Cycle.t) : M (list Scenario.t) :=
  all <- _get_all ;;
  ret (List.filter (in_cycle cycle) all).

Definition _get_master (cycle : Cycle.t) : M (option Scenario.t) :=
  scenarios <- _get_all_by_cycle cycle ;;
  ret (List.find Scenario.is_master scenarios).

Definition _get_by_tag (cycle : Cycle.t) (tag : string) : M (option Scenario.t) :=
  scenarios <- _get_all_by_cycle cycle ;;
  ret (List.find (fun scenario => Scenario.has_tag scenario tag) scenarios).

Definition _get_all_by_tag (tag : string) : M (list Scenario.t) :=
  all <- _get_all ;;
  ret (List.filter (fun scenario => Scenario.has_tag scenario tag) all).

Definition _get_all_masters : M (list Scenario.t) :=
  all <- _get_all ;;
  ret (List.filter Scenario.is_master all).

Definition _get_all_by_config_id (config_id : string) : M (list Scenario.t) :=
  _ScenarioRepository._search_all_config_id config_id.

(** [for p_config in config.pipeline_configs], collecting the pipelines *)
Fixpoint get_or_create_pipelines (pm : PipelineManager)
    (p_configs : list PipelineConfig) (scenario_id : Id) : M (list Pipeline.t) :=
  match p_configs with
  | [] => ret []
  | p_config :: rest =>
      p <- _PipelineManager._get_or_create pm p_config scenario_id ;;
      ps <- get_or_create_pipelines pm rest scenario_id ;;
      ret (p :: ps)
  end.

Definition _create {V} (pm : PipelineManager) (now : Py.datetime)
    (config : ScenarioConfig.t V) (creation_date : option Py.datetime)
    (display_name : option string) : M Scenario.t :=
  scenario_id <- new_id ;;
  pipelines <- get_or_create_pipelines pm (ScenarioConfig.pipeline_configs config)
                 scenario_id ;;
  cycle <- match ScenarioConfig.frequency config with
           | Some frequency =>
               c <- _CycleManager._get_or_create now frequency creation_date None ;;
               ret (Some c)
           | None => ret None
           end ;;
  is_master_scenario <- match cycle with
                        | Some c =>
                            in_c <- _get_all_by_cycle c ;;
                            ret (length in_c =? 0)%nat
                        | None => ret false
                        end ;;
  let props := ScenarioConfig.properties config in
  let props :=
    if truthy display_name
    then <["display_name" := PText (default EmptyString display_name)]> props
    else props in
  let scenario :=
    Scenario.new (ScenarioConfig.id config) pipelines props scenario_id
                 creation_date is_master_scenario cycle in
  _set scenario ;;
  ret scenario.

Definition _set_master (scenario : Scenario.t) : M Scenario.t :=
  match Scenario.cycle scenario with
  | Some cycle =>
      master_scenario <- _get_master cycle ;;
      match master_scenario with
      | Some master_scenario =>
          _set (Scenario.set_master_scenario master_scenario false)
      | None => ret tt
      end ;;
      let scenario := Scenario.set_master_scenario scenario true in
      _set scenario ;;
      ret scenario
  | None => throw DoesNotBelongToACycle
  end.

(** [len(tags)] and [tag in tags] for what the property holds. *)
Definition py_len (v : prop_value) : nat :=
  match v with
  | PText s => String.length s
  | PTags ts => size ts
  end.

Definition py_contains (tag : string) (v : prop_value) : bool :=
  match v with
  | PText s => match String.index 0 tag s with Some _ => true | None => false end
  | PTags ts => bool_decide (tag ∈ ts)
  end.

Definition _tag (scenario : Scenario.t) (tag : string) : M Scenario.t :=
  let tags :=
    default (PTags ∅) (Scenario.properties scenario !! _AUTHORIZED_TAGS_KEY) in
  if (0 <? py_len tags)%nat && negb (py_contains tag tags)
  then throw UnauthorizedTagError
  else
    match Scenario.cycle scenario with
    | Some cycle =>
        old_tagged_scenario <- _get_by_tag cycle tag ;;
        match old_tagged_scenario with
        | Some old_tagged_scenario =>
            _set (Scenario.remove_tag old_tagged_scenario tag)
        | None => ret tt
        end
    | None => ret tt
    end ;;
    let scenario := Scenario._add_tag scenario tag in
    _set scenario ;;
    ret scenario.

Definition _untag (scenario : Scenario.t) (tag : string) : M Scenario.t :=
  let scenario := Scenario._remove_tag scenario tag in
  _set scenario ;;
  ret scenario.

(** [cls._get(scenario_id).is_master] raises [AttributeError] when there
    is no such scenario. *)
Definition _delete (scenario_id : Id) : M unit :=
  scenario <- _get scenario_id ;;
  match scenario with
  | None => throw AttributeError
  | Some scenario =>
      if Scenario.is_master scenario then throw DeletingMasterScenario
      else _Manager_delete scenario_id
  end.

Definition __get_config {V} (Config_scenarios : gmap string (ScenarioConfig.t V))
    (scenario : Scenario.t) : option (ScenarioConfig.t V) :=
  Config_scenarios !! Scenario.config_id scenario.

(** The dictionary from the name of each comparator to what it returns
    on the values read, built in the order of [comparators]. *)
Definition apply_comparators {V} (comparators : list (Comparator V))
    (data_nodes : list V) : gmap string V :=
  foldl (fun m comparator => <[__name__ comparator := call comparator data_nodes]> m)
        ∅ comparators.

(** [[scenario.__getattr__(data_node_config_id).read() for scenario in scenarios]];
    [read scenario id] is [None] when the scenario has no such attribute. *)
Fixpoint read_all {V} (read : Scenario.t -> string -> option V)
    (data_node_config_id : string) (scenarios : list Scenario.t) : res (list V) :=
  match scenarios with
  | [] => ok []
  | scenario :: rest =>
      match read scenario data_node_config_id with
      | None => raise AttributeError
      | Some v =>
          vs <-? read_all read data_node_config_id rest ;;
          ok (v :: vs)
      end
  end.

Fixpoint compare_each {V} (read : Scenario.t -> string -> option V)
    (scenarios : list Scenario.t)
    (dn_comparators : list (string * list (Comparator V)))
    (results : gmap string (gmap string V)) : res (gmap string (gmap string V)) :=
  match dn_comparators with
  | [] => ok results
  | (data_node_config_id, comparators) :: rest =>
      data_nodes <-? read_all read data_node_config_id scenarios ;;
      compare_each read scenarios rest
        (<[data_node_config_id := apply_comparators comparators data_nodes]> results)
  end.

(** [Config_scenarios] is [Config.scenarios]; [read scenario id] is
    [scenario.__getattr__(id).read()], which belongs to the data layer. *)
Definition _compare {V} (Config_scenarios : gmap string (ScenarioConfig.t V))
    (read : Scenario.t -> string -> option V)
    (scenarios : list Scenario.t) (data_node_config_id : option string)
    : res (gmap string (gmap string V)) :=
  match scenarios with
  | [] | [_] => raise InsufficientScenarioToCompare
  | scenario0 :: _ =>
      if negb (forallb (fun scenario =>
                          bool_decide (Scenario.config_id scenario0
                                       = Scenario.config_id scenario)) scenarios)
      then raise DifferentScenarioConfigs
      else
        match __get_config Config_scenarios scenario0 with
        | Some scenario_config =>
            dn_comparators <-?
              (if truthy data_node_config_id then
                 let data_node_config_id := default EmptyString data_node_config_id in
                 match ScenarioConfig.comparators scenario_config !! data_node_config_id with
                 | Some comparators => ok {[data_node_config_id := comparators]}
                 | None => raise NonExistingComparator
                 end
               else ok (ScenarioConfig.comparators scenario_config)) ;;
            compare_each read scenarios (map_to_list dn_comparators) ∅
        | None => raise NonExistingScenarioConfig
        end
  end.

Definition _hard_delete (scenario_id : Id) : M unit :=
  scenario <- _get scenario_id ;;
  match scenario with
  | None => throw AttributeError
  | Some scenario =>
      if Scenario.is_master scenario then throw DeletingMasterScenario
      else
        for_each (map_to_list (Scenario.pipelines scenario)).*2 (fun pipeline =>
          if bool_decide (Pipeline.parent_id pipeline = Some (Scenario.id scenario))
             || bool_decide (Pipeline.parent_id pipeline = Some (Pipeline.id pipeline))
          then _PipelineManager._hard_delete (Pipeline.id pipeline) (Scenario.id scenario)
          else ret tt) ;;
        _ScenarioRepository._delete scenario_id
  end.

End _ScenarioManager.

(* ===================================================================== *)
(** ** The calendar the buckets are measured against

    The proleptic Gregorian calendar told day by day, without ordinals:
    what the facts on the cycle dates are stated with. *)
(* ===================================================================== *)

Section CalendarSpec.
Import Py.
Import _CycleManager.

(** A year written [400 q + 100 a + 4 b + c + 1] is leap exactly when it
    closes a four-year group that does not close a century, or closes a
    four-century group. *)
Definition leap_of (a b c : Z) : bool := (c =? 3) && (negb (b =? 24) || (a =? 3)).

(** The leap day counted in the days before month [m], and the length of
    month [m], in a year that is leap or not. *)
Definition leap_adj (leap : bool) (m : Z) : Z := if (2 <? m) && leap then 1 else 0.

Definition dim_of (leap : bool) (m : Z) : Z :=
  _DAYS_IN_MONTH m + (if (m =? 2) && leap then 1 else 0).

(** [_month_day] sends the day number [n] of a year to a month and a day
    of that month that count back to [n]; checked for a whole year. *)
Definition month_day_ok (leap : bool) (n : Z) : bool :=
  let '(m, d) := _month_day leap n in
  (1 <=? m) && (m <=? 12) && (1 <=? d) && (d <=? dim_of leap m)
  && (_DAYS_BEFORE_MONTH m + leap_adj leap m + d =? n + 1).

Definition month_day_table_ok (leap : bool) : bool :=
  forallb (fun k => month_day_ok leap (Z.of_nat k))
          (seq 0 (if leap then 366 else 365)).

(** The day after [d]. *)
Definition next_day (d : date) : date :=
  if day d <? _days_in_month (year d) (month d)
  then mkdate (year d) (month d) (day d + 1)
  else if month d <? 12 then mkdate (year d) (month d + 1) 1
       else mkdate (year d + 1) 1 1.

(** [k] days after [d]. *)
Definition add_days (k : nat) (d : date) : date := Nat.iter k next_day d.

(** The last microsecond of the day [d]. *)
Definition last_instant (d : date) : datetime := mkdatetime d 23 59 59 999999.

(** [date.max] *)
Definition last_date : date := mkdate 9999 12 31.

(** [s] is the first day of the bucket of frequency [F] that holds the
    day [d]: [d] itself, the Monday on or before [d], the first of the
    month of [d], the first of January of the year of [d]. *)
Definition first_day_spec (F : Frequency) (d s : date) : Prop :=
  match F with
  | DAILY => s = d
  | WEEKLY => weekday s = 0 /\ 0 <= weekday d <= 6
              /\ add_days (Z.to_nat (weekday d)) s = d
  | MONTHLY => s = mkdate (year d) (month d) 1
  | YEARLY => s = mkdate (year d) 1 1
  end.

(** The last day of the bucket that starts on the day [s]; months and
    years have the length the calendar gives them. *)
Definition bucket_last_day (F : Frequency) (s : date) : date :=
  match F with
  | DAILY => s
  | WEEKLY => add_days 6 s
  | MONTHLY => mkdate (year s) (month s) (_days_in_month (year s) (month s))
  | YEARLY => mkdate (year s) 12 31
  end.

(** What the cycle manager computes for the instant [T] at frequency [F],
    [s] being the first day of the bucket and [e] its last day. *)
Definition bucket_facts (F : Frequency) (T : datetime) (s : date) : Prop :=
  let e := bucket_last_day F s in
  _get_start_date_of_cycle F T = ok (combine_midnight s)
  /\ valid_date s = true
  /\ first_day_spec F (dt_date T) s
  /\ (valid_date (next_day e) = true ->
      _get_end_date_of_cycle F (combine_midnight s) = ok (last_instant e)
      /\ datetime_add (last_instant e) (mk_timedelta 0 0 1)
         = ok (combine_midnight (next_day e))
      /\ _get_start_date_of_cycle F (combine_midnight (next_day e))
         = ok (combine_midnight (next_day e))
      /\ _get_start_date_of_cycle F (last_instant e) = ok (combine_midnight s)
      /\ (F = WEEKLY -> weekday e = 6))
  /\ (valid_date (next_day e) = false ->
      _get_end_date_of_cycle F (combine_midnight s) = raise OverflowError).

End CalendarSpec.

(* ===================================================================== *)
(** ** Worlds: what is persisted, the invariant and the operations *)
(* ===================================================================== *)

Section Worlds.
Import _ScenarioManager.
Local Close Scope Z_scope.

(** What is persisted: the scenario read back for an identity. *)
Definition persisted (w : World) (k : Id) (s : Scenario.t) : Prop :=
  scenarios w !! k = Some s.

(** Every scenario is stored under its own identity, and every identity
    in use was issued. *)
Definition stored_under_id (w : World) : Prop :=
  forall k s, persisted w k s -> Scenario.id s = k.

Definition ids_issued (w : World) : Prop :=
  forall k s, persisted w k s -> (k < next_id w)%nat.

(** The scenarios of a cycle, its masters and the holders of a tag, as
    [_get_all_by_cycle] and the scans over it read them. *)
Definition all_scenarios (w : World) : list Scenario.t :=
  (map_to_list (scenarios w)).*2.

Definition scenarios_of (w : World) (c : Cycle.t) : list Scenario.t :=
  List.filter (in_cycle c) (all_scenarios w).

Definition masters_of (w : World) (c : Cycle.t) : list Scenario.t :=
  List.filter Scenario.is_master (scenarios_of w c).

Definition holders_of (w : World) (c : Cycle.t) (tag : string) : list Scenario.t :=
  List.filter (fun s => Scenario.has_tag s tag) (scenarios_of w c).

(** The two scans as one test on a scenario. *)
Definition master_in (c : Cycle.t) (s : Scenario.t) : bool :=
  in_cycle c s && Scenario.is_master s.

Definition holder_in (c : Cycle.t) (tag : string) (s : Scenario.t) : bool :=
  in_cycle c s && Scenario.has_tag s tag.

(** The master invariant: in every cycle at most one master, and exactly
    one as soon as the cycle has a scenario. *)
Definition one_master_per_cycle (w : World) : Prop :=
  forall c : Cycle.t,
    (length (masters_of w c) <= 1)%nat
    /\ (scenarios_of w c <> [] -> length (masters_of w c) = 1%nat).

(** The scenario object a caller hands over agrees with what is persisted
    for it on the master flag and on the cycle. *)
Definition in_sync (w : World) (s : Scenario.t) : Prop :=
  exists s0, persisted w (Scenario.id s) s0
             /\ Scenario.is_master s0 = Scenario.is_master s
             /\ Scenario.cycle s0 = Scenario.cycle s.

Definition in_sync_opt (w : World) (o : option Scenario.t) : Prop :=
  match o with Some s => in_sync w s | None => True end.

(** One operation of the Scenario Manager, from the world before to the
    world after, whether it returns or raises. *)
Inductive step (pm : PipelineManager) (w : World) : World -> Prop :=
  | step_create {V} (now : Py.datetime) (config : ScenarioConfig.t V)
      (creation_date : option Py.datetime) (display_name : option string) :
      step pm w (snd (_create pm now config creation_date display_name w))
  | step_set_master (s : Scenario.t) :
      in_sync w s -> step pm w (snd (_set_master s w))
  | step_tag (s : Scenario.t) (tag : string) :
      in_sync w s -> step pm w (snd (_tag s tag w))
  | step_untag (s : Scenario.t) (tag : string) :
      in_sync w s -> step pm w (snd (_untag s tag w))
  | step_delete (scenario_id : Id) :
      step pm w (snd (_delete scenario_id w))
  | step_hard_delete (scenario_id : Id) :
      step pm w (snd (_hard_delete scenario_id w))
  | step_subscribe (callback : Callback) (o : option Scenario.t) :
      in_sync_opt w o -> step pm w (snd (_subscribe callback o w))
  | step_unsubscribe (callback : Callback) (o : option Scenario.t) :
      in_sync_opt w o -> step pm w (snd (_unsubscribe callback o w)).

Definition reachable (pm : PipelineManager) (w : World) : Prop :=
  rtc (step pm) empty_world w.

(** The same operations with any scenario object at all. *)
Inductive step_any (pm : PipelineManager) (w : World) : World -> Prop :=
  | any_create {V} (now : Py.datetime) (config : ScenarioConfig.t V)
      (creation_date : option Py.datetime) (display_name : option string) :
      step_any pm w (snd (_create pm now config creation_date display_name w))
  | any_set_master (s : Scenario.t) : step_any pm w (snd (_set_master s w))
  | any_tag (s : Scenario.t) (tag : string) : step_any pm w (snd (_tag s tag w))
  | any_untag (s : Scenario.t) (tag : string) : step_any pm w (snd (_untag s tag w))
  | any_delete (scenario_id : Id) : step_any pm w (snd (_delete scenario_id w))
  | any_hard_delete (scenario_id : Id) :
      step_any pm w (snd (_hard_delete scenario_id w))
  | any_subscribe (callback : Callback) (o : option Scenario.t) :
      step_any pm w (snd (_subscribe callback o w))
  | any_unsubscribe (callback : Callback) (o : option Scenario.t) :
      step_any pm w (snd (_unsubscribe callback o w)).

(** What [_get_master] and [_get_by_tag] find. *)
Definition first_master (w : World) (c : Cycle.t) : option Scenario.t :=
  List.find Scenario.is_master (scenarios_of w c).

Definition first_holder (w : World) (c : Cycle.t) (tag : string) : option Scenario.t :=
  List.find (fun s => Scenario.has_tag s tag) (scenarios_of w c).

Definition with_scenarios (w : World) (m : gmap Id Scenario.t) : World :=
  mkWorld m (cycles w) (pm_requests w) (next_id w).

Definition put (s : Scenario.t) (m : gmap Id Scenario.t) : gmap Id Scenario.t :=
  <[Scenario.id s := s]> m.

(** What the master invariant reads of a scenario. *)
Definition shape (s : Scenario.t) : bool * option Cycle.t :=
  (Scenario.is_master s, Scenario.cycle s).

Definition same_shapes (m m' : gmap Id Scenario.t) : Prop :=
  forall k, shape <$> (m !! k) = shape <$> (m' !! k).

(** The guard of [_tag]. *)
Definition unauthorized (s : Scenario.t) (tag : string) : bool :=
  let tags :=
    default (PTags ∅) (Scenario.properties s !! _AUTHORIZED_TAGS_KEY) in
  (0 <? py_len tags)%nat && negb (py_contains tag tags).

(** The hard deletes [_hard_delete] issues for a scenario: one for each of
    its pipelines whose [parent_id] is the scenario or the pipeline itself. *)
Definition cascaded (s : Scenario.t) (p : Pipeline.t) : bool :=
  bool_decide (Pipeline.parent_id p = Some (Scenario.id s))
  || bool_decide (Pipeline.parent_id p = Some (Pipeline.id p)).

Definition hard_delete_requests (s : Scenario.t) : list PMRequest :=
  map (fun p => PMHardDelete (Pipeline.id p) (Scenario.id s))
      (List.filter (cascaded s) (map_to_list (Scenario.pipelines s)).*2).

Definition with_requests (w : World) (l : list PMRequest) : World :=
  mkWorld (scenarios w) (cycles w) l (next_id w).

(** The cycles a lookup by frequency and start date finds. *)
Definition matching_cycles (w : World) (frequency : Frequency)
    (start_date : Py.datetime) : list Cycle.t :=
  filter (fun c => Cycle.frequency c = frequency
                   /\ Cycle.start_date c = start_date)
         (map_to_list (cycles w)).*2.

(** Every cycle is stored under its own identity, which was issued. *)
Definition cycles_well_formed (w : World) : Prop :=
  forall k c, cycles w !! k = Some c -> Cycle.id c = k /\ (k < next_id w)%nat.

(** The cycle [_CycleManager._create] builds. *)
Definition new_cycle (w : World) (frequency : Frequency) (name : option string)
    (creation_date : Py.datetime) (display_name : option string)
    (properties : gmap string prop_value) (start_date end_date : Py.datetime)
    : Cycle.t :=
  Cycle.mk (next_id w) frequency
    (<["display_name" :=
         PText (if truthy display_name then default EmptyString display_name
                else isoformat start_date)]> properties)
    creation_date start_date end_date name.

(** The invariant the reachable worlds keep, by identity: the master
    invariant, every scenario stored under its own identity, and every
    identity in use issued. *)
Definition unique_master (m : gmap Id Scenario.t) (c : Cycle.t) : Prop :=
  forall k1 s1 k2 s2,
    m !! k1 = Some s1 -> in_cycle c s1 = true -> Scenario.is_master s1 = true ->
    m !! k2 = Some s2 -> in_cycle c s2 = true -> Scenario.is_master s2 = true ->
    k1 = k2.

Definition populated (m : gmap Id Scenario.t) (c : Cycle.t) : Prop :=
  exists k s, m !! k = Some s /\ in_cycle c s = true.

Definition mastered (m : gmap Id Scenario.t) (c : Cycle.t) : Prop :=
  exists k s, m !! k = Some s /\ in_cycle c s = true
              /\ Scenario.is_master s = true.

Definition elected (m : gmap Id Scenario.t) : Prop :=
  forall c, unique_master m c /\ (populated m c -> mastered m c).

Definition good (w : World) : Prop :=
  elected (scenarios w) /\ stored_under_id w /\ ids_issued w.

(** A cycle that holds a scenario before still holds one after. *)
Definition keeps_population (w w' : World) : Prop :=
  forall c, populated (scenarios w) c -> populated (scenarios w') c.

End Worlds.

(* ===================================================================== *)
(** ** Worked examples

    Concrete worlds, built by running the managers from the empty world. *)
Module Examples.
Import _ScenarioManager.

Definition wednesday : Py.datetime := Py.mkdatetime (Py.mkdate 2022 3 16) 10 30 0 0.
Definition thursday : Py.datetime := Py.mkdatetime (Py.mkdate 2022 3 17) 9 0 0 0.
Definition next_monday : Py.datetime := Py.mkdatetime (Py.mkdate 2022 3 21) 8 0 0 0.

(** A pipeline manager that gives every scenario its own pipeline. *)
Definition pm : PipelineManager :=
  fun _ p_config scenario_id =>
    Pipeline.mk (100 + scenario_id)%nat (pipeline_config_id p_config) (Some scenario_id).

Definition weekly_config : ScenarioConfig.t Z :=
  ScenarioConfig.mk "sales" [mkPipelineConfig "forecast"] (Some WEEKLY) ∅ ∅.

Definition plain_config : ScenarioConfig.t Z :=
  ScenarioConfig.mk "adhoc" [] None ∅ ∅.

(** The value an operation returned, and the world it left. *)
Definition returned {A} (d : A) (run : res A * World) : A :=
  match fst run with inr a => a | inl _ => d end.

Definition nobody : Scenario.t :=
  Scenario.new EmptyString [] ∅ 0%nat None false None.

(** Two scenarios of one week: the first is the master. *)
Definition w1 : World := snd (_create pm wednesday weekly_config None None empty_world).
Definition A : Scenario.t :=
  returned nobody (_create pm wednesday weekly_config None None empty_world).
Definition w2 : World := snd (_create pm thursday weekly_config None None w1).
Definition B : Scenario.t :=
  returned nobody (_create pm thursday weekly_config None None w1).

(** [B] is made the master; the caller's [A] still says master. *)
Definition w3 : World := snd (_set_master B w2).
Definition B_master : Scenario.t := returned nobody (_set_master B w2).
Definition w4 : World := snd (_untag A "draft" w3).

Definition week : Cycle.t :=
  match Scenario.cycle A with
  | Some c => c
  | None => Cycle.mk 0%nat WEEKLY ∅ wednesday wednesday wednesday None
  end.

(** [A] holds the tag "best" before [B] asks for it. *)
Definition w_best : World := snd (_tag A "best" w2).
Definition A_best : Scenario.t := returned nobody (_tag A "best" w2).

(** Two scenarios without a cycle. *)
Definition w5 : World := snd (_create pm wednesday plain_config None None w2).
Definition C : Scenario.t :=
  returned nobody (_create pm wednesday plain_config None None w2).
Definition w6 : World := snd (_create pm thursday plain_config None None w5).
Definition D : Scenario.t :=
  returned nobody (_create pm thursday plain_config None None w5).

(** A scenario with a pipeline of its own, a pipeline that is its own
    parent and a pipeline of another scenario. *)
Definition owned : Pipeline.t := Pipeline.mk 7%nat "forecast" (Some 1%nat).
Definition self_parented : Pipeline.t := Pipeline.mk 8%nat "report" (Some 8%nat).
Definition foreign : Pipeline.t := Pipeline.mk 9%nat "shared" (Some 2%nat).
Definition keeper : Scenario.t :=
  Scenario.new "sales" [owned; self_parented; foreign] ∅ 1%nat None false None.
Definition w_keeper : World := mkWorld {[1%nat := keeper]} ∅ [] 2%nat.

(** A scenario whose only authorized tag is "final". *)
Definition guarded : Scenario.t :=
  Scenario.new "sales" [] {[_AUTHORIZED_TAGS_KEY := PTags {["final"]}]}
    3%nat None false None.
Definition w_guarded : World := mkWorld {[3%nat := guarded]} ∅ [] 4%nat.

(** A configuration with one comparator, and a data layer in which every
    scenario has a "revenue". *)
Definition total : Comparator Z := mkComparator "total" (fun vs => foldr Z.add 0 vs).
Definition compared_config : ScenarioConfig.t Z :=
  ScenarioConfig.mk "sales" [] (Some WEEKLY) ∅ {["revenue" := [total]]}.
Definition configs : gmap string (ScenarioConfig.t Z) :=
  {["sales" := compared_config]}.
Definition revenue (s : Scenario.t) (d : string) : option Z :=
  if decide (d = "revenue") then Some (10 + Z.of_nat (Scenario.id s)) else None.

End Examples.

(* ===================================================================== *)
(** ** The span of a bucket, day by day *)
(* ===================================================================== *)

Section BucketSpec.
Import Py.
Import _CycleManager.

(** The number of days of the bucket of frequency [F] that starts on the
    day [s]. *)
Definition bucket_days (F : Frequency) (s : date) : Z :=
  match F with
  | DAILY => 1
  | WEEKLY => 7
  | MONTHLY => _days_in_month (year s) (month s)
  | YEARLY => if _is_leap (year s) then 366 else 365
  end.

(** The first day of the bucket of frequency [F] that holds the day [d]. *)
Definition first_day (F : Frequency) (d : date) : date :=
  match F with
  | DAILY => d
  | WEEKLY => fromordinal (toordinal d - weekday d)
  | MONTHLY => mkdate (year d) (month d) 1
  | YEARLY => mkdate (year d) 1 1
  end.

End BucketSpec.

(* ===================================================================== *)
(** ** The cycles of a world *)
(* ===================================================================== *)

Section CycleStore.
Import _CycleManager.
Local Close Scope Z_scope.

(** A cycle whose dates are those of the bucket of its creation date. *)
Definition cycle_consistent (c : Cycle.t) : Prop :=
  _get_start_date_of_cycle (Cycle.frequency c) (Cycle.creation_date c)
  = ok (Cycle.start_date c)
  /\ _get_end_date_of_cycle (Cycle.frequency c) (Cycle.start_date c)
     = ok (Cycle.end_date c).

(** No two cycles for one frequency and one bucket start. *)
Definition no_duplicate_buckets (w : World) : Prop :=
  forall k1 c1 k2 c2,
    cycles w !! k1 = Some c1 -> cycles w !! k2 = Some c2 ->
    Cycle.frequency c1 = Cycle.frequency c2 ->
    Cycle.start_date c1 = Cycle.start_date c2 ->
    k1 = k2.

(** The cycles of a world are stored under issued identities of their own,
    one for a bucket, each with the dates of its bucket. *)
Definition cycles_sound (w : World) : Prop :=
  cycles_well_formed w /\ no_duplicate_buckets w
  /\ forall k c, cycles w !! k = Some c -> cycle_consistent c.

End CycleStore.

(* ===================================================================== *)
(** ** More on worlds: links, tags, creation and submission *)
(* ===================================================================== *)

Section MoreWorlds.
Import _ScenarioManager.
Local Close Scope Z_scope.

(** Every record of [m'] stands where a record of [m] stood, in the same
    cycle, and is flagged master only if that one was or if it has a
    cycle. *)
Definition descends (m m' : gmap Id Scenario.t) : Prop :=
  forall k s',
    m' !! k = Some s' ->
    exists s, m !! k = Some s
              /\ Scenario.cycle s' = Scenario.cycle s
              /\ (Scenario.is_master s' = true ->
                  Scenario.is_master s = true \/ Scenario.cycle s' <> None).

(** Every scenario in a cycle refers to a persisted cycle. *)
Definition scenarios_linked (w : World) : Prop :=
  forall k s c,
    persisted w k s -> Scenario.cycle s = Some c ->
    cycles w !! Cycle.id c = Some c.

(** Only scenarios of a cycle are masters. *)
Definition masters_in_cycles (w : World) : Prop :=
  forall k s,
    persisted w k s -> Scenario.is_master s = true -> Scenario.cycle s <> None.

(** What every reachable world satisfies. *)
Definition coherent (w : World) : Prop :=
  good w /\ cycles_sound w /\ scenarios_linked w /\ masters_in_cycles w.

(** What an operation that creates no scenario leaves of a world: the
    cycles, the identities issued, and records that descend from those it
    found. *)
Definition frames (w w' : World) : Prop :=
  cycles w' = cycles w /\ next_id w' = next_id w
  /\ descends (scenarios w) (scenarios w').

(** The scenario object a caller hands over agrees with what is persisted
    for it on the master flag, the cycle and the tags. *)
Definition in_tag_sync (w : World) (s : Scenario.t) : Prop :=
  exists s0, persisted w (Scenario.id s) s0
             /\ Scenario.is_master s0 = Scenario.is_master s
             /\ Scenario.cycle s0 = Scenario.cycle s
             /\ Scenario.tags s0 = Scenario.tags s.

(** The same for the optional scenario of [_subscribe]. *)
Definition in_tag_sync_opt (w : World) (o : option Scenario.t) : Prop :=
  match o with Some s => in_tag_sync w s | None => True end.

(** One operation of the Scenario Manager on such an object. *)
Inductive step_synced (pm : PipelineManager) (w : World) : World -> Prop :=
  | synced_create {V} (now : Py.datetime) (config : ScenarioConfig.t V)
      (creation_date : option Py.datetime) (display_name : option string) :
      step_synced pm w (snd (_create pm now config creation_date display_name w))
  | synced_set_master (s : Scenario.t) :
      in_tag_sync w s -> step_synced pm w (snd (_set_master s w))
  | synced_tag (s : Scenario.t) (tag : string) :
      in_tag_sync w s -> step_synced pm w (snd (_tag s tag w))
  | synced_untag (s : Scenario.t) (tag : string) :
      in_tag_sync w s -> step_synced pm w (snd (_untag s tag w))
  | synced_delete (scenario_id : Id) :
      step_synced pm w (snd (_delete scenario_id w))
  | synced_hard_delete (scenario_id : Id) :
      step_synced pm w (snd (_hard_delete scenario_id w))
  | synced_subscribe (callback : Callback) (o : option Scenario.t) :
      in_tag_sync_opt w o -> step_synced pm w (snd (_subscribe callback o w))
  | synced_unsubscribe (callback : Callback) (o : option Scenario.t) :
      in_tag_sync_opt w o -> step_synced pm w (snd (_unsubscribe callback o w)).

(** In every cycle at most one scenario holds a given tag. *)
Definition one_holder_per_tag (w : World) : Prop :=
  forall (c : Cycle.t) (tag : string), (length (holders_of w c tag) <= 1)%nat.

(** The same, by identity. *)
Definition unique_holder (m : gmap Id Scenario.t) : Prop :=
  forall (c : Cycle.t) (tag : string) k1 s1 k2 s2,
    m !! k1 = Some s1 -> in_cycle c s1 = true -> Scenario.has_tag s1 tag = true ->
    m !! k2 = Some s2 -> in_cycle c s2 = true -> Scenario.has_tag s2 tag = true ->
    k1 = k2.

(** Every record of [m'] stands where a record of [m] stood, in the same
    cycle and with no tag that one had not. *)
Definition sheds (m m' : gmap Id Scenario.t) : Prop :=
  forall k s',
    m' !! k = Some s' ->
    exists s, m !! k = Some s
              /\ Scenario.cycle s' = Scenario.cycle s
              /\ Scenario.tags s' ⊆ Scenario.tags s.

(** The pipelines the Pipeline Manager answers when asked for each
    configuration in turn, each answer after the requests before it. *)
Fixpoint pipelines_answered (pm : PipelineManager) (trace : list PMRequest)
    (p_configs : list PipelineConfig) (scenario_id : Id) : list Pipeline.t :=
  match p_configs with
  | [] => []
  | p_config :: rest =>
      pm trace p_config scenario_id
      :: pipelines_answered pm (trace ++ [PMGetOrCreate p_config scenario_id])
           rest scenario_id
  end.

(** ** Submitting

    A call [_PipelineManager._submit(pipeline, callbacks=callbacks,
    force=force)]; a callback [partial(c, scenario)] is the subscriber [c]
    with the scenario it is bound to. What the Pipeline Manager does with
    the call belongs to the execution engine. *)
Record Submission : Type := mkSubmission {
  submitted_pipeline : Pipeline.t;
  submitted_callbacks : list (Callback * Scenario.t);
  submitted_force : bool
}.

(** [[partial(c, scenario) for c in scenario.subscribers]] *)
Definition __get_status_notifier_callbacks (scenario : Scenario.t)
    : list (Callback * Scenario.t) :=
  map (fun c => (c, scenario)) (Scenario.subscribers scenario).

(** [_submit(scenario, force)], for a scenario or the identity of one:
    the result or the exception, the world, and the calls made to the
    Pipeline Manager, one for each value of the dictionary of pipelines. *)
Definition _submit (scenario : Id + Scenario.t) (force : bool)
    : World -> res unit * World * list Submission :=
  fun w =>
    let scenario_id :=
      match scenario with inr scenario => Scenario.id scenario | inl k => k end in
    match _get scenario_id w with
    | (inl e, w') => (inl e, w', [])
    | (inr None, w') => (raise NonExistingScenario, w', [])
    | (inr (Some scenario), w') =>
        let callbacks := __get_status_notifier_callbacks scenario in
        (ok tt, w',
         map (fun pipeline => mkSubmission pipeline callbacks force)
             (map_to_list (Scenario.pipelines scenario)).*2)
    end.

End MoreWorlds.

(* ===================================================================== *)
(** ** More worked examples: the tag "best" passes from [A] to [B]. *)
Module Tour.
Import _ScenarioManager.
Import Examples.

Definition w_passed : World := snd (_tag B "best" w_best).
Definition B_best : Scenario.t := returned nobody (_tag B "best" w_best).

End Tour.

(* ===================================================================== *)
(** ** Worked examples with a stale object: three scenarios of one week. *)
Module Stale.
Import _ScenarioManager.
Import Examples.

Definition friday : Py.datetime := Py.mkdatetime (Py.mkdate 2022 3 18) 9 0 0 0.

(** A third scenario [E] joins [A] and [B] in their week. *)
Definition w_three : World := snd (_create pm friday weekly_config None None w2).
Definition E : Scenario.t :=
  returned nobody (_create pm friday weekly_config None None w2).

(** The tag "best" goes to [B], then passes to [E]; the caller's [B_held]
    still carries it, and untagging that object persists it: the week has
    two holders when [A] asks for the tag. *)
Definition w_held : World := snd (_tag B "best" w_three).
Definition B_held : Scenario.t := returned nobody (_tag B "best" w_three).
Definition w_moved : World := snd (_tag E "best" w_held).
Definition E_held : Scenario.t := returned nobody (_tag E "best" w_held).
Definition w_two_holders : World := snd (_untag B_held "draft" w_moved).
Definition w_third_holder : World := snd (_tag A "best" w_two_holders).
Definition A_held : Scenario.t := returned nobody (_tag A "best" w_two_holders).

(** [B] is made the master, then [E]; the caller's [B_elected] still
    carries the flag, and untagging that object persists it: the week has
    two masters when the persisted [A] is made the master. *)
Definition w_elected : World := snd (_set_master B w_three).
Definition B_elected : Scenario.t := returned nobody (_set_master B w_three).
Definition w_reelected : World := snd (_set_master E w_elected).
Definition E_elected : Scenario.t := returned nobody (_set_master E w_elected).
Definition w_two_masters : World := snd (_untag B_elected "draft" w_reelected).
Definition A_demoted : Scenario.t := Scenario.set_master_scenario A false.
Definition w_third_master : World := snd (_set_master A_demoted w_two_masters).
Definition A_elected : Scenario.t :=
  returned nobody (_set_master A_demoted w_two_masters).

End Stale.

(* ===================================================================== *)
(** * Part II: facts *)
(* ===================================================================== *)

(* ===================================================================== *)
(** ** The calendar and the cycle dates *)
(* ===================================================================== *)

Section Calendar.
Import Py.
Import _CycleManager.

Lemma divmod_unique (x d q r : Z) :
  0 <= r < d -> x = d * q + r -> x / d = q /\ x mod d = r.
Proof.
  intros Hr Hx. split.
  - symmetry. apply (Z.div_unique_pos x d q r); lia.
  - symmetry. apply (Z.mod_unique_pos x d q r); lia.
Qed.

Lemma days_before_year_decomp (q a b c : Z) :
  0 <= a <= 3 -> 0 <= b <= 24 -> 0 <= c <= 3 ->
  _days_before_year (400 * q + 100 * a + 4 * b + c + 1)
  = 146097 * q + 36524 * a + 1461 * b + 365 * c.
Proof.
  intros Ha Hb Hc. unfold _days_before_year. cbv zeta.
  replace (400 * q + 100 * a + 4 * b + c + 1 - 1) with (400 * q + 100 * a + 4 * b + c) by lia.
  destruct (divmod_unique (400 * q + 100 * a + 4 * b + c) 4 (100 * q + 25 * a + b) c) as [-> _]; [lia | lia |].
  destruct (divmod_unique (400 * q + 100 * a + 4 * b + c) 100 (4 * q + a) (4 * b + c)) as [-> _]; [lia | lia |].
  destruct (divmod_unique (400 * q + 100 * a + 4 * b + c) 400 q (100 * a + 4 * b + c)) as [-> _]; [lia | lia |].
  lia.
Qed.

Lemma is_leap_decomp (q a b c : Z) :
  0 <= a <= 3 -> 0 <= b <= 24 -> 0 <= c <= 3 ->
  _is_leap (400 * q + 100 * a + 4 * b + c + 1) = leap_of a b c.
Proof.
  intros Ha Hb Hc. unfold _is_leap, leap_of.
  set (y := 400 * q + 100 * a + 4 * b + c + 1).
  assert (H4 : y mod 4 = (c + 1) mod 4).
  { unfold y. replace (400 * q + 100 * a + 4 * b + c + 1) with ((c + 1) + (100 * q + 25 * a + b) * 4) by lia.
    apply Z.mod_add. lia. }
  assert (H100 : y mod 100 = (4 * b + c + 1) mod 100).
  { unfold y. replace (400 * q + 100 * a + 4 * b + c + 1) with ((4 * b + c + 1) + (4 * q + a) * 100) by lia.
    apply Z.mod_add. lia. }
  assert (H400 : y mod 400 = (100 * a + 4 * b + c + 1) mod 400).
  { unfold y. replace (400 * q + 100 * a + 4 * b + c + 1) with ((100 * a + 4 * b + c + 1) + q * 400) by lia.
    apply Z.mod_add. lia. }
  rewrite H4, H100, H400.
  destruct (Z.eqb_spec c 3) as [-> | Hc3].
  - simpl (3 + 1) . change ((3 + 1) mod 4) with 0. simpl.
    destruct (Z.eqb_spec b 24) as [-> | Hb24].
    + change ((4 * 24 + 3 + 1) mod 100) with 0. simpl.
      destruct (Z.eqb_spec a 3) as [-> | Ha3].
      * reflexivity.
      * assert (0 < (100 * a + 4 * 24 + 3 + 1) mod 400) by (rewrite Z.mod_small; lia).
        destruct (Z.eqb_spec ((100 * a + 4 * 24 + 3 + 1) mod 400) 0); [lia | reflexivity].
    + assert (0 < (4 * b + 3 + 1) mod 100) by (rewrite Z.mod_small; lia).
      destruct (Z.eqb_spec ((4 * b + 3 + 1) mod 100) 0); [lia | reflexivity].
  - assert (0 < (c + 1) mod 4) by (rewrite Z.mod_small; lia).
    destruct (Z.eqb_spec ((c + 1) mod 4) 0); [lia | reflexivity].
Qed.

Lemma month_day_table (leap : bool) : month_day_table_ok leap = true.
Proof. destruct leap; vm_compute; reflexivity. Qed.

Lemma month_day_spec (leap : bool) (n : Z) :
  0 <= n < 365 + (if leap then 1 else 0) ->
  let '(m, d) := _month_day leap n in
  1 <= m <= 12 /\ 1 <= d <= dim_of leap m
  /\ _DAYS_BEFORE_MONTH m + leap_adj leap m + d = n + 1.
Proof.
  intros Hn.
  pose proof (month_day_table leap) as Ht. unfold month_day_table_ok in Ht.
  rewrite forallb_forall in Ht.
  specialize (Ht (Z.to_nat n)).
  rewrite Z2Nat.id in Ht by lia.
  assert (Hin : In (Z.to_nat n) (seq 0 (if leap then 366 else 365))).
  { apply in_seq. destruct leap; lia. }
  specialize (Ht Hin). unfold month_day_ok in Ht.
  destruct (_month_day leap n) as [m d].
  repeat (apply andb_prop in Ht; destruct Ht as [Ht ?]).
  lia.
Qed.

Lemma month_day_inv (leap : bool) (m d : Z) :
  1 <= m <= 12 -> 1 <= d <= dim_of leap m ->
  _DAYS_BEFORE_MONTH m + leap_adj leap m + d - 1 < 365 ->
  _month_day leap (_DAYS_BEFORE_MONTH m + leap_adj leap m + d - 1) = (m, d).
Proof.
  intros Hm Hd Hlt.
  set (n := _DAYS_BEFORE_MONTH m + leap_adj leap m + d - 1) in *.
  assert (Hn : 0 <= n < 365 + (if leap then 1 else 0)).
  { unfold n, leap_adj, dim_of in *.
    assert (Hc : m = 1 \/ m = 2 \/ m = 3 \/ m = 4 \/ m = 5 \/ m = 6 \/ m = 7
                 \/ m = 8 \/ m = 9 \/ m = 10 \/ m = 11 \/ m = 12) by lia.
    destruct leap; repeat (destruct Hc as [-> | Hc]); try subst m; simpl in *; lia. }
  pose proof (month_day_spec leap n Hn) as Hs.
  destruct (_month_day leap n) as [m' d'].
  destruct Hs as (Hm' & Hd' & He).
  assert (m' = m).
  { unfold n, leap_adj, dim_of in *.
    assert (Hc : m = 1 \/ m = 2 \/ m = 3 \/ m = 4 \/ m = 5 \/ m = 6 \/ m = 7
                 \/ m = 8 \/ m = 9 \/ m = 10 \/ m = 11 \/ m = 12) by lia.
    assert (Hc' : m' = 1 \/ m' = 2 \/ m' = 3 \/ m' = 4 \/ m' = 5 \/ m' = 6 \/ m' = 7
                 \/ m' = 8 \/ m' = 9 \/ m' = 10 \/ m' = 11 \/ m' = 12) by lia.
    destruct leap; repeat (destruct Hc as [-> | Hc]); try subst m;
      repeat (destruct Hc' as [-> | Hc']); try subst m'; simpl in *; lia. }
  subst m'. f_equal. unfold n in He. lia.
Qed.

Lemma ord2ymd_decomp (q a b c r : Z) :
  0 <= a <= 3 -> 0 <= b <= 24 -> 0 <= c <= 3 -> 0 <= r <= 365 ->
  (r = 365 -> leap_of a b c = true) ->
  _ord2ymd (146097 * q + 36524 * a + 1461 * b + 365 * c + r + 1)
  = if r =? 365 then (400 * q + 100 * a + 4 * b + c + 1, 12, 31)
    else let '(m, d) := _month_day (leap_of a b c) r in
         (400 * q + 100 * a + 4 * b + c + 1, m, d).
Proof.
  intros Ha Hb Hc Hr Hleap. unfold _ord2ymd, _DI400Y, _DI100Y, _DI4Y. cbv zeta.
  replace (146097 * q + 36524 * a + 1461 * b + 365 * c + r + 1 - 1)
    with (146097 * q + 36524 * a + 1461 * b + 365 * c + r) by lia.
  set (n0 := 146097 * q + 36524 * a + 1461 * b + 365 * c + r).
  destruct (divmod_unique n0 146097 q (36524 * a + 1461 * b + 365 * c + r))
    as [-> ->]; [unfold leap_of in Hleap; lia | unfold n0; lia |].
  destruct (Z.eqb_spec r 365) as [-> | Hr365].
  - specialize (Hleap eq_refl). unfold leap_of in Hleap.
    apply andb_prop in Hleap. destruct Hleap as [Hc3 Hba].
    apply Z.eqb_eq in Hc3. subst c.
    destruct (Z.eqb_spec b 24) as [-> | Hb24].
    + simpl in Hba. apply Z.eqb_eq in Hba. subst a.
      replace (36524 * 3 + 1461 * 24 + 365 * 3 + 365) with 146096 by lia.
      change (146096 / 36524) with 4. change (146096 mod 36524) with 0.
      change (0 / 1461) with 0. change (0 mod 1461) with 0.
      change (0 / 365) with 0. simpl ((0 =? 4) || (4 =? 4)). cbv iota.
      f_equal. f_equal. lia.
    + clear Hba.
      destruct (divmod_unique (36524 * a + 1461 * b + 365 * 3 + 365) 36524 a
                              (1461 * b + 1460)) as [-> ->]; [lia | lia |].
      destruct (divmod_unique (1461 * b + 1460) 1461 b 1460) as [-> ->]; [lia | lia |].
      change (1460 / 365) with 4. simpl ((4 =? 4) || (a =? 4)). cbv iota.
      f_equal. f_equal. lia.
  - destruct (divmod_unique (36524 * a + 1461 * b + 365 * c + r) 36524 a
                            (1461 * b + 365 * c + r)) as [-> ->]; [lia | lia |].
    destruct (divmod_unique (1461 * b + 365 * c + r) 1461 b (365 * c + r))
      as [-> ->]; [lia | lia |].
    destruct (divmod_unique (365 * c + r) 365 c r) as [-> ->]; [lia | lia |].
    destruct (Z.eqb_spec c 4) as [? | _]; [lia |].
    destruct (Z.eqb_spec a 4) as [? | _]; [lia |].
    simpl (false || false). cbv iota. fold (leap_of a b c).
    destruct (_month_day (leap_of a b c) r) as [m d].
    f_equal. f_equal. lia.
Qed.

Lemma ord_decomp_exists (n0 : Z) :
  0 <= n0 ->
  exists q a b c r,
    0 <= q /\ 0 <= a <= 3 /\ 0 <= b <= 24 /\ 0 <= c <= 3 /\ 0 <= r <= 365
    /\ (r = 365 -> leap_of a b c = true)
    /\ n0 = 146097 * q + 36524 * a + 1461 * b + 365 * c + r.
Proof.
  intros Hn.
  pose proof (Z.div_mod n0 146097 ltac:(lia)) as E1.
  pose proof (Z.mod_pos_bound n0 146097 ltac:(lia)) as B1.
  pose proof (Z.div_pos n0 146097 Hn ltac:(lia)) as Q1.
  set (q := n0 / 146097) in *. set (r1 := n0 mod 146097) in *.
  pose proof (Z.div_mod r1 36524 ltac:(lia)) as E2.
  pose proof (Z.mod_pos_bound r1 36524 ltac:(lia)) as B2.
  set (a := r1 / 36524) in *. set (r2 := r1 mod 36524) in *.
  assert (Ha : 0 <= a <= 4) by lia.
  destruct (Z.eq_dec a 4) as [Ha4 | Ha4].
  { exists q, 3, 24, 3, 365. unfold leap_of. simpl. repeat split; try lia. }
  pose proof (Z.div_mod r2 1461 ltac:(lia)) as E3.
  pose proof (Z.mod_pos_bound r2 1461 ltac:(lia)) as B3.
  set (b := r2 / 1461) in *. set (r3 := r2 mod 1461) in *.
  assert (Hb : 0 <= b <= 24) by lia.
  pose proof (Z.div_mod r3 365 ltac:(lia)) as E4.
  pose proof (Z.mod_pos_bound r3 365 ltac:(lia)) as B4.
  set (c := r3 / 365) in *. set (r4 := r3 mod 365) in *.
  assert (Hc : 0 <= c <= 4) by lia.
  destruct (Z.eq_dec c 4) as [Hc4 | Hc4].
  { exists q, a, b, 3, 365. unfold leap_of.
    assert (b <> 24) by lia.
    destruct (Z.eqb_spec b 24); [lia |]. simpl.
    repeat split; try lia. }
  exists q, a, b, c, r4. repeat split; try lia.
Qed.

Ltac month_cases m :=
  let Hc := fresh "Hc" in
  assert (Hc : m = 1 \/ m = 2 \/ m = 3 \/ m = 4 \/ m = 5 \/ m = 6 \/ m = 7
               \/ m = 8 \/ m = 9 \/ m = 10 \/ m = 11 \/ m = 12) by lia;
  repeat (destruct Hc as [-> | Hc]); try subst m.

Lemma days_in_month_dim (y m : Z) : _days_in_month y m = dim_of (_is_leap y) m.
Proof.
  unfold _days_in_month, dim_of.
  destruct (Z.eqb_spec m 2) as [-> | _]; destruct (_is_leap y); simpl; lia.
Qed.

Lemma days_before_month_adj (y m : Z) :
  _days_before_month y m = _DAYS_BEFORE_MONTH m + leap_adj (_is_leap y) m.
Proof. reflexivity. Qed.

Lemma valid_date_iff (d : date) :
  valid_date d = true <->
  1 <= year d <= 9999 /\ 1 <= month d <= 12
  /\ 1 <= day d <= dim_of (_is_leap (year d)) (month d).
Proof.
  unfold valid_date, _check_date_fields, MINYEAR, MAXYEAR.
  rewrite days_in_month_dim, !andb_true_iff, !Z.leb_le. tauto.
Qed.

Lemma year_decomp_exists (y : Z) :
  1 <= y ->
  exists q a b c,
    0 <= q /\ 0 <= a <= 3 /\ 0 <= b <= 24 /\ 0 <= c <= 3
    /\ y = 400 * q + 100 * a + 4 * b + c + 1.
Proof.
  intros Hy.
  pose proof (Z.div_mod (y - 1) 400 ltac:(lia)) as E1.
  pose proof (Z.mod_pos_bound (y - 1) 400 ltac:(lia)) as B1.
  pose proof (Z.div_pos (y - 1) 400 ltac:(lia) ltac:(lia)) as Q1.
  set (q := (y - 1) / 400) in *. set (r1 := (y - 1) mod 400) in *.
  pose proof (Z.div_mod r1 100 ltac:(lia)) as E2.
  pose proof (Z.mod_pos_bound r1 100 ltac:(lia)) as B2.
  set (a := r1 / 100) in *. set (r2 := r1 mod 100) in *.
  pose proof (Z.div_mod r2 4 ltac:(lia)) as E3.
  pose proof (Z.mod_pos_bound r2 4 ltac:(lia)) as B3.
  set (b := r2 / 4) in *. set (c := r2 mod 4) in *.
  exists q, a, b, c. repeat split; lia.
Qed.

Lemma day_of_year_bounds (leap : bool) (m d : Z) :
  1 <= m <= 12 -> 1 <= d <= dim_of leap m ->
  0 <= _DAYS_BEFORE_MONTH m + leap_adj leap m + d - 1 <= 364 + (if leap then 1 else 0).
Proof.
  intros Hm Hd. unfold leap_adj, dim_of in *.
  destruct leap; month_cases m; simpl in *; lia.
Qed.

Lemma last_day_of_leap_year (leap : bool) (m d : Z) :
  1 <= m <= 12 -> 1 <= d <= dim_of leap m ->
  _DAYS_BEFORE_MONTH m + leap_adj leap m + d - 1 = 365 ->
  leap = true /\ m = 12 /\ d = 31.
Proof.
  intros Hm Hd. unfold leap_adj, dim_of in *.
  destruct leap; month_cases m; simpl in *; lia.
Qed.

Lemma fromordinal_toordinal (d : date) :
  valid_date d = true -> fromordinal (toordinal d) = d.
Proof.
  rewrite valid_date_iff. destruct d as [y m dd]. simpl.
  intros (Hy & Hm & Hd).
  destruct (year_decomp_exists y ltac:(lia)) as (q & a & b & c & Hq & Ha & Hb & Hc & ->).
  unfold fromordinal, toordinal, _ymd2ord. simpl.
  rewrite days_before_year_decomp, days_before_month_adj by lia.
  rewrite is_leap_decomp in * by lia.
  set (leap := leap_of a b c) in *.
  pose proof (day_of_year_bounds leap m dd Hm Hd) as Hb'.
  set (r := _DAYS_BEFORE_MONTH m + leap_adj leap m + dd - 1) in *.
  replace (146097 * q + 36524 * a + 1461 * b + 365 * c
           + (_DAYS_BEFORE_MONTH m + leap_adj leap m) + dd)
    with (146097 * q + 36524 * a + 1461 * b + 365 * c + r + 1) by (unfold r; lia).
  rewrite ord2ymd_decomp; try lia.
  - destruct (Z.eqb_spec r 365) as [Hr | Hr].
    + destruct (last_day_of_leap_year leap m dd Hm Hd Hr) as (_ & -> & ->).
      reflexivity.
    + unfold r. rewrite month_day_inv; [reflexivity | lia | lia |].
      fold r. destruct leap; lia.
  - destruct leap; lia.
  - intros Hr. fold leap. destruct leap; [reflexivity | lia].
Qed.

Lemma toordinal_fromordinal (n : Z) :
  1 <= n <= _MAXORDINAL ->
  valid_date (fromordinal n) = true /\ toordinal (fromordinal n) = n.
Proof.
  unfold _MAXORDINAL. intros Hn.
  destruct (ord_decomp_exists (n - 1) ltac:(lia))
    as (q & a & b & c & r & Hq & Ha & Hb & Hc & Hr & Hleap & E).
  replace n with (146097 * q + 36524 * a + 1461 * b + 365 * c + r + 1) in * by lia.
  unfold fromordinal. rewrite ord2ymd_decomp by assumption.
  assert (HY : 1 <= 400 * q + 100 * a + 4 * b + c + 1 <= 9999) by lia.
  destruct (Z.eqb_spec r 365) as [Hr365 | Hr365].
  - specialize (Hleap Hr365). rewrite valid_date_iff. simpl.
    unfold toordinal, _ymd2ord. simpl.
    rewrite days_before_year_decomp, days_before_month_adj, is_leap_decomp by lia.
    rewrite Hleap. unfold dim_of, leap_adj. simpl. lia.
  - pose proof (month_day_spec (leap_of a b c) r) as Hs.
    destruct (_month_day (leap_of a b c) r) as [m d].
    destruct Hs as (Hm & Hd & He); [destruct (leap_of a b c); lia |].
    rewrite valid_date_iff. simpl.
    unfold toordinal, _ymd2ord. simpl.
    rewrite days_before_year_decomp, days_before_month_adj, is_leap_decomp by lia.
    lia.
Qed.

Lemma days_before_year_succ (y : Z) :
  1 <= y ->
  _days_before_year (y + 1) = _days_before_year y + (if _is_leap y then 366 else 365).
Proof.
  intros Hy.
  destruct (year_decomp_exists y Hy) as (q & a & b & c & Hq & Ha & Hb & Hc & ->).
  rewrite is_leap_decomp, (days_before_year_decomp q a b c) by lia.
  unfold leap_of.
  destruct (Z.eqb_spec c 3) as [-> | Hc3].
  - destruct (Z.eqb_spec b 24) as [-> | Hb24].
    + destruct (Z.eqb_spec a 3) as [-> | Ha3]; simpl.
      * replace (400 * q + 100 * 3 + 4 * 24 + 3 + 1 + 1)
          with (400 * (q + 1) + 100 * 0 + 4 * 0 + 0 + 1) by lia.
        rewrite days_before_year_decomp by lia. lia.
      * replace (400 * q + 100 * a + 4 * 24 + 3 + 1 + 1)
          with (400 * q + 100 * (a + 1) + 4 * 0 + 0 + 1) by lia.
        rewrite days_before_year_decomp by lia. lia.
    + simpl.
      replace (400 * q + 100 * a + 4 * b + 3 + 1 + 1)
        with (400 * q + 100 * a + 4 * (b + 1) + 0 + 1) by lia.
      rewrite days_before_year_decomp by lia. lia.
  - simpl.
    replace (400 * q + 100 * a + 4 * b + c + 1 + 1)
      with (400 * q + 100 * a + 4 * b + (c + 1) + 1) by lia.
    rewrite days_before_year_decomp by lia. lia.
Qed.

Lemma toordinal_next_day (d : date) :
  valid_date d = true -> toordinal (next_day d) = toordinal d + 1.
Proof.
  rewrite valid_date_iff. destruct d as [y m dd]. simpl.
  intros (Hy & Hm & Hd). unfold next_day. simpl.
  rewrite days_in_month_dim.
  destruct (Z.ltb_spec dd (dim_of (_is_leap y) m)) as [Hlt | Hge].
  - unfold toordinal, _ymd2ord. simpl. lia.
  - assert (dd = dim_of (_is_leap y) m) by lia. subst dd.
    destruct (Z.ltb_spec m 12) as [Hm12 | Hm12].
    + unfold toordinal, _ymd2ord. simpl. rewrite !days_before_month_adj.
      unfold dim_of, leap_adj.
      destruct (_is_leap y); month_cases m; simpl; lia.
    + assert (m = 12) by lia. subst m.
      unfold toordinal, _ymd2ord. simpl. rewrite !days_before_month_adj.
      rewrite days_before_year_succ by lia.
      unfold dim_of, leap_adj. destruct (_is_leap y); simpl; lia.
Qed.

Lemma valid_next_day (d : date) :
  valid_date d = true -> d <> last_date -> valid_date (next_day d) = true.
Proof.
  rewrite !valid_date_iff. destruct d as [y m dd]. simpl.
  intros (Hy & Hm & Hd) Hne. unfold next_day. simpl.
  rewrite days_in_month_dim.
  destruct (Z.ltb_spec dd (dim_of (_is_leap y) m)) as [Hlt | Hge]; simpl.
  - lia.
  - destruct (Z.ltb_spec m 12) as [Hm12 | Hm12]; simpl.
    + repeat split; try lia.
      unfold dim_of. destruct (_is_leap y); month_cases m; simpl; lia.
    + assert (m = 12) by lia. subst m.
      assert (dd = 31) by (unfold dim_of in *; simpl in *; lia). subst dd.
      assert (y <> 9999) by (intros ->; apply Hne; reflexivity).
      repeat split; try lia. unfold dim_of. simpl. lia.
Qed.

Lemma toordinal_bounds (d : date) :
  valid_date d = true -> 1 <= toordinal d <= _MAXORDINAL.
Proof.
  rewrite valid_date_iff. destruct d as [y m dd]. simpl.
  intros (Hy & Hm & Hd).
  destruct (year_decomp_exists y ltac:(lia)) as (q & a & b & c & Hq & Ha & Hb & Hc & ->).
  unfold toordinal, _ymd2ord, _MAXORDINAL. simpl.
  rewrite days_before_year_decomp, days_before_month_adj by lia.
  rewrite is_leap_decomp in * by lia.
  pose proof (day_of_year_bounds (leap_of a b c) m dd Hm Hd) as Hb'.
  assert (leap_of a b c = true -> c = 3).
  { unfold leap_of. intros H. apply andb_prop in H. destruct H as [H _].
    apply Z.eqb_eq in H. exact H. }
  destruct (leap_of a b c); lia.
Qed.

Lemma toordinal_last (d : date) :
  valid_date d = true -> toordinal d = _MAXORDINAL -> d = last_date.
Proof.
  intros Hv Ho. rewrite <- (fromordinal_toordinal d Hv), Ho. reflexivity.
Qed.

Lemma toordinal_inj (d1 d2 : date) :
  valid_date d1 = true -> valid_date d2 = true ->
  toordinal d1 = toordinal d2 -> d1 = d2.
Proof.
  intros H1 H2 E.
  rewrite <- (fromordinal_toordinal d1 H1), <- (fromordinal_toordinal d2 H2), E.
  reflexivity.
Qed.

Lemma fromordinal_succ (d : date) :
  valid_date d = true -> d <> last_date ->
  fromordinal (toordinal d + 1) = next_day d.
Proof.
  intros Hv Hne.
  rewrite <- (toordinal_next_day d Hv).
  apply fromordinal_toordinal, valid_next_day; assumption.
Qed.

Lemma add_days_spec (k : nat) (d : date) :
  valid_date d = true -> toordinal d + Z.of_nat k <= _MAXORDINAL ->
  valid_date (add_days k d) = true
  /\ toordinal (add_days k d) = toordinal d + Z.of_nat k.
Proof.
  intros Hv. induction k as [| k IH]; intros Hk.
  - simpl. split; [assumption | lia].
  - destruct IH as [IHv IHo]; [lia |].
    change (add_days (S k) d) with (next_day (add_days k d)).
    assert (Hne : add_days k d <> last_date).
    { intros E. rewrite E in IHo. change (toordinal last_date) with _MAXORDINAL in IHo. lia. }
    split.
    + apply valid_next_day; assumption.
    + rewrite toordinal_next_day by assumption. lia.
Qed.

Lemma add_days_fromordinal (k : nat) (d : date) :
  valid_date d = true -> toordinal d + Z.of_nat k <= _MAXORDINAL ->
  add_days k d = fromordinal (toordinal d + Z.of_nat k).
Proof.
  intros Hv Hk. destruct (add_days_spec k d Hv Hk) as [Hv' Ho].
  rewrite <- Ho. symmetry. apply fromordinal_toordinal. assumption.
Qed.

Lemma mk_timedelta_normal (d s us : Z) :
  0 <= s < 86400 -> 0 <= us < 1000000 -> mk_timedelta d s us = mktd d s us.
Proof.
  intros Hs Hus. unfold mk_timedelta.
  rewrite (Z.div_small us), (Z.mod_small us), Z.add_0_r by lia.
  rewrite (Z.div_small s), (Z.mod_small s), Z.add_0_r by lia.
  reflexivity.
Qed.

Lemma datetime_add_days (d : date) (k : Z) :
  datetime_add (combine_midnight d) (mk_timedelta k 0 0)
  = if (0 <? toordinal d + k) && (toordinal d + k <=? _MAXORDINAL)
    then ok (combine_midnight (fromordinal (toordinal d + k)))
    else raise OverflowError.
Proof.
  unfold datetime_add, combine_midnight. cbn [dt_date hour minute second microsecond].
  change (0 * 3600 + 0 * 60 + 0) with 0.
  rewrite !mk_timedelta_normal by lia. unfold td_add.
  cbn [td_days td_seconds td_microseconds].
  change (0 + 0) with 0.
  rewrite mk_timedelta_normal by lia. reflexivity.
Qed.

Lemma datetime_sub_microsecond (d : date) :
  datetime_sub (combine_midnight d) (mk_timedelta 0 0 1)
  = if (0 <? toordinal d - 1) && (toordinal d - 1 <=? _MAXORDINAL)
    then ok (last_instant (fromordinal (toordinal d - 1)))
    else raise OverflowError.
Proof.
  unfold datetime_sub, datetime_add, combine_midnight.
  cbn [dt_date hour minute second microsecond].
  change (0 * 3600 + 0 * 60 + 0) with 0.
  change (td_neg (mk_timedelta 0 0 1)) with (mktd (-1) 86399 999999).
  rewrite !mk_timedelta_normal by lia. unfold td_add.
  cbn [td_days td_seconds td_microseconds].
  change (0 + 86399) with 86399. change (0 + 999999) with 999999.
  replace (toordinal d + -1) with (toordinal d - 1) by lia.
  rewrite mk_timedelta_normal by lia. reflexivity.
Qed.

Lemma datetime_add_microsecond (d : date) :
  datetime_add (last_instant d) (mk_timedelta 0 0 1)
  = if (0 <? toordinal d + 1) && (toordinal d + 1 <=? _MAXORDINAL)
    then ok (combine_midnight (fromordinal (toordinal d + 1)))
    else raise OverflowError.
Proof.
  unfold datetime_add, last_instant.
  cbn [dt_date hour minute second microsecond].
  change (23 * 3600 + 59 * 60 + 59) with 86399.
  rewrite !mk_timedelta_normal by lia. unfold td_add.
  cbn [td_days td_seconds td_microseconds].
  change (86399 + 0) with 86399. change (999999 + 1) with 1000000.
  unfold mk_timedelta.
  change (1000000 / 1000000) with 1. change (1000000 mod 1000000) with 0.
  change (86399 + 1) with 86400.
  change (86400 / 86400) with 1. change (86400 mod 86400) with 0.
  replace (toordinal d + 0 + 1) with (toordinal d + 1) by lia.
  reflexivity.
Qed.

Lemma weekday_range (d : date) : 0 <= weekday d <= 6.
Proof. unfold weekday. pose proof (Z.mod_pos_bound (toordinal d + 6) 7). lia. Qed.

Lemma start_daily (T : datetime) :
  _get_start_date_of_cycle DAILY T = ok (combine_midnight (dt_date T)).
Proof. reflexivity. Qed.

Lemma start_monthly (T : datetime) :
  valid_date (dt_date T) = true ->
  _get_start_date_of_cycle MONTHLY T
  = ok (combine_midnight (mkdate (year (dt_date T)) (month (dt_date T)) 1)).
Proof.
  intros Hv. unfold _get_start_date_of_cycle. simpl.
  unfold date_replace. simpl.
  assert (Hc : _check_date_fields (year (dt_date T)) (month (dt_date T)) 1 = true).
  { apply valid_date_iff in Hv. destruct Hv as (Hy & Hm & Hd).
    change (valid_date (mkdate (year (dt_date T)) (month (dt_date T)) 1) = true).
    apply valid_date_iff. simpl. repeat split; try lia. }
  rewrite Hc. reflexivity.
Qed.

Lemma start_yearly (T : datetime) :
  valid_date (dt_date T) = true ->
  _get_start_date_of_cycle YEARLY T
  = ok (combine_midnight (mkdate (year (dt_date T)) 1 1)).
Proof.
  intros Hv. unfold _get_start_date_of_cycle. simpl.
  unfold date_replace. simpl.
  assert (Hc : _check_date_fields (year (dt_date T)) 1 1 = true).
  { apply valid_date_iff in Hv. destruct Hv as (Hy & Hm & Hd).
    change (valid_date (mkdate (year (dt_date T)) 1 1) = true).
    apply valid_date_iff. simpl. unfold dim_of. simpl. lia. }
  rewrite Hc. reflexivity.
Qed.

Lemma start_weekly (T : datetime) :
  valid_date (dt_date T) = true ->
  _get_start_date_of_cycle WEEKLY T
  = ok (combine_midnight
          (fromordinal (toordinal (dt_date T) - weekday (dt_date T))))
  /\ 1 <= toordinal (dt_date T) - weekday (dt_date T) <= _MAXORDINAL
  /\ (toordinal (dt_date T) - weekday (dt_date T) + 6) mod 7 = 0.
Proof.
  intros Hv. pose proof (toordinal_bounds _ Hv) as Hb.
  pose proof (weekday_range (dt_date T)) as Hw.
  assert (Hlow : 1 <= toordinal (dt_date T) - weekday (dt_date T)
                 /\ (toordinal (dt_date T) - weekday (dt_date T) + 6) mod 7 = 0).
  { unfold weekday in *.
    pose proof (Z.div_mod (toordinal (dt_date T) + 6) 7 ltac:(lia)) as E.
    set (x := toordinal (dt_date T) + 6) in *.
    assert (1 <= x / 7) by (apply Z.div_le_lower_bound; lia).
    split; [lia |].
    replace (toordinal (dt_date T) - x mod 7 + 6) with (0 + (x / 7) * 7) by lia.
    rewrite Z.mod_add by lia. reflexivity. }
  destruct Hlow as [Hlow Hmod].
  split; [| split; [lia | exact Hmod]].
  unfold _get_start_date_of_cycle. simpl.
  unfold date_sub. rewrite !mk_timedelta_normal by lia.
  cbn [td_days].
  replace (toordinal (dt_date T) + - weekday (dt_date T))
    with (toordinal (dt_date T) - weekday (dt_date T)) by lia.
  destruct (Z.ltb_spec 0 (toordinal (dt_date T) - weekday (dt_date T))); [| lia].
  destruct (Z.leb_spec (toordinal (dt_date T) - weekday (dt_date T)) _MAXORDINAL); [| lia].
  reflexivity.
Qed.

Ltac step_frequency :=
  repeat (first [ rewrite decide_True by reflexivity
                | rewrite decide_False by discriminate ];
          cbn [rbind ok]).

Lemma end_after_days (d : date) (k : Z) :
  valid_date d = true -> 1 <= k ->
  rbind (datetime_add (combine_midnight d) (mk_timedelta k 0 0))
        (fun e => datetime_sub e (mk_timedelta 0 0 1))
  = if toordinal d + k <=? _MAXORDINAL
    then ok (last_instant (fromordinal (toordinal d + k - 1)))
    else raise OverflowError.
Proof.
  intros Hv Hk. pose proof (toordinal_bounds d Hv) as Hb.
  rewrite datetime_add_days.
  destruct (Z.ltb_spec 0 (toordinal d + k)); [| lia].
  destruct (Z.leb_spec (toordinal d + k) _MAXORDINAL) as [Hle | Hgt]; simpl.
  - rewrite datetime_sub_microsecond.
    destruct (toordinal_fromordinal (toordinal d + k) ltac:(lia)) as [_ ->].
    destruct (Z.ltb_spec 0 (toordinal d + k - 1)); [| lia].
    destruct (Z.leb_spec (toordinal d + k - 1) _MAXORDINAL); [| lia].
    reflexivity.
  - reflexivity.
Qed.

Lemma end_date_cases (F : Frequency) (t : datetime) :
  _get_end_date_of_cycle F t
  = rbind
      match F with
      | DAILY => datetime_add t (mk_timedelta 1 0 0)
      | WEEKLY => datetime_add t (mk_timedelta (7 - weekday (dt_date t)) 0 0)
      | MONTHLY =>
          rbind (datetime_replace t None None
                   (Some (monthrange_ndays (year (dt_date t)) (month (dt_date t)))))
                (fun replaced => datetime_add replaced (mk_timedelta 1 0 0))
      | YEARLY =>
          rbind (datetime_replace t None (Some 12) (Some 31))
                (fun replaced => datetime_add replaced (mk_timedelta 1 0 0))
      end
      (fun e => datetime_sub e (mk_timedelta 0 0 1)).
Proof.
  destruct F; unfold _get_end_date_of_cycle; step_frequency.
  - destruct (datetime_add t (mk_timedelta 1 0 0)); reflexivity.
  - destruct (datetime_add t (mk_timedelta (7 - weekday (dt_date t)) 0 0));
      reflexivity.
  - destruct (datetime_replace t None None
                (Some (monthrange_ndays (year (dt_date t)) (month (dt_date t)))))
      as [? | r]; [reflexivity |].
    cbn [rbind]. destruct (datetime_add r (mk_timedelta 1 0 0)); reflexivity.
  - destruct (datetime_replace t None (Some 12) (Some 31)) as [? | r];
      [reflexivity |].
    cbn [rbind]. destruct (datetime_add r (mk_timedelta 1 0 0)); reflexivity.
Qed.

Lemma end_daily (s : date) :
  valid_date s = true ->
  _get_end_date_of_cycle DAILY (combine_midnight s)
  = if toordinal s + 1 <=? _MAXORDINAL then ok (last_instant s)
    else raise OverflowError.
Proof.
  intros Hv. rewrite end_date_cases, (end_after_days s 1 Hv) by lia.
  replace (toordinal s + 1 - 1) with (toordinal s) by lia.
  rewrite fromordinal_toordinal by assumption. reflexivity.
Qed.

Lemma end_weekly (s : date) :
  valid_date s = true -> weekday s = 0 ->
  _get_end_date_of_cycle WEEKLY (combine_midnight s)
  = if toordinal s + 7 <=? _MAXORDINAL
    then ok (last_instant (fromordinal (toordinal s + 6)))
    else raise OverflowError.
Proof.
  intros Hv Hw. rewrite end_date_cases. cbn [dt_date combine_midnight].
  rewrite Hw. change (7 - 0) with 7.
  rewrite (end_after_days s 7 Hv) by lia.
  replace (toordinal s + 7 - 1) with (toordinal s + 6) by lia. reflexivity.
Qed.

Lemma end_replaced (s d : date) (y m dd : option Z) :
  valid_date d = true ->
  date_replace s y m dd = ok d ->
  rbind (rbind (datetime_replace (combine_midnight s) y m dd)
               (fun replaced => datetime_add replaced (mk_timedelta 1 0 0)))
        (fun e => datetime_sub e (mk_timedelta 0 0 1))
  = if toordinal d + 1 <=? _MAXORDINAL then ok (last_instant d)
    else raise OverflowError.
Proof.
  intros Hv Hr. unfold datetime_replace.
  cbn [dt_date combine_midnight hour minute second microsecond].
  rewrite Hr. cbn [rbind ok].
  pose proof (end_after_days d 1 Hv ltac:(lia)) as E.
  replace (toordinal d + 1 - 1) with (toordinal d) in E by lia.
  rewrite fromordinal_toordinal in E by assumption.
  exact E.
Qed.

Lemma end_monthly (s : date) :
  valid_date s = true ->
  let e := mkdate (year s) (month s) (_days_in_month (year s) (month s)) in
  valid_date e = true
  /\ _get_end_date_of_cycle MONTHLY (combine_midnight s)
     = if toordinal e + 1 <=? _MAXORDINAL then ok (last_instant e)
       else raise OverflowError.
Proof.
  intros Hv e.
  assert (Hve : valid_date e = true).
  { apply valid_date_iff in Hv. destruct Hv as (Hy & Hm & Hd).
    apply valid_date_iff. unfold e. simpl. rewrite days_in_month_dim. lia. }
  split; [exact Hve |].
  rewrite end_date_cases. cbn [dt_date combine_midnight].
  apply end_replaced; [exact Hve |].
  unfold date_replace. cbn [default from_option id].
  assert (Hmr : monthrange_ndays (year s) (month s)
                = _days_in_month (year s) (month s)).
  { rewrite days_in_month_dim. reflexivity. }
  rewrite Hmr.
  assert (Hc : _check_date_fields (year s) (month s)
                 (_days_in_month (year s) (month s)) = true) by exact Hve.
  rewrite Hc. reflexivity.
Qed.

Lemma end_yearly (s : date) :
  valid_date s = true ->
  let e := mkdate (year s) 12 31 in
  valid_date e = true
  /\ _get_end_date_of_cycle YEARLY (combine_midnight s)
     = if toordinal e + 1 <=? _MAXORDINAL then ok (last_instant e)
       else raise OverflowError.
Proof.
  intros Hv e.
  assert (Hve : valid_date e = true).
  { apply valid_date_iff in Hv. destruct Hv as (Hy & Hm & Hd).
    apply valid_date_iff. unfold e, dim_of. simpl. lia. }
  split; [exact Hve |].
  rewrite end_date_cases.
  apply end_replaced; [exact Hve |].
  unfold date_replace. cbn [default from_option id].
  assert (Hc : _check_date_fields (year s) 12 31 = true) by exact Hve.
  rewrite Hc. reflexivity.
Qed.

Lemma next_day_valid_iff (d : date) :
  valid_date d = true ->
  valid_date (next_day d) = true <-> toordinal d + 1 <= _MAXORDINAL.
Proof.
  intros Hv. pose proof (toordinal_bounds d Hv) as Hb. split.
  - intros Hn.
    destruct (Z.eq_dec (toordinal d) _MAXORDINAL) as [E | E]; [| lia].
    rewrite (toordinal_last d Hv E) in Hn. discriminate Hn.
  - intros Hle. apply valid_next_day; [assumption |].
    intros ->. change (toordinal last_date) with _MAXORDINAL in Hle. lia.
Qed.

Lemma year_next_day (d : date) : year d <= year (next_day d).
Proof.
  unfold next_day.
  destruct (day d <? _days_in_month (year d) (month d)); simpl; [lia |].
  destruct (month d <? 12); simpl; lia.
Qed.

Lemma year_add_days (k : nat) (d : date) : year d <= year (add_days k d).
Proof.
  induction k as [| k IH]; simpl; [lia |].
  pose proof (year_next_day (add_days k d)). unfold add_days in *. lia.
Qed.

Lemma valid_date_year (d : date) : valid_date d = true -> year d <= 9999.
Proof. rewrite valid_date_iff. lia. Qed.

Lemma add_days_valid_iff (k : nat) (d : date) :
  valid_date d = true ->
  valid_date (add_days k d) = true <-> toordinal d + Z.of_nat k <= _MAXORDINAL.
Proof.
  intros Hv. pose proof (toordinal_bounds d Hv) as Hb. split.
  - intros Hk.
    destruct (Z.le_gt_cases (toordinal d + Z.of_nat k) _MAXORDINAL) as [? | Hgt];
      [assumption | exfalso].
    set (j := Z.to_nat (_MAXORDINAL - toordinal d)).
    destruct (add_days_spec j d Hv ltac:(lia)) as [Hvj Hoj].
    assert (Hlast : add_days j d = last_date).
    { apply toordinal_last; [assumption | lia]. }
    assert (Hsplit : k = (Nat.pred (k - j) + 1 + j)%nat) by lia.
    rewrite Hsplit in Hk. unfold add_days in Hk.
    rewrite !Nat.iter_add in Hk. fold (add_days j d) in Hk.
    rewrite Hlast in Hk. simpl (Nat.iter 1 _ _) in Hk.
    apply valid_date_year in Hk.
    pose proof (year_add_days (Nat.pred (k - j)) (next_day last_date)) as Hy.
    unfold add_days in Hy. simpl (year (next_day last_date)) in Hy. lia.
  - intros Hk. apply add_days_spec; assumption.
Qed.

Lemma add_microsecond_next_day (e : date) :
  valid_date e = true -> valid_date (next_day e) = true ->
  datetime_add (last_instant e) (mk_timedelta 0 0 1)
  = ok (combine_midnight (next_day e)).
Proof.
  intros Hv Hn. pose proof (toordinal_bounds e Hv) as Hb.
  pose proof (proj1 (next_day_valid_iff e Hv) Hn) as Hle.
  rewrite datetime_add_microsecond.
  destruct (Z.ltb_spec 0 (toordinal e + 1)); [| lia].
  destruct (Z.leb_spec (toordinal e + 1) _MAXORDINAL); [| lia].
  simpl. rewrite fromordinal_succ; [reflexivity | assumption |].
  intros ->. discriminate Hn.
Qed.

Lemma not_valid_overflow (e : date) :
  valid_date e = true -> valid_date (next_day e) = false ->
  (toordinal e + 1 <=? _MAXORDINAL) = false.
Proof.
  intros Hv Hn. apply Z.leb_gt.
  destruct (Z.le_gt_cases (toordinal e + 1) _MAXORDINAL) as [Hle | ?]; [| lia].
  apply (next_day_valid_iff e Hv) in Hle. congruence.
Qed.

Lemma bucket_daily (T : datetime) :
  valid_date (dt_date T) = true -> bucket_facts DAILY T (dt_date T).
Proof.
  intros Hv. unfold bucket_facts. cbn [bucket_last_day first_day_spec].
  repeat split.
  - assumption.
  - rewrite end_daily by assumption.
    apply (next_day_valid_iff _ Hv) in H. apply Z.leb_le in H. rewrite H. reflexivity.
  - apply add_microsecond_next_day; assumption.
  - discriminate.
  - intros Hn. rewrite end_daily by assumption.
    rewrite (not_valid_overflow _ Hv Hn). reflexivity.
Qed.

Lemma bucket_monthly (T : datetime) :
  valid_date (dt_date T) = true ->
  bucket_facts MONTHLY T (mkdate (year (dt_date T)) (month (dt_date T)) 1).
Proof.
  intros Hv. unfold bucket_facts. cbn [bucket_last_day first_day_spec year month].
  set (s := mkdate (year (dt_date T)) (month (dt_date T)) 1).
  assert (Hvs : valid_date s = true).
  { apply valid_date_iff in Hv. destruct Hv as (Hy & Hm & Hd).
    apply valid_date_iff. unfold s. simpl. lia. }
  destruct (end_monthly s Hvs) as [Hve He]. cbn [year month s] in Hve, He.
  set (e := mkdate (year (dt_date T)) (month (dt_date T))
                   (_days_in_month (year (dt_date T)) (month (dt_date T)))) in *.
  split; [apply start_monthly; assumption |].
  split; [assumption |]. split; [reflexivity |]. split.
  - intros Hn. split; [| split; [| split; [| split]]].
    + rewrite He. apply (next_day_valid_iff _ Hve) in Hn.
      apply Z.leb_le in Hn. rewrite Hn. reflexivity.
    + apply add_microsecond_next_day; assumption.
    + rewrite start_monthly by (cbn [dt_date combine_midnight]; assumption).
      cbn [dt_date combine_midnight]. f_equal. f_equal.
      unfold next_day, e. cbn [year month day].
      rewrite Z.ltb_irrefl.
      destruct (month (dt_date T) <? 12); reflexivity.
    + rewrite start_monthly by (cbn [dt_date last_instant]; assumption).
      reflexivity.
    + discriminate.
  - intros Hn. rewrite He, (not_valid_overflow _ Hve Hn). reflexivity.
Qed.

Lemma bucket_yearly (T : datetime) :
  valid_date (dt_date T) = true ->
  bucket_facts YEARLY T (mkdate (year (dt_date T)) 1 1).
Proof.
  intros Hv. unfold bucket_facts. cbn [bucket_last_day first_day_spec year month].
  set (s := mkdate (year (dt_date T)) 1 1).
  assert (Hvs : valid_date s = true).
  { apply valid_date_iff in Hv. destruct Hv as (Hy & Hm & Hd).
    apply valid_date_iff. unfold s, dim_of. simpl. lia. }
  destruct (end_yearly s Hvs) as [Hve He]. cbn [year month s] in Hve, He.
  set (e := mkdate (year (dt_date T)) 12 31) in *.
  split; [apply start_yearly; assumption |].
  split; [assumption |]. split; [reflexivity |]. split.
  - intros Hn. split; [| split; [| split; [| split]]].
    + rewrite He. apply (next_day_valid_iff _ Hve) in Hn.
      apply Z.leb_le in Hn. rewrite Hn. reflexivity.
    + apply add_microsecond_next_day; assumption.
    + rewrite start_yearly by (cbn [dt_date combine_midnight]; assumption).
      reflexivity.
    + rewrite start_yearly by (cbn [dt_date last_instant]; assumption).
      reflexivity.
    + discriminate.
  - intros Hn. rewrite He, (not_valid_overflow _ Hve Hn). reflexivity.
Qed.

Lemma add_days_S (k : nat) (d : date) :
  add_days (S k) d = next_day (add_days k d).
Proof. reflexivity. Qed.

Lemma bucket_weekly (T : datetime) :
  valid_date (dt_date T) = true ->
  bucket_facts WEEKLY T
    (fromordinal (toordinal (dt_date T) - weekday (dt_date T))).
Proof.
  intros Hv. unfold bucket_facts. cbn [bucket_last_day first_day_spec].
  destruct (start_weekly T Hv) as (Hstart & Hrange & Hmod).
  pose proof (weekday_range (dt_date T)) as Hw.
  pose proof (toordinal_bounds _ Hv) as Hb.
  remember (dt_date T) as d eqn:Hd.
  destruct (toordinal_fromordinal _ Hrange) as [Hvs Hos].
  remember (fromordinal (toordinal d - weekday d)) as s eqn:Hs. clear Hs.
  assert (Hws : weekday s = 0) by (unfold weekday; rewrite Hos; exact Hmod).
  split; [exact Hstart |]. split; [exact Hvs |]. split.
  { split; [exact Hws |]. split; [exact Hw |].
    rewrite add_days_fromordinal by (rewrite ?Z2Nat.id; lia || assumption).
    rewrite Z2Nat.id, Hos by lia.
    replace (toordinal d - weekday d + weekday d) with (toordinal d) by lia.
    apply fromordinal_toordinal. assumption. }
  split.
  - intros Hn. rewrite <- (add_days_S 6 s) in Hn.
    apply (add_days_valid_iff 7 s Hvs) in Hn.
    destruct (add_days_spec 6 s Hvs ltac:(lia)) as [Hve Hoe].
    destruct (add_days_spec 7 s Hvs ltac:(lia)) as [Hvn Hon].
    change (Z.of_nat 6) with 6 in *. change (Z.of_nat 7) with 7 in *.
    assert (He6 : add_days 6 s = fromordinal (toordinal s + 6)).
    { rewrite add_days_fromordinal by (assumption || lia).
      change (Z.of_nat 6) with 6. reflexivity. }
    rewrite (add_days_S 6 s) in Hvn, Hon.
    remember (add_days 6 s) as e eqn:He. clear He.
    assert (Hwe : weekday e = 6).
    { unfold weekday. rewrite Hoe, Hos.
      replace (toordinal d - weekday d + 6 + 6)
        with ((toordinal d - weekday d + 6) + 6) by lia.
      rewrite <- Zplus_mod_idemp_l, Hmod. reflexivity. }
    assert (Hwn : weekday (next_day e) = 0).
    { unfold weekday. rewrite Hon, Hos.
      replace (toordinal d - weekday d + 7 + 6)
        with ((toordinal d - weekday d + 6) + 1 * 7) by lia.
      rewrite Z.mod_add by lia. exact Hmod. }
    split; [| split; [| split; [| split]]].
    + rewrite end_weekly by assumption.
      destruct (Z.leb_spec (toordinal s + 7) _MAXORDINAL); [| lia].
      rewrite He6. reflexivity.
    + apply add_microsecond_next_day; assumption.
    + destruct (start_weekly (combine_midnight (next_day e)) Hvn) as (E & _ & _).
      rewrite E. cbn [dt_date combine_midnight].
      rewrite Hwn, Z.sub_0_r, fromordinal_toordinal by assumption. reflexivity.
    + destruct (start_weekly (last_instant e) Hve) as (E & _ & _).
      rewrite E. cbn [dt_date last_instant].
      rewrite Hwe, Hoe.
      replace (toordinal s + 6 - 6) with (toordinal s) by lia.
      rewrite fromordinal_toordinal by assumption. reflexivity.
    + intros _. exact Hwe.
  - intros Hn. rewrite <- (add_days_S 6 s) in Hn.
    rewrite end_weekly by assumption.
    destruct (Z.leb_spec (toordinal s + 7) _MAXORDINAL) as [Hle | ?];
      [| reflexivity].
    apply (add_days_valid_iff 7 s Hvs) in Hle. congruence.
Qed.

(** CLAIM C8. For every frequency and every valid instant the start of the
    bucket is midnight of a valid day [s]: the instant's own day (DAILY),
    the Monday of its week (WEEKLY), the first of its month (MONTHLY),
    the first of January of its year (YEARLY). When the day after the
    bucket's last day [e] exists in the calendar, the end of the bucket is
    the last microsecond of [e], one microsecond before midnight of the next
    day, which starts the next bucket; the last instant still belongs to
    the bucket, and a week ends on a Sunday. When that day does not exist,
    the end raises [OverflowError]. *)
Theorem bucket_facts_hold (F : Frequency) (T : datetime) :
  valid_datetime T = true -> exists s : date, bucket_facts F T s.
Proof.
  intros Hv. apply andb_prop in Hv. destruct Hv as [Hv _].
  destruct F; eexists.
  - apply bucket_daily; assumption.
  - apply bucket_weekly; assumption.
  - apply bucket_monthly; assumption.
  - apply bucket_yearly; assumption.
Qed.

Lemma bucket_witness :
  valid_datetime (mkdatetime (mkdate 2022 3 16) 10 30 0 0) = true
  /\ exists s : date,
       bucket_facts WEEKLY (mkdatetime (mkdate 2022 3 16) 10 30 0 0) s.
Proof. split; [reflexivity | apply bucket_facts_hold; reflexivity]. Defined.

Lemma last_day_has_no_end :
  valid_datetime (mkdatetime (mkdate 9999 12 31) 12 0 0 0) = true
  /\ _get_start_date_of_cycle DAILY (mkdatetime (mkdate 9999 12 31) 12 0 0 0)
     = ok (combine_midnight (mkdate 9999 12 31))
  /\ _get_end_date_of_cycle DAILY (combine_midnight (mkdate 9999 12 31))
     = raise OverflowError.
Proof. repeat split; vm_compute; reflexivity. Qed.

Example weekly_cycle_of_a_wednesday :
  weekday (mkdate 2022 3 16) = 2
  /\ _get_start_date_of_cycle WEEKLY (mkdatetime (mkdate 2022 3 16) 10 30 0 0)
     = ok (mkdatetime (mkdate 2022 3 14) 0 0 0 0)
  /\ _get_end_date_of_cycle WEEKLY (mkdatetime (mkdate 2022 3 14) 0 0 0 0)
     = ok (mkdatetime (mkdate 2022 3 20) 23 59 59 999999)
  /\ weekday (mkdate 2022 3 14) = 0 /\ weekday (mkdate 2022 3 20) = 6.
Proof. repeat split; vm_compute; reflexivity. Qed.

End Calendar.

(* ===================================================================== *)
(** ** Reading and writing the scenarios of a world *)
(* ===================================================================== *)

Section Scenarios.
Import _ScenarioManager.
Local Close Scope Z_scope.

Lemma elem_of_all (w : World) (s : Scenario.t) :
  In s (all_scenarios w) <-> exists k, persisted w k s.
Proof.
  unfold persisted, all_scenarios. rewrite <- list_elem_of_In, list_elem_of_fmap.
  split.
  - intros ([k s'] & -> & Hin). exists k. by apply elem_of_map_to_list in Hin.
  - intros (k & Hk). exists (k, s). split; [done |]. by apply elem_of_map_to_list.
Qed.

Lemma find_filter_Some {A} (p q : A -> bool) (l : list A) (x : A) :
  List.find p (List.filter q l) = Some x -> In x l /\ q x = true /\ p x = true.
Proof.
  intros H. apply find_some in H. destruct H as [Hin Hp].
  apply filter_In in Hin. tauto.
Qed.

Lemma find_filter_None {A} (p q : A -> bool) (l : list A) :
  List.find p (List.filter q l) = None ->
  forall x, In x l -> q x = true -> p x = false.
Proof.
  intros H x Hin Hq. apply (find_none _ _ H). apply filter_In. tauto.
Qed.

Lemma find_filter_unique {A} (p q : A -> bool) (l : list A) (x : A) :
  In x l -> q x = true -> p x = true ->
  (forall y, In y l -> q y = true -> p y = true -> y = x) ->
  List.find p (List.filter q l) = Some x.
Proof.
  intros Hin Hq Hp Hu.
  destruct (List.find p (List.filter q l)) as [y |] eqn:E.
  - apply find_filter_Some in E. destruct E as (Hy & Hqy & Hpy).
    f_equal. by apply Hu.
  - pose proof (find_filter_None p q l E x Hin Hq). congruence.
Qed.

Lemma first_master_Some (w : World) (c : Cycle.t) (a : Scenario.t) :
  first_master w c = Some a ->
  exists k, persisted w k a /\ in_cycle c a = true /\ Scenario.is_master a = true.
Proof.
  intros H. apply find_filter_Some in H. destruct H as (Hin & Hc & Hm).
  apply elem_of_all in Hin. destruct Hin as [k Hk]. eauto.
Qed.

Lemma first_master_None (w : World) (c : Cycle.t) :
  first_master w c = None ->
  forall k s, persisted w k s -> in_cycle c s = true -> Scenario.is_master s = false.
Proof.
  intros H k s Hk Hc. apply (find_filter_None _ _ _ H); [| done].
  apply elem_of_all. eauto.
Qed.

Lemma first_holder_Some (w : World) (c : Cycle.t) (tag : string) (a : Scenario.t) :
  first_holder w c tag = Some a ->
  exists k, persisted w k a /\ in_cycle c a = true /\ Scenario.has_tag a tag = true.
Proof.
  intros H. apply find_filter_Some in H. destruct H as (Hin & Hc & Hm).
  apply elem_of_all in Hin. destruct Hin as [k Hk]. eauto.
Qed.

Lemma first_holder_None (w : World) (c : Cycle.t) (tag : string) :
  first_holder w c tag = None ->
  forall k s, persisted w k s -> in_cycle c s = true -> Scenario.has_tag s tag = false.
Proof.
  intros H k s Hk Hc.
  apply (find_filter_None (fun s => Scenario.has_tag s tag) _ _ H); [| done].
  apply elem_of_all. eauto.
Qed.

(** closed forms of the operations *)
Lemma set_master_run (s : Scenario.t) (c : Cycle.t) (w : World) :
  Scenario.cycle s = Some c ->
  _set_master s w
  = (ok (Scenario.set_master_scenario s true),
     with_scenarios w
       (put (Scenario.set_master_scenario s true)
            match first_master w c with
            | Some a => put (Scenario.set_master_scenario a false) (scenarios w)
            | None => scenarios w
            end)).
Proof.
  intros Hc. unfold _set_master. rewrite Hc. unfold first_master, scenarios_of, all_scenarios.
  cbn. destruct (find _ _); reflexivity.
Qed.

Lemma set_master_no_cycle (s : Scenario.t) (w : World) :
  Scenario.cycle s = None -> _set_master s w = (raise DoesNotBelongToACycle, w).
Proof. intros Hc. unfold _set_master. rewrite Hc. reflexivity. Qed.

Lemma tag_run (s : Scenario.t) (tag : string) (w : World) :
  unauthorized s tag = false ->
  _tag s tag w
  = (ok (Scenario._add_tag s tag),
     with_scenarios w
       (put (Scenario._add_tag s tag)
            match Scenario.cycle s with
            | Some c =>
                match first_holder w c tag with
                | Some o => put (Scenario.remove_tag o tag) (scenarios w)
                | None => scenarios w
                end
            | None => scenarios w
            end)).
Proof.
  intros Hg. unfold _tag. fold (unauthorized s tag). rewrite Hg.
  unfold first_holder, scenarios_of, all_scenarios.
  destruct (Scenario.cycle s) as [c |]; [| reflexivity].
  unfold bind, _get_by_tag, _get_all_by_cycle, bind, ret, _get_all,
    _ScenarioRepository._load_all, _set, _ScenarioRepository._save, put,
    with_scenarios.
  cbn. destruct (find _ _); reflexivity.
Qed.

Lemma tag_unauthorized (s : Scenario.t) (tag : string) (w : World) :
  unauthorized s tag = true -> _tag s tag w = (raise UnauthorizedTagError, w).
Proof. intros Hg. unfold _tag. fold (unauthorized s tag). rewrite Hg. reflexivity. Qed.

Lemma untag_run (s : Scenario.t) (tag : string) (w : World) :
  _untag s tag w
  = (ok (Scenario._remove_tag s tag),
     with_scenarios w (put (Scenario._remove_tag s tag) (scenarios w))).
Proof. reflexivity. Qed.

Lemma delete_run (k : Id) (w : World) :
  _delete k w
  = match scenarios w !! k with
    | None => (raise AttributeError, w)
    | Some s =>
        if Scenario.is_master s then (raise DeletingMasterScenario, w)
        else (ok tt, with_scenarios w (delete k (scenarios w)))
    end.
Proof.
  unfold _delete. cbn. destruct (scenarios w !! k) as [s |]; [| reflexivity].
  destruct (Scenario.is_master s); reflexivity.
Qed.

(** Counting the entries of a map that satisfy a test. *)
Section Counting.
Context {K : Type} `{Countable K} {A : Type}.
Implicit Types (m : gmap K A) (p q : A -> bool).

Lemma filter_fmap_snd p (l : list (K * A)) :
  List.filter p (l.*2) = (List.filter (fun x => p x.2) l).*2.
Proof.
  induction l as [| [k a] l IH]; [reflexivity |].
  cbn. destruct (p a); cbn; by rewrite IH.
Qed.

Lemma filter_filter p q (l : list A) :
  List.filter p (List.filter q l) = List.filter (fun x => q x && p x) l.
Proof.
  induction l as [| a l IH]; [reflexivity |].
  cbn. destruct (q a); cbn; [destruct (p a) |]; by rewrite IH.
Qed.

Lemma In_filter_values m p (a : A) :
  In a (List.filter p (map_to_list m).*2) <-> exists k, m !! k = Some a /\ p a = true.
Proof.
  rewrite filter_In, <- list_elem_of_In, list_elem_of_fmap. split.
  - intros [([k a'] & -> & Hin) Hp]. exists k.
    apply elem_of_map_to_list in Hin. done.
  - intros (k & Hk & Hp). split; [| done].
    exists (k, a). split; [done |]. by apply elem_of_map_to_list.
Qed.

Lemma NoDup_two (l : list (K * A)) (x y : K * A) :
  List.NoDup l -> x <> y -> In x l -> In y l -> (2 <= length l)%nat.
Proof.
  intros Hnd Hxy Hx Hy.
  destruct l as [| a [| b l]]; cbn in *; [tauto | | lia].
  destruct Hx as [<- | []], Hy as [<- | []]. congruence.
Qed.

Lemma filtered_pairs_NoDup m p :
  List.NoDup (List.filter (fun x : K * A => p x.2) (map_to_list m)).
Proof.
  apply List.NoDup_filter. apply NoDup_ListNoDup, NoDup_map_to_list.
Qed.

Lemma length_le_1_keys m p :
  (length (List.filter p (map_to_list m).*2) <= 1)%nat <->
  forall k1 a1 k2 a2,
    m !! k1 = Some a1 -> p a1 = true -> m !! k2 = Some a2 -> p a2 = true ->
    k1 = k2.
Proof.
  rewrite filter_fmap_snd, length_fmap. split.
  - intros Hlen k1 a1 k2 a2 H1 Hp1 H2 Hp2.
    destruct (decide (k1 = k2)) as [| Hne]; [done | exfalso].
    assert (2 <= length (List.filter (fun x : K * A => p x.2) (map_to_list m)))%nat;
      [| lia].
    apply (NoDup_two _ (k1, a1) (k2, a2)).
    + apply filtered_pairs_NoDup.
    + congruence.
    + apply filter_In. split; [| done].
      apply list_elem_of_In. by apply elem_of_map_to_list.
    + apply filter_In. split; [| done].
      apply list_elem_of_In. by apply elem_of_map_to_list.
  - intros Hu.
    pose proof (filtered_pairs_NoDup m p) as Hnd.
    destruct (List.filter (fun x : K * A => p x.2) (map_to_list m))
      as [| [k1 a1] [| [k2 a2] l]] eqn:E; cbn; [lia | lia | exfalso].
    assert (H1 : In (k1, a1) (List.filter (fun x : K * A => p x.2) (map_to_list m)))
      by (rewrite E; cbn; tauto).
    assert (H2 : In (k2, a2) (List.filter (fun x : K * A => p x.2) (map_to_list m)))
      by (rewrite E; cbn; tauto).
    apply filter_In in H1, H2. destruct H1 as [H1 Hp1], H2 as [H2 Hp2].
    apply list_elem_of_In, elem_of_map_to_list in H1, H2. cbn in *.
    assert (k1 = k2) by eauto. subst k2.
    assert (a1 = a2) by congruence. subst a2.
    inversion Hnd as [| ? ? Hnotin _]. apply Hnotin. cbn. tauto.
Qed.

Lemma nonempty_keys m p :
  List.filter p (map_to_list m).*2 <> [] <->
  exists k a, m !! k = Some a /\ p a = true.
Proof.
  split.
  - intros Hne.
    destruct (List.filter p (map_to_list m).*2) as [| a l] eqn:E; [done |].
    assert (Hin : In a (List.filter p (map_to_list m).*2)) by (rewrite E; cbn; tauto).
    apply In_filter_values in Hin. destruct Hin as (k & ? & ?). eauto.
  - intros (k & a & Hk & Hp) E.
    assert (Hin : In a (List.filter p (map_to_list m).*2))
      by (apply In_filter_values; eauto).
    rewrite E in Hin. destruct Hin.
Qed.

Lemma length_ge_1_nonempty (l : list A) : (1 <= length l)%nat <-> l <> [].
Proof. destruct l; cbn; split; (lia || congruence || done). Qed.

End Counting.

Lemma masters_of_eq (w : World) (c : Cycle.t) :
  masters_of w c = List.filter (master_in c) (map_to_list (scenarios w)).*2.
Proof. apply filter_filter. Qed.

Lemma holders_of_eq (w : World) (c : Cycle.t) (tag : string) :
  holders_of w c tag = List.filter (holder_in c tag) (map_to_list (scenarios w)).*2.
Proof. apply (filter_filter (fun s => Scenario.has_tag s tag)). Qed.

Lemma master_in_true (c : Cycle.t) (s : Scenario.t) :
  master_in c s = true <-> in_cycle c s = true /\ Scenario.is_master s = true.
Proof. apply andb_true_iff. Qed.

Lemma holder_in_true (c : Cycle.t) (tag : string) (s : Scenario.t) :
  holder_in c tag s = true <-> in_cycle c s = true /\ Scenario.has_tag s tag = true.
Proof. apply andb_true_iff. Qed.

Lemma scenarios_of_In (w : World) (c : Cycle.t) (s : Scenario.t) :
  In s (scenarios_of w c) <-> exists k, persisted w k s /\ in_cycle c s = true.
Proof. apply In_filter_values. Qed.

Lemma populated_iff (w : World) (c : Cycle.t) :
  scenarios_of w c <> [] <-> exists k s, persisted w k s /\ in_cycle c s = true.
Proof. apply nonempty_keys. Qed.

Lemma masters_le_1 (w : World) (c : Cycle.t) :
  (length (masters_of w c) <= 1)%nat <->
  forall k1 s1 k2 s2,
    persisted w k1 s1 -> in_cycle c s1 = true -> Scenario.is_master s1 = true ->
    persisted w k2 s2 -> in_cycle c s2 = true -> Scenario.is_master s2 = true ->
    k1 = k2.
Proof.
  rewrite masters_of_eq, length_le_1_keys. unfold persisted. split.
  - intros H k1 s1 k2 s2 H1 Hc1 Hm1 H2 Hc2 Hm2.
    apply (H k1 s1 k2 s2); rewrite ?master_in_true; done.
  - intros H k1 s1 k2 s2 H1 Hp1 H2 Hp2.
    apply master_in_true in Hp1, Hp2. destruct Hp1, Hp2.
    by apply (H k1 s1 k2 s2).
Qed.

Lemma masters_ge_1 (w : World) (c : Cycle.t) :
  (1 <= length (masters_of w c))%nat <->
  exists k s, persisted w k s /\ in_cycle c s = true /\ Scenario.is_master s = true.
Proof.
  rewrite length_ge_1_nonempty, masters_of_eq, nonempty_keys. unfold persisted.
  split; intros (k & s & Hk & Hp); exists k, s;
    (split; [done |]); by apply master_in_true.
Qed.

Lemma holders_le_1 (w : World) (c : Cycle.t) (tag : string) :
  (length (holders_of w c tag) <= 1)%nat <->
  forall k1 s1 k2 s2,
    persisted w k1 s1 -> in_cycle c s1 = true -> Scenario.has_tag s1 tag = true ->
    persisted w k2 s2 -> in_cycle c s2 = true -> Scenario.has_tag s2 tag = true ->
    k1 = k2.
Proof.
  rewrite holders_of_eq, length_le_1_keys. unfold persisted. split.
  - intros H k1 s1 k2 s2 H1 Hc1 Hm1 H2 Hc2 Hm2.
    apply (H k1 s1 k2 s2); rewrite ?holder_in_true; done.
  - intros H k1 s1 k2 s2 H1 Hp1 H2 Hp2.
    apply holder_in_true in Hp1, Hp2. destruct Hp1, Hp2.
    by apply (H k1 s1 k2 s2).
Qed.

Lemma get_master_run (c : Cycle.t) (w : World) :
  _get_master c w = (ok (first_master w c), w).
Proof. reflexivity. Qed.

Lemma get_by_tag_run (c : Cycle.t) (tag : string) (w : World) :
  _get_by_tag c tag w = (ok (first_holder w c tag), w).
Proof. reflexivity. Qed.

Lemma get_all_by_cycle_run (c : Cycle.t) (w : World) :
  _get_all_by_cycle c w = (ok (scenarios_of w c), w).
Proof. reflexivity. Qed.

Lemma first_master_unique (w : World) (c : Cycle.t) (a : Scenario.t) :
  (exists k, persisted w k a) -> in_cycle c a = true -> Scenario.is_master a = true ->
  (forall k s, persisted w k s -> in_cycle c s = true ->
               Scenario.is_master s = true -> s = a) ->
  first_master w c = Some a.
Proof.
  intros Hk Hc Hm Hu. apply find_filter_unique; try done.
  - by apply elem_of_all.
  - intros y Hy Hcy Hmy. apply elem_of_all in Hy. destruct Hy as [k Hy]. eauto.
Qed.

Lemma first_holder_unique (w : World) (c : Cycle.t) (tag : string) (a : Scenario.t) :
  (exists k, persisted w k a) -> in_cycle c a = true ->
  Scenario.has_tag a tag = true ->
  (forall k s, persisted w k s -> in_cycle c s = true ->
               Scenario.has_tag s tag = true -> s = a) ->
  first_holder w c tag = Some a.
Proof.
  intros Hk Hc Hm Hu.
  apply (find_filter_unique (fun s => Scenario.has_tag s tag)); try done.
  - by apply elem_of_all.
  - intros y Hy Hcy Hmy. apply elem_of_all in Hy. destruct Hy as [k Hy]. eauto.
Qed.

Lemma in_cycle_own (s : Scenario.t) (c : Cycle.t) :
  Scenario.cycle s = Some c -> in_cycle c s = true.
Proof.
  intros H. unfold in_cycle, Cycle.eqb. rewrite H. by apply bool_decide_eq_true.
Qed.

Lemma persisted_put (w : World) (m : gmap Id Scenario.t) (s : Scenario.t)
    (k : Id) (x : Scenario.t) :
  persisted (with_scenarios w (put s m)) k x <->
  (k = Scenario.id s /\ x = s) \/ (k <> Scenario.id s /\ m !! k = Some x).
Proof.
  unfold persisted, with_scenarios, put. cbn.
  rewrite lookup_insert_Some.
  split; intros [[? ?] | [? ?]]; [left | right | left | right]; split; congruence.
Qed.

(** ** SetMaster *)

Lemma set_master_transfers (w : World) (A B : Scenario.t) (c : Cycle.t) :
  Scenario.cycle B = Some c ->
  persisted w (Scenario.id A) A ->
  in_cycle c A = true -> Scenario.is_master A = true ->
  (length (masters_of w c) <= 1)%nat ->
  Scenario.id A <> Scenario.id B ->
  let A' := Scenario.set_master_scenario A false in
  let B' := Scenario.set_master_scenario B true in
  let w' := with_scenarios w (put B' (put A' (scenarios w))) in
  _get_master c w = (ok (Some A), w)
  /\ _set_master B w = (ok B', w')
  /\ persisted w' (Scenario.id A) A' /\ Scenario.is_master A' = false
  /\ persisted w' (Scenario.id B) B' /\ Scenario.is_master B' = true
  /\ _get_master c w' = (ok (Some B'), w').
Proof.
  intros Hc HA HAc HAm Hone Hne A' B' w'.
  pose proof (proj1 (masters_le_1 w c) Hone) as Hu.
  assert (Hfirst : first_master w c = Some A).
  { apply first_master_unique; eauto.
    intros k s Hk Hkc Hkm.
    assert (k = Scenario.id A) by (apply (Hu k s _ A); done). subst k.
    unfold persisted in *. congruence. }
  split; [by rewrite get_master_run, Hfirst |].
  split; [by rewrite (set_master_run B c w Hc), Hfirst |].
  assert (HA' : persisted w' (Scenario.id A) A').
  { apply persisted_put. right. split; [done |].
    unfold put. cbn. apply lookup_insert_eq. }
  assert (HB' : persisted w' (Scenario.id B) B').
  { apply persisted_put. left. done. }
  repeat split; try done.
  rewrite get_master_run. f_equal. f_equal.
  apply first_master_unique; eauto.
  - apply in_cycle_own. exact Hc.
  - intros k s Hk Hkc Hkm. apply persisted_put in Hk.
    destruct Hk as [[_ ->] | [Hk1 Hk]]; [done |].
    unfold put in Hk. cbn in Hk. apply lookup_insert_Some in Hk.
    destruct Hk as [[_ <-] | [Hk2 Hk]]; [done |].
    exfalso. apply Hk2. symmetry. apply (Hu k s _ A); done.
Qed.

(** ** Tag *)

Lemma has_tag_add (s : Scenario.t) (tag : string) :
  Scenario.has_tag (Scenario._add_tag s tag) tag = true.
Proof. unfold Scenario.has_tag. cbn. apply bool_decide_eq_true. set_solver. Qed.

Lemma has_tag_remove (s : Scenario.t) (tag : string) :
  Scenario.has_tag (Scenario.remove_tag s tag) tag = false.
Proof.
  unfold Scenario.remove_tag, Scenario._remove_tag.
  destruct (Scenario.has_tag s tag) eqn:E; [| exact E].
  unfold Scenario.has_tag. cbn. apply bool_decide_eq_false.
  rewrite elem_of_difference, elem_of_singleton. tauto.
Qed.

Lemma id_remove_tag (s : Scenario.t) (tag : string) :
  Scenario.id (Scenario.remove_tag s tag) = Scenario.id s.
Proof.
  unfold Scenario.remove_tag, Scenario._remove_tag.
  by destruct (Scenario.has_tag s tag).
Qed.

Lemma shape_remove_tag (s : Scenario.t) (tag : string) :
  shape (Scenario._remove_tag s tag) = shape s.
Proof. unfold Scenario._remove_tag. by destruct (Scenario.has_tag s tag). Qed.

(** CLAIM C3. Tagging a scenario [B] of a cycle with an authorized tag
    that another scenario [A] of the same cycle holds, [A] being the only
    holder: before the call [_get_by_tag] answers [A]; the call returns,
    persists [A] without the tag and then [B] with it, and afterwards
    [_get_by_tag] answers [B]. *)
Theorem tag_transfers (w : World) (A B : Scenario.t) (c : Cycle.t) (tag : string) :
  unauthorized B tag = false ->
  Scenario.cycle B = Some c ->
  persisted w (Scenario.id A) A ->
  in_cycle c A = true -> Scenario.has_tag A tag = true ->
  (length (holders_of w c tag) <= 1)%nat ->
  Scenario.id A <> Scenario.id B ->
  let A' := Scenario.remove_tag A tag in
  let B' := Scenario._add_tag B tag in
  let w' := with_scenarios w (put B' (put A' (scenarios w))) in
  _get_by_tag c tag w = (ok (Some A), w)
  /\ _tag B tag w = (ok B', w')
  /\ persisted w' (Scenario.id A) A' /\ Scenario.has_tag A' tag = false
  /\ persisted w' (Scenario.id B) B' /\ Scenario.has_tag B' tag = true
  /\ _get_by_tag c tag w' = (ok (Some B'), w').
Proof.
  intros Hg Hc HA HAc HAt Hone Hne A' B' w'.
  pose proof (proj1 (holders_le_1 w c tag) Hone) as Hu.
  assert (Hfirst : first_holder w c tag = Some A).
  { apply first_holder_unique; eauto.
    intros k s Hk Hkc Hkm.
    assert (k = Scenario.id A) by (apply (Hu k s _ A); done). subst k.
    unfold persisted in *. congruence. }
  split; [by rewrite get_by_tag_run, Hfirst |].
  split; [by rewrite (tag_run B tag w Hg), Hc, Hfirst |].
  assert (HA' : persisted w' (Scenario.id A) A').
  { apply persisted_put. right. split; [done |].
    unfold put, A'. rewrite id_remove_tag. apply lookup_insert_eq. }
  assert (HB' : persisted w' (Scenario.id B) B').
  { apply persisted_put. left. done. }
  split; [done |]. split; [apply has_tag_remove |].
  split; [done |]. split; [apply has_tag_add |].
  rewrite get_by_tag_run. f_equal. f_equal.
  apply first_holder_unique; eauto.
  - apply in_cycle_own. exact Hc.
  - apply has_tag_add.
  - intros k s Hk Hkc Hkm. apply persisted_put in Hk.
    destruct Hk as [[_ ->] | [Hk1 Hk]]; [done |].
    unfold put, A' in Hk. rewrite id_remove_tag in Hk.
    apply lookup_insert_Some in Hk.
    destruct Hk as [[_ <-] | [Hk2 Hk]].
    + rewrite has_tag_remove in Hkm. done.
    + exfalso. apply Hk2. symmetry. apply (Hu k s _ A); done.
Qed.

(** ** Guards *)

Lemma unauthorized_tags (s : Scenario.t) (tag : string) (ts : gset string) :
  Scenario.properties s !! _AUTHORIZED_TAGS_KEY = Some (PTags ts) ->
  unauthorized s tag = true <-> ts <> ∅ /\ tag ∉ ts.
Proof.
  intros Hp. unfold unauthorized. rewrite Hp.
  change ((0 <? size ts)%nat && negb (bool_decide (tag ∈ ts)) = true
          <-> ts <> ∅ /\ tag ∉ ts).
  rewrite andb_true_iff, negb_true_iff, bool_decide_eq_false, Nat.ltb_lt.
  assert (Hs : (0 < size ts)%nat <-> ts <> ∅).
  { split.
    - intros Hlt ->. rewrite size_empty in Hlt. lia.
    - intros Hne. destruct (decide (size ts = 0%nat)) as [E | E]; [| lia].
      apply size_empty_iff in E. apply leibniz_equiv in E. done. }
  tauto.
Qed.

Lemma hard_delete_master (k : Id) (s : Scenario.t) (w : World) :
  persisted w k s -> Scenario.is_master s = true ->
  _hard_delete k w = (raise DeletingMasterScenario, w).
Proof.
  unfold persisted. intros Hk Hm. unfold _hard_delete. cbn. rewrite Hk, Hm.
  reflexivity.
Qed.

Lemma delete_master (k : Id) (s : Scenario.t) (w : World) :
  persisted w k s -> Scenario.is_master s = true ->
  _delete k w = (raise DeletingMasterScenario, w).
Proof.
  unfold persisted. intros Hk Hm. rewrite delete_run, Hk, Hm. reflexivity.
Qed.

(** ** HardDelete *)

Lemma for_each_issue (s : Scenario.t) (l : list Pipeline.t) (w : World) :
  for_each l (fun pipeline =>
    if bool_decide (Pipeline.parent_id pipeline = Some (Scenario.id s))
       || bool_decide (Pipeline.parent_id pipeline = Some (Pipeline.id pipeline))
    then _PipelineManager._hard_delete (Pipeline.id pipeline) (Scenario.id s)
    else ret tt) w
  = (ok tt,
     with_requests w
       (pm_requests w
        ++ map (fun p => PMHardDelete (Pipeline.id p) (Scenario.id s))
               (List.filter (cascaded s) l))).
Proof.
  revert w. induction l as [| p l IH]; intros w.
  - cbn. rewrite app_nil_r. by destruct w.
  - cbn [for_each List.filter]. unfold bind. fold (cascaded s p).
    destruct (cascaded s p).
    + cbn. rewrite IH. cbn. by rewrite <- app_assoc.
    + cbn. rewrite IH. reflexivity.
Qed.

Lemma hard_delete_run (k : Id) (s : Scenario.t) (w : World) :
  persisted w k s -> Scenario.is_master s = false ->
  _hard_delete k w
  = (ok tt,
     mkWorld (delete k (scenarios w)) (cycles w)
             (pm_requests w ++ hard_delete_requests s) (next_id w)).
Proof.
  unfold persisted. intros Hk Hm. unfold _hard_delete.
  unfold bind at 1. cbn [_get _ScenarioRepository.load ok].
  rewrite Hk. cbv beta iota. rewrite Hm.
  unfold bind. rewrite for_each_issue. reflexivity.
Qed.

Lemma hard_delete_missing (k : Id) (w : World) :
  scenarios w !! k = None -> _hard_delete k w = (raise AttributeError, w).
Proof. intros Hk. unfold _hard_delete. cbn. rewrite Hk. reflexivity. Qed.

Lemma In_hard_delete_requests (s : Scenario.t) (r : PMRequest) :
  In r (hard_delete_requests s) <->
  exists cfg p,
    Scenario.pipelines s !! cfg = Some p
    /\ (Pipeline.parent_id p = Some (Scenario.id s)
        \/ Pipeline.parent_id p = Some (Pipeline.id p))
    /\ r = PMHardDelete (Pipeline.id p) (Scenario.id s).
Proof.
  unfold hard_delete_requests. rewrite in_map_iff. split.
  - intros (p & <- & Hin). apply In_filter_values in Hin.
    destruct Hin as (cfg & Hcfg & Hc). exists cfg, p. split; [done |].
    split; [| done]. unfold cascaded in Hc. apply orb_prop in Hc.
    destruct Hc as [Hc | Hc]; apply bool_decide_eq_true in Hc; tauto.
  - intros (cfg & p & Hcfg & Hc & ->). exists p. split; [done |].
    apply In_filter_values. exists cfg. split; [done |].
    unfold cascaded. apply orb_true_iff.
    destruct Hc as [Hc | Hc]; [left | right]; by apply bool_decide_eq_true.
Qed.

End Scenarios.

(* ===================================================================== *)
(** ** The cycle of an instant *)
(* ===================================================================== *)

Section Cycles.
Import _CycleManager.
Local Close Scope Z_scope.

Lemma cycle_create_run (now : Py.datetime) (F : Frequency) (name : option string)
    (cd : option Py.datetime) (dn : option string)
    (props : gmap string prop_value) (w : World) (s e : Py.datetime) :
  _get_start_date_of_cycle F (default now cd) = ok s ->
  _get_end_date_of_cycle F s = ok e ->
  _create now F name cd dn props w
  = (ok (new_cycle w F name (default now cd) dn props s e),
     mkWorld (scenarios w)
             (<[next_id w := new_cycle w F name (default now cd) dn props s e]>
                (cycles w))
             (pm_requests w) (S (next_id w))).
Proof.
  intros Hs He. unfold _create, bind, lift. rewrite Hs. cbv beta iota delta [ok].
  rewrite He. reflexivity.
Qed.

Lemma cycle_create_fails (now : Py.datetime) (F : Frequency) (name : option string)
    (cd : option Py.datetime) (dn : option string)
    (props : gmap string prop_value) (w : World) (s : Py.datetime) (x : exn) :
  _get_start_date_of_cycle F (default now cd) = ok s ->
  _get_end_date_of_cycle F s = raise x ->
  _create now F name cd dn props w = (raise x, w).
Proof.
  intros Hs He. unfold _create, bind, lift. rewrite Hs. cbv beta iota delta [ok].
  rewrite He. reflexivity.
Qed.

Lemma get_or_create_run (now : Py.datetime) (F : Frequency)
    (cd : option Py.datetime) (dn : option string) (w : World) (s : Py.datetime) :
  _get_start_date_of_cycle F (default now cd) = ok s ->
  _get_or_create now F cd dn w
  = match matching_cycles w F s with
    | c :: _ => (ok c, w)
    | [] => _create now F None (Some (default now cd)) dn ∅ w
    end.
Proof.
  intros Hs. unfold _get_or_create, bind at 1, lift. rewrite Hs. cbv beta iota delta [ok].
  unfold bind, _CycleRepository.get_cycles_by_frequency_and_start_date, bind,
    _CycleRepository._load_all, ret. cbv beta iota delta [ok].
  fold (matching_cycles w F s). destruct (matching_cycles w F s); reflexivity.
Qed.

Lemma get_or_create_start_fails (now : Py.datetime) (F : Frequency)
    (cd : option Py.datetime) (dn : option string) (w : World) (x : exn) :
  _get_start_date_of_cycle F (default now cd) = raise x ->
  _get_or_create now F cd dn w = (raise x, w).
Proof.
  intros Hs. unfold _get_or_create, bind at 1, lift. rewrite Hs. reflexivity.
Qed.

Lemma elem_of_matching (w : World) (F : Frequency) (s : Py.datetime) (c : Cycle.t) :
  c ∈ matching_cycles w F s <->
  (exists k, cycles w !! k = Some c)
  /\ Cycle.frequency c = F /\ Cycle.start_date c = s.
Proof.
  unfold matching_cycles. rewrite list_elem_of_filter, list_elem_of_fmap. split.
  - intros [Hp ([k c'] & -> & Hin)]. split; [| done].
    exists k. by apply elem_of_map_to_list in Hin.
  - intros [[k Hk] Hp]. split; [done |].
    exists (k, c). split; [done |]. by apply elem_of_map_to_list.
Qed.

Lemma matching_cycles_ext (w w' : World) (F : Frequency) (s : Py.datetime) :
  cycles w' = cycles w -> matching_cycles w' F s = matching_cycles w F s.
Proof. intros E. unfold matching_cycles. by rewrite E. Qed.

Lemma all_equal_head {A} (l : list A) (a : A) :
  a ∈ l -> (forall x, x ∈ l -> x = a) -> exists l', l = a :: l'.
Proof.
  intros Hin Hall. destruct l as [| b l]; [by apply elem_of_nil in Hin |].
  exists l. f_equal. apply Hall. apply list_elem_of_here.
Qed.

(** What a call that returns has done. *)
Lemma get_or_create_returns (now : Py.datetime) (F : Frequency)
    (cd : option Py.datetime) (dn : option string) (w w1 : World) (c : Cycle.t) :
  _get_or_create now F cd dn w = (ok c, w1) ->
  exists s,
    _get_start_date_of_cycle F (default now cd) = ok s
    /\ ((exists l, matching_cycles w F s = c :: l /\ w1 = w)
        \/ (exists e,
              matching_cycles w F s = []
              /\ _get_end_date_of_cycle F s = ok e
              /\ c = new_cycle w F None (default now cd) dn ∅ s e
              /\ w1 = mkWorld (scenarios w) (<[next_id w := c]> (cycles w))
                              (pm_requests w) (S (next_id w)))).
Proof.
  intros Hrun.
  destruct (_get_start_date_of_cycle F (default now cd)) as [x | s] eqn:Hs.
  { rewrite (get_or_create_start_fails _ _ _ _ _ x Hs) in Hrun. discriminate. }
  exists s. split; [reflexivity |].
  rewrite (get_or_create_run _ _ _ _ _ s Hs) in Hrun.
  destruct (matching_cycles w F s) as [| c' l] eqn:Hm.
  - right.
    destruct (_get_end_date_of_cycle F s) as [x | e] eqn:He.
    { rewrite (cycle_create_fails _ _ _ _ _ _ _ s x) in Hrun by done.
      discriminate. }
    rewrite (cycle_create_run _ _ _ _ _ _ _ s e) in Hrun by done.
    injection Hrun as <- <-. exists e. done.
  - left. injection Hrun as <- <-. eauto.
Qed.

Lemma get_or_create_head (now : Py.datetime) (F : Frequency)
    (cd : option Py.datetime) (dn : option string) (w w1 : World) (c : Cycle.t)
    (s : Py.datetime) :
  _get_or_create now F cd dn w = (ok c, w1) ->
  _get_start_date_of_cycle F (default now cd) = ok s ->
  exists l, matching_cycles w1 F s = c :: l.
Proof.
  intros Hrun Hs. apply get_or_create_returns in Hrun.
  destruct Hrun as (s' & Hs' & Hcase).
  assert (s' = s) by (unfold ok in *; congruence). subst s'.
  destruct Hcase as [(l & Hm & ->) | (e & Hm & He & Hc & ->)]; [eauto |].
  apply all_equal_head.
  - apply elem_of_matching. cbn. split.
    + exists (next_id w). apply lookup_insert_eq.
    + by rewrite Hc.
  - intros x Hx. apply elem_of_matching in Hx. cbn in Hx.
    destruct Hx as [[k Hk] Hp]. apply lookup_insert_Some in Hk.
    destruct Hk as [[_ <-] | [_ Hk]]; [done |].
    assert (Hin : x ∈ matching_cycles w F s) by (apply elem_of_matching; eauto).
    rewrite Hm in Hin. by apply elem_of_nil in Hin.
Qed.

Lemma get_or_create_found (now : Py.datetime) (F : Frequency)
    (cd : option Py.datetime) (dn : option string) (w : World) (c : Cycle.t)
    (l : list Cycle.t) (s : Py.datetime) :
  _get_start_date_of_cycle F (default now cd) = ok s ->
  matching_cycles w F s = c :: l ->
  _get_or_create now F cd dn w = (ok c, w).
Proof. intros Hs Hm. by rewrite (get_or_create_run _ _ _ _ _ s Hs), Hm. Qed.

Lemma get_or_create_well_formed (now : Py.datetime) (F : Frequency)
    (cd : option Py.datetime) (dn : option string) (w w1 : World) (c : Cycle.t) :
  cycles_well_formed w ->
  _get_or_create now F cd dn w = (ok c, w1) ->
  cycles_well_formed w1
  /\ (forall k c0, cycles w !! k = Some c0 -> cycles w1 !! k = Some c0)
  /\ (exists k s, cycles w1 !! k = Some c
                  /\ _get_start_date_of_cycle F (default now cd) = ok s
                  /\ Cycle.start_date c = s).
Proof.
  intros Hwf Hrun. apply get_or_create_returns in Hrun.
  destruct Hrun as (s & Hs & [(l & Hm & ->) | (e & Hm & He & Hc & ->)]).
  - split; [done |]. split; [done |].
    assert (Hin : c ∈ matching_cycles w F s) by (rewrite Hm; apply list_elem_of_here).
    apply elem_of_matching in Hin. destruct Hin as [[k Hk] [_ Hst]]. eauto.
  - split; [| split].
    + intros k c0 Hk. cbn in *. apply lookup_insert_Some in Hk.
      destruct Hk as [[<- <-] | [Hne Hk]].
      * rewrite Hc. cbn. split; [done | lia].
      * destruct (Hwf k c0 Hk). split; [done | lia].
    + intros k c0 Hk. cbn. rewrite lookup_insert_ne; [done |].
      intros <-. destruct (Hwf _ _ Hk). lia.
    + exists (next_id w), s. cbn. split; [apply lookup_insert_eq |].
      split; [done |]. by rewrite Hc.
Qed.

Lemma get_or_create_identity_aux (F : Frequency) (w : World)
    (now1 now2 : Py.datetime) (cd1 cd2 : option Py.datetime)
    (dn1 dn2 : option string) :
  let T1 := default now1 cd1 in
  let T2 := default now2 cd2 in
  (_get_start_date_of_cycle F T1 = _get_start_date_of_cycle F T2 ->
   forall c1 w1,
     _get_or_create now1 F cd1 dn1 w = (ok c1, w1) ->
     _get_or_create now2 F cd2 dn2 w1 = (ok c1, w1))
  /\ (cycles_well_formed w ->
      _get_start_date_of_cycle F T1 <> _get_start_date_of_cycle F T2 ->
      forall c1 w1 c2 w2,
        _get_or_create now1 F cd1 dn1 w = (ok c1, w1) ->
        _get_or_create now2 F cd2 dn2 w1 = (ok c2, w2) ->
        Cycle.id c1 <> Cycle.id c2)
  /\ (forall s e,
        _get_start_date_of_cycle F T1 = ok s ->
        _get_end_date_of_cycle F s = ok e ->
        exists c1 w1, _get_or_create now1 F cd1 dn1 w = (ok c1, w1)).
Proof.
  intros T1 T2. split; [| split].
  - intros Hsame c1 w1 Hrun.
    destruct (get_or_create_returns _ _ _ _ _ _ _ Hrun) as (s & Hs & _).
    destruct (get_or_create_head _ _ _ _ _ _ _ s Hrun Hs) as [l Hl].
    apply (get_or_create_found _ _ _ _ _ _ l s); [| done].
    fold T2. rewrite <- Hsame. exact Hs.
  - intros Hwf Hdiff c1 w1 c2 w2 Hrun1 Hrun2.
    destruct (get_or_create_well_formed _ _ _ _ _ _ _ Hwf Hrun1)
      as (Hwf1 & _ & (k1 & s1 & Hk1 & Hs1 & Hst1)).
    destruct (get_or_create_well_formed _ _ _ _ _ _ _ Hwf1 Hrun2)
      as (Hwf2 & Hmono & (k2 & s2 & Hk2 & Hs2 & Hst2)).
    apply Hmono in Hk1.
    destruct (Hwf2 _ _ Hk1) as [Hid1 _]. destruct (Hwf2 _ _ Hk2) as [Hid2 _].
    intros Heq. assert (k1 = k2) by congruence. subst k2.
    assert (c1 = c2) by congruence. subst c2.
    apply Hdiff. fold T1 in Hs1. fold T2 in Hs2. congruence.
  - intros s e Hs He. rewrite (get_or_create_run _ _ _ _ _ s Hs).
    destruct (matching_cycles w F s) as [| c l]; [| eauto].
    rewrite (cycle_create_run _ _ _ _ _ _ _ s e); [eauto | done | done].
Qed.

End Cycles.

(* ===================================================================== *)
(** ** Creation, the master invariant and comparison *)
(* ===================================================================== *)

Section Invariant.
Import _ScenarioManager.
Local Close Scope Z_scope.

Lemma get_or_create_pipelines_run (pm : PipelineManager)
    (p_configs : list PipelineConfig) (sid : Id) (w : World) :
  exists ps reqs,
    get_or_create_pipelines pm p_configs sid w = (ok ps, with_requests w reqs).
Proof.
  revert w. induction p_configs as [| p l IH]; intros w.
  - exists [], (pm_requests w). cbn. by destruct w.
  - cbn [get_or_create_pipelines]. unfold bind at 1.
    unfold _PipelineManager._get_or_create. cbv beta iota delta [ok].
    unfold bind at 1.
    destruct (IH (snd (_PipelineManager.issue (PMGetOrCreate p sid) w)))
      as (ps & reqs & E).
    rewrite E. cbn. eauto.
Qed.

Lemma get_or_create_frame (now : Py.datetime) (F : Frequency)
    (cd : option Py.datetime) (dn : option string) (w w1 : World) (r : res Cycle.t) :
  _CycleManager._get_or_create now F cd dn w = (r, w1) ->
  scenarios w1 = scenarios w /\ pm_requests w1 = pm_requests w
  /\ (next_id w <= next_id w1)%nat.
Proof.
  intros Hrun.
  destruct (_CycleManager._get_start_date_of_cycle F (default now cd))
    as [x | s] eqn:Hs.
  { rewrite (get_or_create_start_fails _ _ _ _ _ x Hs) in Hrun.
    injection Hrun as <- <-. done. }
  rewrite (get_or_create_run _ _ _ _ _ s Hs) in Hrun.
  destruct (matching_cycles w F s) as [| c' l].
  - destruct (_CycleManager._get_end_date_of_cycle F s) as [x | e] eqn:He.
    + rewrite (cycle_create_fails _ _ _ _ _ _ _ s x) in Hrun by done.
      injection Hrun as <- <-. done.
    + rewrite (cycle_create_run _ _ _ _ _ _ _ s e) in Hrun by done.
      injection Hrun as <- <-. cbn. repeat split; lia.
  - injection Hrun as <- <-. done.
Qed.

(** The world in which [_create] asks for the cycle: the identity is
    issued and the pipelines are there. *)
Lemma create_inversion {V} (pm : PipelineManager) (now : Py.datetime)
    (cfg : ScenarioConfig.t V) (cd : option Py.datetime) (dn : option string)
    (w : World) :
  exists ps w_b,
    scenarios w_b = scenarios w /\ cycles w_b = cycles w
    /\ next_id w_b = S (next_id w)
    /\ _create pm now cfg cd dn w
       = match ScenarioConfig.frequency cfg with
         | Some F =>
             match _CycleManager._get_or_create now F cd None w_b with
             | (inl x, w_c) => (inl x, w_c)
             | (inr c, w_c) =>
                 let scn :=
                   Scenario.new (ScenarioConfig.id cfg) ps
                     (if truthy dn
                      then <["display_name" := PText (default EmptyString dn)]>
                             (ScenarioConfig.properties cfg)
                      else ScenarioConfig.properties cfg)
                     (next_id w) cd
                     (length (scenarios_of w_c c) =? 0)%nat (Some c) in
                 (ok scn, with_scenarios w_c (put scn (scenarios w_c)))
             end
         | None =>
             let scn :=
               Scenario.new (ScenarioConfig.id cfg) ps
                 (if truthy dn
                  then <["display_name" := PText (default EmptyString dn)]>
                         (ScenarioConfig.properties cfg)
                  else ScenarioConfig.properties cfg)
                 (next_id w) cd false None in
             (ok scn, with_scenarios w_b (put scn (scenarios w_b)))
         end.
Proof.
  destruct (get_or_create_pipelines_run pm (ScenarioConfig.pipeline_configs cfg)
              (next_id w)
              (mkWorld (scenarios w) (cycles w) (pm_requests w) (S (next_id w))))
    as (ps & reqs & E).
  exists ps, (with_requests
                (mkWorld (scenarios w) (cycles w) (pm_requests w) (S (next_id w)))
                reqs).
  split; [done |]. split; [done |]. split; [done |].
  unfold _create. unfold bind at 1. unfold new_id at 1. cbv beta iota delta [ok].
  unfold bind at 1. rewrite E. cbv beta iota delta [ok].
  destruct (ScenarioConfig.frequency cfg) as [F |].
  - unfold bind at 1. unfold bind at 1.
    destruct (_CycleManager._get_or_create now F cd None _) as [[x | c] w_c];
      [reflexivity |].
    reflexivity.
  - reflexivity.
Qed.

Lemma scenarios_of_ext (w w' : World) (c : Cycle.t) :
  scenarios w' = scenarios w -> scenarios_of w' c = scenarios_of w c.
Proof. intros E. unfold scenarios_of, all_scenarios. by rewrite E. Qed.

(** CLAIM C5. Creating a scenario from a configuration with a frequency:
    the call returns whenever the cycle's dates can be computed; the new
    scenario is persisted in its cycle and is the master exactly when the
    cycle holds no scenario at that time; a second scenario created in the
    same cycle is not the master. *)
Theorem create_elects_first {V} (pm : PipelineManager)
    (cfg cfg2 : ScenarioConfig.t V) (F : Frequency)
    (now now2 : Py.datetime) (cd cd2 : option Py.datetime)
    (dn dn2 : option string) (w : World) :
  ScenarioConfig.frequency cfg = Some F ->
  ScenarioConfig.frequency cfg2 = Some F ->
  (forall s e,
     _CycleManager._get_start_date_of_cycle F (default now cd) = ok s ->
     _CycleManager._get_end_date_of_cycle F s = ok e ->
     exists s1 w1, _create pm now cfg cd dn w = (ok s1, w1))
  /\ (forall s1 w1,
        _create pm now cfg cd dn w = (ok s1, w1) ->
        exists c,
          Scenario.cycle s1 = Some c
          /\ persisted w1 (Scenario.id s1) s1
          /\ (Scenario.is_master s1 = true <-> scenarios_of w c = [])
          /\ (_CycleManager._get_start_date_of_cycle F (default now cd)
              = _CycleManager._get_start_date_of_cycle F (default now2 cd2) ->
              exists s2 w2,
                _create pm now2 cfg2 cd2 dn2 w1 = (ok s2, w2)
                /\ Scenario.cycle s2 = Some c
                /\ Scenario.is_master s2 = false)).
Proof.
  intros HF HF2.
  destruct (create_inversion pm now cfg cd dn w)
    as (ps & w_b & Hsb & Hcb & Hnb & Hrun).
  rewrite HF in Hrun. split.
  - intros s e Hs He.
    destruct (get_or_create_identity_aux F w_b now now cd cd None None)
      as (_ & _ & Hret).
    destruct (Hret s e Hs He) as (c1 & w_c & Hg).
    rewrite Hg in Hrun. cbv zeta in Hrun. rewrite Hrun. eauto.
  - intros s1 w1 Hs1. rewrite Hs1 in Hrun.
    destruct (_CycleManager._get_or_create now F cd None w_b)
      as [[x | c] w_c] eqn:Hg; [discriminate |].
    cbv zeta in Hrun. injection Hrun as -> ->.
    destruct (get_or_create_frame _ _ _ _ _ _ _ Hg) as (Hsc & _ & _).
    exists c. split; [reflexivity |].
    split; [apply persisted_put; by left |].
    split.
    { cbn. rewrite Nat.eqb_eq, length_zero_iff_nil.
      rewrite (scenarios_of_ext w w_c) by congruence. reflexivity. }
    intros Hsame.
    destruct (get_or_create_returns _ _ _ _ _ _ _ Hg) as (s & Hs & _).
    destruct (get_or_create_head _ _ _ _ _ _ _ s Hg Hs) as [l Hl].
    match goal with
    | |- context [_create pm now2 cfg2 cd2 dn2 ?x] => set (w1 := x)
    end.
    destruct (create_inversion pm now2 cfg2 cd2 dn2 w1)
      as (ps2 & w1_b & Hsb2 & Hcb2 & Hnb2 & Hrun2).
    rewrite HF2 in Hrun2.
    assert (Hg2 : _CycleManager._get_or_create now2 F cd2 None w1_b = (ok c, w1_b)).
    { apply (get_or_create_found _ _ _ _ _ _ l s).
      - by rewrite <- Hsame.
      - rewrite <- Hl. apply matching_cycles_ext. by rewrite Hcb2. }
    rewrite Hg2 in Hrun2. cbv zeta in Hrun2.
    eexists. eexists. split; [exact Hrun2 |]. split; [reflexivity |].
    cbn. apply Nat.eqb_neq. intros Hlen. apply length_zero_iff_nil in Hlen.
    revert Hlen. apply populated_iff.
    eexists. eexists. split.
    + unfold persisted. rewrite Hsb2. apply persisted_put. by left.
    + apply in_cycle_own. reflexivity.
Qed.

Lemma elected_iff (w : World) : one_master_per_cycle w <-> elected (scenarios w).
Proof.
  unfold one_master_per_cycle, elected, unique_master, populated, mastered.
  split; intros H c; destruct (H c) as [H1 H2].
  - split.
    + apply (proj1 (masters_le_1 w c)). exact H1.
    + intros Hp. apply (proj1 (masters_ge_1 w c)).
      rewrite H2; [lia |]. by apply populated_iff.
  - split.
    + by apply (proj2 (masters_le_1 w c)).
    + intros Hp. apply (proj1 (populated_iff w c)) in Hp.
      apply (proj2 (masters_le_1 w c)) in H1.
      apply H2, (proj2 (masters_ge_1 w c)) in Hp. lia.
Qed.

Lemma shape_fields (s s' : Scenario.t) :
  shape s = shape s' ->
  Scenario.is_master s = Scenario.is_master s'
  /\ forall c, in_cycle c s = in_cycle c s'.
Proof.
  unfold shape, in_cycle. intros E. injection E as E1 E2.
  split; [done |]. intros c. by rewrite E2.
Qed.

Lemma same_shapes_sym (m m' : gmap Id Scenario.t) :
  same_shapes m m' -> same_shapes m' m.
Proof. intros H k. by rewrite H. Qed.

Lemma same_shapes_trans (m1 m2 m3 : gmap Id Scenario.t) :
  same_shapes m1 m2 -> same_shapes m2 m3 -> same_shapes m1 m3.
Proof. intros H1 H2 k. by rewrite H1. Qed.

Lemma same_shapes_refl (m : gmap Id Scenario.t) : same_shapes m m.
Proof. done. Qed.

Lemma same_shapes_lookup (m m' : gmap Id Scenario.t) (k : Id) (s : Scenario.t) :
  same_shapes m m' -> m !! k = Some s ->
  exists s', m' !! k = Some s' /\ shape s' = shape s.
Proof.
  intros H Hk. specialize (H k). rewrite Hk in H. cbn in H.
  destruct (m' !! k) as [s' |]; cbn in H; [| done].
  exists s'. split; [done | congruence].
Qed.

Lemma same_shapes_put (m : gmap Id Scenario.t) (s s0 : Scenario.t) :
  m !! Scenario.id s = Some s0 -> shape s0 = shape s ->
  same_shapes m (put s m).
Proof.
  intros Hk Hs k. unfold put.
  destruct (decide (k = Scenario.id s)) as [-> | Hne].
  - rewrite lookup_insert_eq, Hk. cbn. by rewrite Hs.
  - by rewrite lookup_insert_ne.
Qed.

Lemma same_shapes_populated (m m' : gmap Id Scenario.t) (c : Cycle.t) :
  same_shapes m m' -> populated m c -> populated m' c.
Proof.
  intros H (k & s & Hk & Hc).
  destruct (same_shapes_lookup _ _ _ _ H Hk) as (s' & Hk' & Hs').
  exists k, s'. split; [done |].
  destruct (shape_fields _ _ Hs') as [_ E]. by rewrite E.
Qed.

Lemma same_shapes_mastered (m m' : gmap Id Scenario.t) (c : Cycle.t) :
  same_shapes m m' -> mastered m c -> mastered m' c.
Proof.
  intros H (k & s & Hk & Hc & Hm).
  destruct (same_shapes_lookup _ _ _ _ H Hk) as (s' & Hk' & Hs').
  exists k, s'. split; [done |].
  destruct (shape_fields _ _ Hs') as [E1 E2]. by rewrite E1, E2.
Qed.

Lemma same_shapes_elected (m m' : gmap Id Scenario.t) :
  same_shapes m m' -> elected m -> elected m'.
Proof.
  intros H He c. destruct (He c) as [Hu Hp]. split.
  - intros k1 s1 k2 s2 H1 Hc1 Hm1 H2 Hc2 Hm2.
    destruct (same_shapes_lookup _ _ _ _ (same_shapes_sym _ _ H) H1)
      as (t1 & Ht1 & Hs1).
    destruct (same_shapes_lookup _ _ _ _ (same_shapes_sym _ _ H) H2)
      as (t2 & Ht2 & Hs2).
    destruct (shape_fields _ _ Hs1) as [E1 E1'].
    destruct (shape_fields _ _ Hs2) as [E2 E2'].
    apply (Hu k1 t1 k2 t2); rewrite ?E1, ?E1', ?E2, ?E2'; done.
  - intros Hpop.
    apply (same_shapes_mastered m m' c H), Hp.
    by apply (same_shapes_populated m' m c (same_shapes_sym _ _ H)).
Qed.

(** Persisting a scenario under an identity in use, with the master flag
    and cycle it had. *)
Lemma good_put (w : World) (s s0 : Scenario.t) :
  good w -> persisted w (Scenario.id s) s0 -> shape s0 = shape s ->
  good (with_scenarios w (put s (scenarios w)))
  /\ same_shapes (scenarios w) (put s (scenarios w)).
Proof.
  intros (He & Hst & Hid) Hk Hs.
  pose proof (same_shapes_put _ _ _ Hk Hs) as Hsame.
  split; [| done]. split; [| split].
  - by apply (same_shapes_elected _ _ Hsame).
  - intros k x Hx. apply persisted_put in Hx.
    destruct Hx as [[-> ->] | [_ Hx]]; [done | by apply Hst].
  - intros k x Hx. apply persisted_put in Hx. cbn.
    destruct Hx as [[-> ->] | [_ Hx]]; [by apply (Hid _ s0) | by apply (Hid _ x)].
Qed.

Lemma in_sync_shape (w : World) (s : Scenario.t) :
  in_sync w s ->
  exists s0, persisted w (Scenario.id s) s0 /\ shape s0 = shape s.
Proof.
  intros (s0 & Hk & Hm & Hc). exists s0. split; [done |].
  unfold shape. by rewrite Hm, Hc.
Qed.

Lemma in_cycle_same (c c2 : Cycle.t) (x : Scenario.t) :
  in_cycle c x = true -> in_cycle c2 x = true ->
  forall y, in_cycle c2 y = in_cycle c y.
Proof.
  unfold in_cycle, Cycle.eqb. destruct (Scenario.cycle x) as [cx |]; [| done].
  intros H1 H2 y. apply bool_decide_eq_true in H1, H2.
  destruct (Scenario.cycle y) as [cy |]; [| done].
  apply bool_decide_ext. split; congruence.
Qed.

Lemma keeps_population_same_shapes (w w' : World) :
  same_shapes (scenarios w) (scenarios w') -> keeps_population w w'.
Proof. intros H c. by apply same_shapes_populated. Qed.

Lemma keeps_population_refl (w : World) : keeps_population w w.
Proof. by intros c. Qed.

(** *** Untag, Subscribe and Unsubscribe of one scenario *)

Lemma step_put_good (w : World) (s s' : Scenario.t) :
  good w -> in_sync w s ->
  Scenario.id s' = Scenario.id s -> shape s' = shape s ->
  good (with_scenarios w (put s' (scenarios w)))
  /\ keeps_population w (with_scenarios w (put s' (scenarios w))).
Proof.
  intros Hg Hs Hid Hsh.
  destruct (in_sync_shape w s Hs) as (s0 & Hk & Hs0).
  destruct (good_put w s' s0 Hg) as [Hg' Hsame].
  - by rewrite Hid.
  - congruence.
  - split; [done |]. by apply keeps_population_same_shapes.
Qed.

(** *** Tag *)

Lemma step_tag_good (w : World) (s : Scenario.t) (tag : string) :
  good w -> in_sync w s ->
  good (snd (_tag s tag w)) /\ keeps_population w (snd (_tag s tag w)).
Proof.
  intros Hg Hs.
  destruct (unauthorized s tag) eqn:Hu.
  { rewrite (tag_unauthorized s tag w Hu). cbn.
    split; [done | apply keeps_population_refl]. }
  rewrite (tag_run s tag w Hu). cbn [snd].
  destruct (in_sync_shape w s Hs) as (s0 & Hk & Hs0).
  assert (Hplain :
    good (with_scenarios w (put (Scenario._add_tag s tag) (scenarios w)))
    /\ keeps_population w
         (with_scenarios w (put (Scenario._add_tag s tag) (scenarios w)))).
  { apply (step_put_good w s); done. }
  destruct (Scenario.cycle s) as [c |] eqn:Hc; [| exact Hplain].
  destruct (first_holder w c tag) as [o |] eqn:Ho; [| exact Hplain].
  apply first_holder_Some in Ho. destruct Ho as (k & Hko & _ & _).
  assert (Hido : Scenario.id o = k) by (by apply Hg).
  subst k.
  destruct (good_put w (Scenario.remove_tag o tag) o Hg) as [Hg1 Hsame1].
  { by rewrite id_remove_tag. }
  { symmetry. apply shape_remove_tag. }
  set (w1 := with_scenarios w (put (Scenario.remove_tag o tag) (scenarios w))) in *.
  destruct (same_shapes_lookup _ _ _ _ Hsame1 Hk) as (s1 & Hk1 & Hs1).
  destruct (good_put w1 (Scenario._add_tag s tag) s1 Hg1) as [Hg2 Hsame2].
  { exact Hk1. }
  { cbn. rewrite Hs1. exact Hs0. }
  split; [exact Hg2 |].
  apply keeps_population_same_shapes. cbn.
  by apply (same_shapes_trans _ (put (Scenario.remove_tag o tag) (scenarios w))).
Qed.

(** *** SetMaster *)

Lemma step_set_master_good (w : World) (B : Scenario.t) :
  good w -> in_sync w B ->
  good (snd (_set_master B w)) /\ keeps_population w (snd (_set_master B w)).
Proof.
  intros Hg HB.
  destruct (Scenario.cycle B) as [c |] eqn:Hc.
  2: { rewrite (set_master_no_cycle B w Hc). cbn.
       split; [done | apply keeps_population_refl]. }
  rewrite (set_master_run B c w Hc). cbn [snd].
  destruct Hg as (He & Hst & Hid).
  destruct HB as (B0 & HkB & HmB & HcB).
  assert (HB0c : in_cycle c B0 = true) by (apply in_cycle_own; congruence).
  destruct (first_master w c) as [A |] eqn:HA.
  2: { exfalso. destruct (He c) as [_ Hp].
       destruct Hp as (k & s & Hk & Hkc & Hkm); [by exists (Scenario.id B), B0 |].
       pose proof (first_master_None w c HA k s Hk Hkc). congruence. }
  apply first_master_Some in HA. destruct HA as (kA & HkA & HAc & HAm).
  assert (Scenario.id A = kA) by (by apply Hst). subst kA.
  set (A' := Scenario.set_master_scenario A false).
  set (B' := Scenario.set_master_scenario B true).
  unfold persisted, stored_under_id, ids_issued in *.
  set (m := scenarios w) in *.
  assert (Hentry : forall k s,
    put B' (put A' m) !! k = Some s <->
    (k = Scenario.id B /\ s = B')
    \/ (k <> Scenario.id B /\ k = Scenario.id A /\ s = A')
    \/ (k <> Scenario.id B /\ k <> Scenario.id A /\ m !! k = Some s)).
  { intros k s. unfold put. cbn. rewrite !lookup_insert_Some. split.
    - intros [[<- <-] | [Hne [[<- <-] | [Hne2 Hk]]]]; auto 10.
    - intros [[-> ->] | [(Hne & -> & ->) | (Hne & Hne2 & Hk)]]; auto 10. }
  assert (HB'c : forall c2, in_cycle c2 B' = in_cycle c2 B0).
  { intros c2. unfold in_cycle. cbn. by rewrite HcB. }
  split; [split; [| split] |].
  - (* elected *)
    intros c2. destruct (He c2) as [Hu2 Hp2]. destruct (He c) as [Hu _].
    assert (Hother : forall k s,
      put B' (put A' m) !! k = Some s -> in_cycle c2 s = true ->
      Scenario.is_master s = true -> k <> Scenario.id B ->
      m !! k = Some s /\ k <> Scenario.id A /\ in_cycle c2 B0 = false).
    { intros k s Hk Hkc Hkm Hne. apply Hentry in Hk.
      destruct Hk as [[? _] | [(_ & _ & ->) | (_ & HneA & Hk)]];
        [done | done |].
      split; [done |]. split; [done |].
      destruct (in_cycle c2 B0) eqn:E; [exfalso | done].
      apply HneA. apply (Hu k s _ A); try done.
      by rewrite <- (in_cycle_same c c2 B0 HB0c E). }
    split.
    + intros k1 s1 k2 s2 H1 Hc1 Hm1 H2 Hc2 Hm2.
      destruct (decide (k1 = Scenario.id B)) as [E1 | N1];
        destruct (decide (k2 = Scenario.id B)) as [E2 | N2].
      * congruence.
      * exfalso. destruct (Hother k2 s2 H2 Hc2 Hm2 N2) as (_ & _ & Hf).
        subst k1. apply Hentry in H1.
        destruct H1 as [[_ ->] | [(? & _) | (? & _)]]; [| done | done].
        rewrite HB'c in Hc1. congruence.
      * exfalso. destruct (Hother k1 s1 H1 Hc1 Hm1 N1) as (_ & _ & Hf).
        subst k2. apply Hentry in H2.
        destruct H2 as [[_ ->] | [(? & _) | (? & _)]]; [| done | done].
        rewrite HB'c in Hc2. congruence.
      * destruct (Hother k1 s1 H1 Hc1 Hm1 N1) as (H1' & _ & _).
        destruct (Hother k2 s2 H2 Hc2 Hm2 N2) as (H2' & _ & _).
        by apply (Hu2 k1 s1 k2 s2).
    + intros (k & s & Hk & Hkc).
      assert (Hpop : populated m c2).
      { apply Hentry in Hk.
        destruct Hk as [[-> ->] | [(_ & -> & ->) | (_ & _ & Hk)]].
        - exists (Scenario.id B), B0. split; [done |]. by rewrite <- HB'c.
        - exists (Scenario.id A), A. done.
        - by exists k, s. }
      destruct (Hp2 Hpop) as (km & sm & Hkm & Hkmc & Hkmm).
      destruct (in_cycle c2 B0) eqn:EB.
      * exists (Scenario.id B), B'. split; [apply Hentry; auto |].
        split; [by rewrite HB'c | done].
      * exists km, sm. split; [| done]. apply Hentry. right. right.
        split; [intros ->; congruence |]. split; [| done].
        intros ->. assert (sm = A) by congruence. subst sm.
        rewrite (in_cycle_same c c2 A HAc Hkmc) in EB. congruence.
  - (* stored under id *)
    intros k s Hk. apply Hentry in Hk.
    destruct Hk as [[-> ->] | [(_ & -> & ->) | (_ & _ & Hk)]];
      [done | done | by apply Hst].
  - (* identities issued *)
    intros k s Hk. cbn. apply Hentry in Hk.
    destruct Hk as [[-> ->] | [(_ & -> & ->) | (_ & _ & Hk)]].
    + by apply (Hid _ B0).
    + by apply (Hid _ A).
    + by apply (Hid _ s).
  - (* population *)
    intros c2 (k & s & Hk & Hkc). cbn. fold m in Hk |- *.
    destruct (decide (k = Scenario.id B)) as [-> | NB].
    + exists (Scenario.id B), B'. split; [apply Hentry; auto |].
      assert (s = B0) by congruence. subst s. by rewrite HB'c.
    + destruct (decide (k = Scenario.id A)) as [-> | NA].
      * exists (Scenario.id A), A'. split; [apply Hentry; auto |].
        assert (s = A) by congruence. by subst s.
      * exists k, s. split; [apply Hentry; auto 10 | done].
Qed.

(** *** Delete and HardDelete *)

Lemma good_delete (w w' : World) (k : Id) (s : Scenario.t) :
  good w -> persisted w k s -> Scenario.is_master s = false ->
  scenarios w' = delete k (scenarios w) -> next_id w' = next_id w ->
  good w' /\ keeps_population w w'.
Proof.
  intros (He & Hst & Hid) Hk Hm Hsc Hn.
  unfold good, stored_under_id, ids_issued, keeps_population in *.
  unfold persisted in *. rewrite Hsc, Hn.
  assert (Hkeep : forall c, mastered (scenarios w) c ->
                            mastered (delete k (scenarios w)) c).
  { intros c (km & sm & Hkm & Hc & Hmm). exists km, sm.
    split; [| done]. apply lookup_delete_Some. split; [| done].
    intros <-. congruence. }
  split; [split; [| split] |].
  - intros c. destruct (He c) as [Hu Hp]. split.
    + intros k1 s1 k2 s2 H1 Hc1 Hm1 H2 Hc2 Hm2.
      apply lookup_delete_Some in H1, H2.
      destruct H1 as [_ H1], H2 as [_ H2]. by apply (Hu k1 s1 k2 s2).
    + intros (k0 & s0 & Hk0 & Hc0). apply Hkeep, Hp.
      apply lookup_delete_Some in Hk0. destruct Hk0 as [_ Hk0]. by exists k0, s0.
  - intros k0 s0 Hk0. apply lookup_delete_Some in Hk0.
    destruct Hk0 as [_ Hk0]. by apply Hst.
  - intros k0 s0 Hk0. apply lookup_delete_Some in Hk0.
    destruct Hk0 as [_ Hk0]. by apply (Hid _ s0).
  - intros c Hp. destruct (He c) as [_ Hpm].
    destruct (Hkeep c (Hpm Hp)) as (km & sm & ? & ? & _). by exists km, sm.
Qed.

Lemma step_delete_good (w : World) (k : Id) :
  good w -> good (snd (_delete k w)) /\ keeps_population w (snd (_delete k w)).
Proof.
  intros Hg. rewrite delete_run.
  destruct (scenarios w !! k) as [s |] eqn:Hk;
    [| split; [done | apply keeps_population_refl]].
  destruct (Scenario.is_master s) eqn:Hm;
    [split; [done | apply keeps_population_refl] |].
  by apply (good_delete w _ k s).
Qed.

Lemma step_hard_delete_good (w : World) (k : Id) :
  good w ->
  good (snd (_hard_delete k w)) /\ keeps_population w (snd (_hard_delete k w)).
Proof.
  intros Hg.
  destruct (scenarios w !! k) as [s |] eqn:Hk.
  2: { rewrite (hard_delete_missing k w Hk).
       split; [done | apply keeps_population_refl]. }
  destruct (Scenario.is_master s) eqn:Hm.
  { rewrite (hard_delete_master k s w Hk Hm).
    split; [done | apply keeps_population_refl]. }
  rewrite (hard_delete_run k s w Hk Hm).
  by apply (good_delete w _ k s).
Qed.

(** *** Subscribe and Unsubscribe of every scenario *)

Lemma for_each_put_good (f : Scenario.t -> Scenario.t)
    (body : Scenario.t -> M unit) (w0 : World) :
  (forall scn, Scenario.id (f scn) = Scenario.id scn) ->
  (forall scn, shape (f scn) = shape scn) ->
  (forall scn w, body scn w
                 = (ok tt, with_scenarios w (put (f scn) (scenarios w)))) ->
  forall l w,
    (forall scn, In scn l ->
       exists s0, scenarios w0 !! Scenario.id scn = Some s0
                  /\ shape s0 = shape scn) ->
    good w -> same_shapes (scenarios w0) (scenarios w) ->
    good (snd (for_each l body w))
    /\ same_shapes (scenarios w0) (scenarios (snd (for_each l body w))).
Proof.
  intros Hid Hsh Hbody l. induction l as [| scn l IH]; intros w Hl Hg Hsame.
  - done.
  - cbn [for_each]. unfold bind. rewrite Hbody. cbv beta iota delta [ok].
    destruct (Hl scn (or_introl eq_refl)) as (s0 & Hk0 & Hs0).
    destruct (same_shapes_lookup _ _ _ _ Hsame Hk0) as (s1 & Hk1 & Hs1).
    destruct (good_put w (f scn) s1 Hg) as [Hg' Hsame'].
    { unfold persisted. by rewrite Hid. }
    { rewrite Hsh. congruence. }
    apply IH.
    + intros x Hx. apply Hl. by right.
    + exact Hg'.
    + by apply (same_shapes_trans _ (scenarios w)).
Qed.

Lemma all_scenarios_stored (w : World) (scn : Scenario.t) :
  stored_under_id w -> In scn (all_scenarios w) ->
  exists s0, scenarios w !! Scenario.id scn = Some s0 /\ shape s0 = shape scn.
Proof.
  intros Hst Hin. apply elem_of_all in Hin. destruct Hin as [k Hk].
  exists scn. split; [| done]. by rewrite (Hst k scn Hk).
Qed.

Lemma subscribe_all_world (w : World) (cb : Callback) :
  snd (_subscribe cb None w)
  = snd (for_each (all_scenarios w)
           (fun scn => __add_subscriber cb scn;; ret tt) w).
Proof.
  unfold _subscribe, all_scenarios. unfold bind at 1.
  cbv beta iota delta [_get_all _ScenarioRepository._load_all ok].
  unfold bind at 1.
  destruct (for_each _ _ w) as [[x | []] w']; reflexivity.
Qed.

Lemma unsubscribe_all_world (w : World) (cb : Callback) :
  snd (_unsubscribe cb None w)
  = snd (for_each (all_scenarios w)
           (fun scn => __remove_subscriber cb scn;; ret tt) w).
Proof.
  unfold _unsubscribe, all_scenarios. unfold bind at 1.
  cbv beta iota delta [_get_all _ScenarioRepository._load_all ok].
  unfold bind at 1.
  destruct (for_each _ _ w) as [[x | []] w']; reflexivity.
Qed.

Lemma step_subscribe_good (w : World) (cb : Callback) (o : option Scenario.t) :
  good w -> in_sync_opt w o ->
  good (snd (_subscribe cb o w)) /\ keeps_population w (snd (_subscribe cb o w)).
Proof.
  intros Hg Ho. destruct o as [s |].
  - apply (step_put_good w s (Scenario.add_subscriber s cb)); done.
  - rewrite subscribe_all_world.
    destruct (for_each_put_good (fun scn => Scenario.add_subscriber scn cb)
                (fun scn => __add_subscriber cb scn;; ret tt) w)
      with (l := all_scenarios w) (w := w) as [Hg' Hsame'];
      try done.
    { intros scn Hin. apply all_scenarios_stored; [apply Hg | done]. }
    split; [done | by apply keeps_population_same_shapes].
Qed.

Lemma step_unsubscribe_good (w : World) (cb : Callback) (o : option Scenario.t) :
  good w -> in_sync_opt w o ->
  good (snd (_unsubscribe cb o w))
  /\ keeps_population w (snd (_unsubscribe cb o w)).
Proof.
  intros Hg Ho. destruct o as [s |].
  - apply (step_put_good w s (Scenario.remove_subscriber s cb)); done.
  - rewrite unsubscribe_all_world.
    destruct (for_each_put_good (fun scn => Scenario.remove_subscriber scn cb)
                (fun scn => __remove_subscriber cb scn;; ret tt) w)
      with (l := all_scenarios w) (w := w) as [Hg' Hsame'];
      try done.
    { intros scn Hin. apply all_scenarios_stored; [apply Hg | done]. }
    split; [done | by apply keeps_population_same_shapes].
Qed.

(** *** Create *)

Lemma populated_dec (m : gmap Id Scenario.t) (c : Cycle.t) :
  populated m c \/ ~ populated m c.
Proof.
  pose (w := mkWorld m ∅ [] 0%nat).
  destruct (scenarios_of w c) as [| s l] eqn:E.
  - right. intros Hp. apply (populated_iff w c) in Hp. done.
  - left. apply (populated_iff w c). by rewrite E.
Qed.

Lemma elected_insert_fresh (m : gmap Id Scenario.t) (scn : Scenario.t) :
  elected m -> m !! Scenario.id scn = None ->
  (forall c, in_cycle c scn = true ->
             (Scenario.is_master scn = true <-> ~ populated m c)) ->
  elected (put scn m)
  /\ (forall c, populated m c -> populated (put scn m) c).
Proof.
  intros He Hfresh Hm.
  assert (Hold : forall k s, m !! k = Some s -> put scn m !! k = Some s).
  { intros k s Hk. unfold put. rewrite lookup_insert_ne; [done |].
    intros <-. congruence. }
  assert (Hmono : forall c, populated m c -> populated (put scn m) c).
  { intros c (k & s & Hk & Hc). exists k, s. split; [by apply Hold | done]. }
  split; [| done].
  intros c. destruct (He c) as [Hu Hp]. split.
  - intros k1 s1 k2 s2 H1 Hc1 Hm1 H2 Hc2 Hm2.
    unfold put in H1, H2. apply lookup_insert_Some in H1, H2.
    destruct H1 as [[<- <-] | [N1 H1]], H2 as [[<- <-] | [N2 H2]].
    + done.
    + exfalso. apply (proj1 (Hm c Hc1) Hm1). by exists k2, s2.
    + exfalso. apply (proj1 (Hm c Hc2) Hm2). by exists k1, s1.
    + by apply (Hu k1 s1 k2 s2).
  - intros (k & s & Hk & Hc).
    destruct (populated_dec m c) as [Hpop | Hnot].
    + destruct (Hp Hpop) as (km & sm & Hkm & Hkc & Hkmm).
      exists km, sm. split; [by apply Hold | done].
    + unfold put in Hk. apply lookup_insert_Some in Hk.
      destruct Hk as [[<- <-] | [_ Hk]].
      * exists (Scenario.id scn), scn. split; [apply lookup_insert_eq |].
        split; [done |]. by apply (Hm c Hc).
      * exfalso. apply Hnot. by exists k, s.
Qed.

Lemma good_create (w w_c : World) (scn : Scenario.t) :
  good w ->
  scenarios w_c = scenarios w -> (S (next_id w) <= next_id w_c)%nat ->
  Scenario.id scn = next_id w ->
  (forall c, in_cycle c scn = true ->
             (Scenario.is_master scn = true <-> ~ populated (scenarios w) c)) ->
  good (with_scenarios w_c (put scn (scenarios w_c)))
  /\ keeps_population w (with_scenarios w_c (put scn (scenarios w_c))).
Proof.
  intros (He & Hst & Hid) Hsc Hn Hscn Hm. rewrite Hsc.
  assert (Hfresh : scenarios w !! Scenario.id scn = None).
  { destruct (scenarios w !! Scenario.id scn) as [s |] eqn:E; [| done].
    pose proof (Hid _ _ E). lia. }
  destruct (elected_insert_fresh _ scn He Hfresh Hm) as [He' Hmono].
  split; [split; [| split] |].
  - exact He'.
  - intros k s Hk. apply persisted_put in Hk.
    destruct Hk as [[-> ->] | [_ Hk]]; [done | by apply Hst].
  - intros k s Hk. apply persisted_put in Hk. cbn.
    destruct Hk as [[-> ->] | [_ Hk]]; [lia |].
    pose proof (Hid _ _ Hk). lia.
  - intros c. apply Hmono.
Qed.

Lemma good_frame (w w' : World) :
  good w -> scenarios w' = scenarios w -> (next_id w <= next_id w')%nat ->
  good w' /\ keeps_population w w'.
Proof.
  intros (He & Hst & Hid) Hsc Hn.
  unfold good, stored_under_id, ids_issued, keeps_population, persisted in *.
  rewrite Hsc. split; [split; [| split] |]; try done.
  intros k s Hk. pose proof (Hid _ _ Hk). lia.
Qed.

Lemma step_create_good {V} (pm : PipelineManager) (now : Py.datetime)
    (cfg : ScenarioConfig.t V) (cd : option Py.datetime) (dn : option string)
    (w : World) :
  good w ->
  good (snd (_create pm now cfg cd dn w))
  /\ keeps_population w (snd (_create pm now cfg cd dn w)).
Proof.
  intros Hg.
  destruct (create_inversion pm now cfg cd dn w)
    as (ps & w_b & Hsb & Hcb & Hnb & Hrun).
  rewrite Hrun. clear Hrun.
  destruct (ScenarioConfig.frequency cfg) as [F |].
  - destruct (_CycleManager._get_or_create now F cd None w_b)
      as [[x | c] w_c] eqn:Hgoc;
      destruct (get_or_create_frame _ _ _ _ _ _ _ Hgoc) as (Hsc & _ & Hnc).
    + cbn [snd]. apply good_frame; [done | congruence | lia].
    + cbv zeta. cbn [snd]. apply good_create; try done; [congruence | lia |].
      intros c2 Hc2. cbn. rewrite Nat.eqb_eq, length_zero_iff_nil.
      rewrite (scenarios_of_ext w w_c) by congruence.
      assert (Hcc : in_cycle c (Scenario.new (ScenarioConfig.id cfg) ps
                                  (ScenarioConfig.properties cfg) (next_id w) cd
                                  false (Some c)) = true)
        by (by apply in_cycle_own).
      assert (Hc2' : in_cycle c2 (Scenario.new (ScenarioConfig.id cfg) ps
                                  (ScenarioConfig.properties cfg) (next_id w) cd
                                  false (Some c)) = true) by exact Hc2.
      pose proof (in_cycle_same c c2 _ Hcc Hc2') as Hsame.
      split.
      * intros E (k & s & Hk & Hkc). rewrite Hsame in Hkc.
        assert (Hne : scenarios_of w c <> []) by (apply populated_iff; eauto).
        done.
      * intros Hnot. destruct (scenarios_of w c) as [| s l] eqn:E; [done |].
        exfalso. apply Hnot.
        assert (Hne : scenarios_of w c <> []) by (by rewrite E).
        apply populated_iff in Hne. destruct Hne as (k & s' & Hk & Hkc).
        exists k, s'. split; [done |]. by rewrite Hsame.
  - cbv zeta. cbn [snd]. apply good_create; [done | done | lia | done |].
    intros c2 Hc2. cbn in Hc2. done.
Qed.

(** *** Every operation *)

Lemma step_good (pm : PipelineManager) (w w' : World) :
  good w -> step pm w w' -> good w' /\ keeps_population w w'.
Proof.
  intros Hg Hstep. destruct Hstep.
  - by apply step_create_good.
  - by apply step_set_master_good.
  - by apply step_tag_good.
  - rewrite untag_run. cbn [snd].
    apply (step_put_good w s); [done | done | apply id_remove_tag |].
    apply shape_remove_tag.
  - by apply step_delete_good.
  - by apply step_hard_delete_good.
  - by apply step_subscribe_good.
  - by apply step_unsubscribe_good.
Qed.

Lemma good_empty : good empty_world.
Proof.
  split; [| split].
  - intros c. split.
    + intros k1 s1 k2 s2 H1. cbn in H1. by rewrite lookup_empty in H1.
    + intros (k & s & Hk & _). cbn in Hk. by rewrite lookup_empty in Hk.
  - intros k s Hk. unfold persisted in Hk. cbn in Hk. by rewrite lookup_empty in Hk.
  - intros k s Hk. unfold persisted in Hk. cbn in Hk. by rewrite lookup_empty in Hk.
Qed.

Lemma reachable_good (pm : PipelineManager) (w : World) :
  reachable pm w -> good w.
Proof.
  unfold reachable. intros H.
  apply (rtc_ind_r (R := step pm) (fun w => good w) empty_world); [apply good_empty | | exact H].
  intros y z _ Hs Hy. by apply (step_good pm y z).
Qed.

Lemma keeps_population_lists (w w' : World) :
  keeps_population w w' ->
  forall c, scenarios_of w c <> [] -> scenarios_of w' c <> [].
Proof.
  intros H c Hne. apply populated_iff, (H c). by apply populated_iff in Hne.
Qed.

(** CLAIM C2. In every world reached from the empty one by operations of
    the Scenario Manager on scenario objects that agree with their persisted
    record on the master flag and the cycle, every cycle has at most one
    master and exactly one as soon as it holds a scenario; every further
    such operation (create, set master, tag, untag, delete, hard delete,
    subscribe, unsubscribe) keeps this, and keeps populated cycles
    populated. *)
Theorem master_invariant_kept (pm : PipelineManager) (w w' : World) :
  reachable pm w -> step pm w w' ->
  one_master_per_cycle w /\ one_master_per_cycle w'
  /\ (forall c, scenarios_of w c <> [] -> scenarios_of w' c <> []).
Proof.
  intros Hr Hs. pose proof (reachable_good pm w Hr) as Hg.
  destruct (step_good pm w w' Hg Hs) as [Hg' Hk].
  split; [apply elected_iff, Hg |]. split; [apply elected_iff, Hg' |].
  by apply keeps_population_lists.
Qed.

(** ** Comparison *)

Section Compare.
Context {V : Type}.
Implicit Types (read : Scenario.t -> string -> option V).

Lemma read_all_mapM read d scs :
  read_all read d scs
  = match mapM (fun s => read s d) scs with
    | Some vs => ok vs
    | None => raise AttributeError
    end.
Proof.
  induction scs as [| s scs IH]; [done |].
  cbn [read_all]. rewrite IH. cbn.
  destruct (read s d); [| done]. cbn.
  by destruct (mapM _ scs).
Qed.

Lemma compare_each_outcome read scs l acc :
  compare_each read scs l acc = raise AttributeError
  \/ exists results, compare_each read scs l acc = ok results.
Proof.
  revert acc. induction l as [| [d cs] l IH]; intros acc.
  - right. by exists acc.
  - cbn [compare_each]. rewrite read_all_mapM.
    destruct (mapM _ scs); cbn; [apply IH | by left].
Qed.

Lemma compare_each_ok read scs (l : list (string * list (Comparator V))) acc :
  NoDup l.*1 ->
  (forall d cs, (d, cs) ∈ l -> is_Some (mapM (fun s => read s d) scs)) ->
  exists results,
    compare_each read scs l acc = ok results
    /\ forall d,
         results !! d
         = match (list_to_map l : gmap string (list (Comparator V))) !! d with
           | Some cs => apply_comparators cs <$> mapM (fun s => read s d) scs
           | None => acc !! d
           end.
Proof.
  revert acc. induction l as [| [d cs] l IH]; intros acc Hnd Hread.
  - exists acc. split; [done |]. intros d. cbn. by rewrite lookup_empty.
  - cbn [compare_each]. rewrite read_all_mapM.
    destruct (Hread d cs) as [vs Hvs]; [left |].
    rewrite Hvs. cbn [rbind ok].
    cbn in Hnd. apply NoDup_cons in Hnd as [Hnin Hnd].
    destruct (IH (<[d := apply_comparators cs vs]> acc) Hnd) as (results & Hrun & Hres).
    { intros d' cs' Hin. apply (Hread d' cs'). by right. }
    exists results. split; [exact Hrun |].
    intros d'. rewrite Hres. cbn [list_to_map foldr uncurry fst snd].
    destruct (decide (d' = d)) as [-> | Hne].
    + rewrite lookup_insert_eq.
      rewrite (not_elem_of_list_to_map_1 _ d Hnin).
      rewrite lookup_insert_eq. by rewrite Hvs.
    + assert (d <> d') as Hne' by congruence.
      rewrite (lookup_insert_ne (list_to_map l) d d' cs Hne').
      destruct (list_to_map l !! d'); [done |].
      by rewrite lookup_insert_ne.
Qed.

Lemma apply_comparators_snoc (cs : list (Comparator V)) c vs :
  apply_comparators (cs ++ [c]) vs
  = <[__name__ c := call c vs]> (apply_comparators cs vs).
Proof. unfold apply_comparators. by rewrite foldl_app. Qed.

Lemma apply_comparators_lookup (cs : list (Comparator V)) vs c :
  NoDup (__name__ <$> cs) -> c ∈ cs ->
  apply_comparators cs vs !! __name__ c = Some (call c vs).
Proof.
  induction cs as [| c' cs IH] using rev_ind; intros Hnd Hin.
  - by apply elem_of_nil in Hin.
  - rewrite apply_comparators_snoc.
    rewrite fmap_app in Hnd. apply NoDup_app in Hnd as (Hnd & Hdisj & _).
    apply elem_of_app in Hin as [Hin | Hin].
    + rewrite lookup_insert_ne; [by apply IH |].
      intros Heq. apply (Hdisj (__name__ c)).
      * apply list_elem_of_fmap. by exists c.
      * rewrite <- Heq. cbn. left.
    + apply list_elem_of_singleton in Hin as ->. by rewrite lookup_insert_eq.
Qed.

Lemma forallb_same_config (s0 : Scenario.t) (scs : list Scenario.t) :
  forallb (fun s => bool_decide (Scenario.config_id s0 = Scenario.config_id s)) scs = true
  <-> forall s, s ∈ scs -> Scenario.config_id s0 = Scenario.config_id s.
Proof.
  rewrite forallb_forall. split.
  - intros H s Hs. apply (bool_decide_eq_true_1 _), H. by apply list_elem_of_In.
  - intros H s Hs. apply bool_decide_eq_true_2, H. by apply list_elem_of_In.
Qed.

Lemma compare_short read (scs : list Scenario.t) cfgs dn :
  (length scs < 2)%nat ->
  _compare cfgs read scs dn = raise InsufficientScenarioToCompare.
Proof. destruct scs as [| s0 [| s1 scs]]; cbn; [done | done | lia]. Qed.

(** What [_compare] does with two scenarios or more, one case for each
    branch of the source. *)
Lemma compare_long read (scs : list Scenario.t) cfgs dn s0 :
  (2 <= length scs)%nat -> head scs = Some s0 ->
  _compare cfgs read scs dn
  = if negb (forallb (fun s => bool_decide (Scenario.config_id s0 = Scenario.config_id s)) scs)
    then raise DifferentScenarioConfigs
    else match cfgs !! Scenario.config_id s0 with
         | None => raise NonExistingScenarioConfig
         | Some cfg =>
             if truthy dn then
               match ScenarioConfig.comparators cfg !! default EmptyString dn with
               | Some cs =>
                   compare_each read scs
                     (map_to_list ({[default EmptyString dn := cs]}
                                   : gmap string (list (Comparator V)))) ∅
               | None => raise NonExistingComparator
               end
             else compare_each read scs (map_to_list (ScenarioConfig.comparators cfg)) ∅
         end.
Proof.
  destruct scs as [| s [| s1 scs]]; cbn [length]; [lia | lia |].
  intros _ [= ->]. unfold _compare, __get_config.
  destruct (negb _); [done |].
  destruct (cfgs !! _) as [cfg |]; [| done].
  destruct (truthy dn); [| done].
  by destruct (ScenarioConfig.comparators cfg !! _).
Qed.

Lemma same_config_head (scs : list Scenario.t) s0 :
  head scs = Some s0 ->
  (forall s, s ∈ scs -> Scenario.config_id s0 = Scenario.config_id s)
  <-> (forall s s', s ∈ scs -> s' ∈ scs -> Scenario.config_id s = Scenario.config_id s').
Proof.
  intros Hh. split.
  - intros H s s' Hs Hs'. by rewrite <- (H s Hs), <- (H s' Hs').
  - intros H s Hs. apply H; [| done].
    destruct scs as [| s1 scs]; [done |]. injection Hh as ->. left.
Qed.

Ltac compare_cases read scs l :=
  destruct (compare_each_outcome read scs l ∅) as [-> | [? ->]].

(** CLAIM C7. [_compare] raises [InsufficientScenarioToCompare] exactly
    when fewer than two scenarios are given; with two or more it raises
    [DifferentScenarioConfigs] exactly when they do not share one
    [config_id]; sharing one, it raises [NonExistingScenarioConfig] exactly
    when that configuration is unknown; and, a data node identity being
    given, it raises [NonExistingComparator] exactly when the configuration
    has no comparator for it. When the data nodes can be read it returns the
    mapping from data node identity to the mapping from comparator name to
    what the comparator returns on the values read. *)
Theorem compare_outcomes read (cfgs : gmap string (ScenarioConfig.t V))
    (scs : list Scenario.t) (dn : option string) :
  let r := _compare cfgs read scs dn in
  let same_config :=
    forall s s', s ∈ scs -> s' ∈ scs -> Scenario.config_id s = Scenario.config_id s' in
  let values d := mapM (fun s => read s d) scs in
  (r = raise InsufficientScenarioToCompare <-> (length scs < 2)%nat)
  /\ ((2 <= length scs)%nat ->
      (r = raise DifferentScenarioConfigs <-> ~ same_config)
      /\ (forall s0, head scs = Some s0 -> same_config ->
          (r = raise NonExistingScenarioConfig <-> cfgs !! Scenario.config_id s0 = None)
          /\ (forall cfg, cfgs !! Scenario.config_id s0 = Some cfg ->
              (forall d, dn = Some d -> d <> EmptyString ->
                 (r = raise NonExistingComparator
                  <-> ScenarioConfig.comparators cfg !! d = None)
                 /\ (forall cs vs,
                       ScenarioConfig.comparators cfg !! d = Some cs ->
                       values d = Some vs ->
                       r = ok {[d := apply_comparators cs vs]}))
              /\ (truthy dn = false ->
                  (forall d, is_Some (ScenarioConfig.comparators cfg !! d) ->
                             is_Some (values d)) ->
                  exists results,
                    r = ok results
                    /\ forall d,
                         results !! d
                         = ScenarioConfig.comparators cfg !! d
                             ≫= fun cs => apply_comparators cs <$> values d))))
  /\ (forall (cs : list (Comparator V)) vs c,
        NoDup (__name__ <$> cs) -> c ∈ cs ->
        apply_comparators cs vs !! __name__ c = Some (call c vs)).
Proof.
  intros r same_config values. subst r.
  assert (Hlong : (2 <= length scs)%nat -> exists s0, head scs = Some s0).
  { destruct scs as [| s0 scs]; cbn; [lia | eauto]. }
  split; [| split].
  - split; [| apply compare_short].
    intros Hr. destruct (decide (length scs < 2)%nat) as [| Hge]; [done |].
    exfalso. destruct Hlong as [s0 Hs0]; [lia |].
    rewrite (compare_long read scs cfgs dn s0) in Hr by (lia || done).
    destruct (negb _); [done |].
    destruct (cfgs !! _) as [cfg |]; [| done].
    destruct (truthy dn).
    + destruct (ScenarioConfig.comparators cfg !! _) as [cs |]; [| done].
      revert Hr. by compare_cases read scs (map_to_list ({[default EmptyString dn := cs]}
                                   : gmap string (list (Comparator V)))).
    + revert Hr. by compare_cases read scs (map_to_list (ScenarioConfig.comparators cfg)).
  - intros Hge. destruct (Hlong Hge) as [s0 Hs0].
    assert (Hiff : forallb (fun s => bool_decide (Scenario.config_id s0
                                                  = Scenario.config_id s)) scs = true
                   <-> same_config).
    { etransitivity; [apply forallb_same_config | by apply same_config_head]. }
    split.
    + rewrite (compare_long read scs cfgs dn s0) by done.
      destruct (forallb _ scs) eqn:Hf; cbn [negb].
      * split; [| intros Hn; exfalso; apply Hn, (proj1 Hiff eq_refl)].
        destruct (cfgs !! _) as [cfg |]; [| done].
        destruct (truthy dn).
        -- destruct (ScenarioConfig.comparators cfg !! _) as [cs |]; [| done].
           by compare_cases read scs (map_to_list ({[default EmptyString dn := cs]}
                                   : gmap string (list (Comparator V)))).
        -- by compare_cases read scs (map_to_list (ScenarioConfig.comparators cfg)).
      * split; [| done]. intros _ Hsame.
        apply (proj2 Hiff) in Hsame. congruence.
    + intros s0' Hs0' Hsame. assert (s0' = s0) as -> by congruence.
      rewrite (compare_long read scs cfgs dn s0) by done.
      apply (proj2 Hiff) in Hsame. rewrite Hsame. cbn [negb].
      split.
      * destruct (cfgs !! _) as [cfg |]; [| done].
        split; [| done].
        destruct (truthy dn).
        -- destruct (ScenarioConfig.comparators cfg !! _) as [cs |]; [| done].
           by compare_cases read scs (map_to_list ({[default EmptyString dn := cs]}
                                   : gmap string (list (Comparator V)))).
        -- by compare_cases read scs (map_to_list (ScenarioConfig.comparators cfg)).
      * intros cfg ->. split.
        -- intros d -> Hd.
           assert (truthy (Some d) = true) as ->.
           { cbn. by rewrite bool_decide_eq_false_2. }
           cbn [default from_option id].
           destruct (ScenarioConfig.comparators cfg !! d) as [cs |] eqn:Hcs.
           ++ rewrite map_to_list_singleton. split.
              ** split; [| done]. cbn [compare_each].
                 rewrite read_all_mapM. by destruct (mapM _ scs).
              ** intros cs' vs [= <-] Hvs. cbn [compare_each].
                 rewrite read_all_mapM. unfold values in Hvs. rewrite Hvs.
                 cbn. by rewrite insert_empty.
           ++ split; [done |]. by intros cs vs.
        -- intros ->. intros Hread.
           destruct (compare_each_ok read scs
                       (map_to_list (ScenarioConfig.comparators cfg)) ∅)
             as (results & Hrun & Hres).
           { apply NoDup_fst_map_to_list. }
           { intros d cs Hin. apply Hread. exists cs.
             by apply elem_of_map_to_list. }
           exists results. split; [done |].
           intros d. rewrite Hres, list_to_map_to_list.
           destruct (ScenarioConfig.comparators cfg !! d); [done |].
           by rewrite lookup_empty.
  - apply apply_comparators_lookup.
Qed.

End Compare.

End Invariant.

(* ===================================================================== *)
(** ** The operations end to end, and on the worked examples *)
(* ===================================================================== *)

Section Claims.
Import _ScenarioManager.
Import Examples.
Local Close Scope Z_scope.

(** ** The scenario manager *)

(** CLAIM C1. Hard-deleting a scenario that is not the master returns,
    removes the scenario record and nothing else from the repository, and
    asks the pipeline manager for exactly these hard deletes: one for every
    pipeline of the scenario whose [parent_id] is the scenario's identity
    or the pipeline's own identity. *)
Theorem hard_delete_cascades (k : Id) (s : Scenario.t) (w : World) :
  persisted w k s -> Scenario.is_master s = false ->
  exists w' issued,
    _hard_delete k w = (ok tt, w')
    /\ scenarios w' = delete k (scenarios w)
    /\ cycles w' = cycles w
    /\ pm_requests w' = pm_requests w ++ issued
    /\ forall r,
         In r issued <->
         exists cfg p,
           Scenario.pipelines s !! cfg = Some p
           /\ (Pipeline.parent_id p = Some (Scenario.id s)
               \/ Pipeline.parent_id p = Some (Pipeline.id p))
           /\ r = PMHardDelete (Pipeline.id p) (Scenario.id s).
Proof.
  intros Hk Hm. eexists _, (hard_delete_requests s).
  split; [by apply hard_delete_run |].
  cbn. repeat split; try done; by apply In_hard_delete_requests.
Qed.

Lemma hard_delete_cascades_witness :
  persisted w_keeper 1 keeper /\ Scenario.is_master keeper = false
  /\ exists w' issued,
       _hard_delete 1 w_keeper = (ok tt, w')
       /\ scenarios w' = delete 1 (scenarios w_keeper)
       /\ cycles w' = cycles w_keeper
       /\ pm_requests w' = pm_requests w_keeper ++ issued
       /\ forall r,
            In r issued <->
            exists cfg p,
              Scenario.pipelines keeper !! cfg = Some p
              /\ (Pipeline.parent_id p = Some (Scenario.id keeper)
                  \/ Pipeline.parent_id p = Some (Pipeline.id p))
              /\ r = PMHardDelete (Pipeline.id p) (Scenario.id keeper).
Proof.
  split; [vm_compute; reflexivity |]. split; [reflexivity |].
  apply hard_delete_cascades; vm_compute; reflexivity.
Defined.

(** The pipeline [self_parented] of [keeper] has its own identity as
    [parent_id], not the scenario's, and the hard delete of [keeper] asks
    for its hard delete; the pipeline [foreign], owned by another scenario,
    is left alone. *)
Lemma self_parented_pipeline_is_cascaded :
  Scenario.pipelines keeper !! "report" = Some self_parented
  /\ Pipeline.parent_id self_parented = Some (Pipeline.id self_parented)
  /\ Pipeline.parent_id self_parented <> Some (Scenario.id keeper)
  /\ Scenario.is_master keeper = false
  /\ _hard_delete 1 w_keeper
     = (ok tt,
        mkWorld ∅ ∅
          [PMHardDelete (Pipeline.id owned) 1;
           PMHardDelete (Pipeline.id self_parented) 1] 2).
Proof.
  split; [vm_compute; reflexivity |]. split; [reflexivity |].
  split; [vm_compute; congruence |]. split; [reflexivity |].
  vm_compute. reflexivity.
Qed.

(** CLAIM C4. [_set_master B] raises [DoesNotBelongToACycle] and changes
    nothing when [B] has no cycle. When [B] belongs to a cycle whose only
    master is [A]: before the call [_get_master] answers [A]; the call
    returns, persists [A] without the flag and then [B] with it, and
    afterwards [_get_master] answers [B]. *)
Theorem set_master_elects (w : World) (A B : Scenario.t) :
  (Scenario.cycle B = None ->
   _set_master B w = (raise DoesNotBelongToACycle, w))
  /\ (forall c,
        Scenario.cycle B = Some c ->
        persisted w (Scenario.id A) A ->
        in_cycle c A = true -> Scenario.is_master A = true ->
        (length (masters_of w c) <= 1)%nat ->
        Scenario.id A <> Scenario.id B ->
        let A' := Scenario.set_master_scenario A false in
        let B' := Scenario.set_master_scenario B true in
        let w' := with_scenarios w (put B' (put A' (scenarios w))) in
        _get_master c w = (ok (Some A), w)
        /\ _set_master B w = (ok B', w')
        /\ persisted w' (Scenario.id A) A' /\ Scenario.is_master A' = false
        /\ persisted w' (Scenario.id B) B' /\ Scenario.is_master B' = true
        /\ _get_master c w' = (ok (Some B'), w')).
Proof.
  split; [apply set_master_no_cycle |].
  intros c. apply set_master_transfers.
Qed.

Lemma set_master_elects_witness :
  _set_master C w6 = (raise DoesNotBelongToACycle, w6)
  /\ _get_master week w2 = (ok (Some A), w2)
  /\ _set_master B w2 = (ok B_master, w3)
  /\ persisted w3 (Scenario.id A) (Scenario.set_master_scenario A false)
  /\ persisted w3 (Scenario.id B) B_master
  /\ Scenario.is_master B_master = true
  /\ _get_master week w3 = (ok (Some B_master), w3).
Proof.
  split; [by apply (set_master_elects w6 A) |].
  destruct (set_master_elects w2 A B) as [_ H].
  destruct (H week) as (H1 & H2 & H3 & _ & H5 & H6 & H7);
    [vm_compute; reflexivity | vm_compute; reflexivity | vm_compute; reflexivity
    | vm_compute; reflexivity | vm_compute; lia | vm_compute; lia |].
  repeat split; assumption.
Defined.

Lemma tag_transfers_witness :
  unauthorized B "best" = false
  /\ Scenario.cycle B = Some week
  /\ persisted w_best (Scenario.id A_best) A_best
  /\ Scenario.has_tag A_best "best" = true
  /\ _get_by_tag week "best" w_best = (ok (Some A_best), w_best)
  /\ fst (_tag B "best" w_best) = ok (Scenario._add_tag B "best")
  /\ persisted (snd (_tag B "best" w_best)) (Scenario.id A_best)
       (Scenario.remove_tag A_best "best")
  /\ persisted (snd (_tag B "best" w_best)) (Scenario.id B)
       (Scenario._add_tag B "best")
  /\ _get_by_tag week "best" (snd (_tag B "best" w_best))
     = (ok (Some (Scenario._add_tag B "best")), snd (_tag B "best" w_best)).
Proof.
  destruct (tag_transfers w_best A_best B week "best")
    as (H1 & H2 & H3 & _ & H5 & _ & H7);
    [vm_compute; reflexivity | vm_compute; reflexivity | vm_compute; reflexivity
    | vm_compute; reflexivity | vm_compute; reflexivity | vm_compute; lia
    | vm_compute; lia |].
  rewrite H2. cbn [fst snd].
  repeat split; try assumption; vm_compute; reflexivity.
Defined.

Lemma create_elects_first_witness :
  ScenarioConfig.frequency weekly_config = Some WEEKLY
  /\ exists s1 w1 s2 w2,
       _create pm wednesday weekly_config None None empty_world = (ok s1, w1)
       /\ Scenario.is_master s1 = true
       /\ _create pm thursday weekly_config None None w1 = (ok s2, w2)
       /\ Scenario.cycle s2 = Scenario.cycle s1
       /\ Scenario.is_master s2 = false.
Proof.
  split; [reflexivity |].
  destruct (create_elects_first pm weekly_config weekly_config WEEKLY
              wednesday thursday None None None None empty_world)
    as [Hret Hrun]; [reflexivity | reflexivity |].
  destruct (Hret (Py.combine_midnight (Py.mkdate 2022 3 14))
                 (Py.mkdatetime (Py.mkdate 2022 3 20) 23 59 59 999999))
    as (s1 & w1 & Hs1); [vm_compute; reflexivity | vm_compute; reflexivity |].
  destruct (Hrun s1 w1 Hs1) as (c & Hc & _ & Hm & Hsecond).
  destruct Hsecond as (s2 & w2 & Hs2 & Hc2 & Hm2); [vm_compute; reflexivity |].
  exists s1, w1, s2, w2. repeat split; try assumption.
  - apply Hm. reflexivity.
  - congruence.
Defined.

(** CLAIM C6. The guards fail before anything is written: tagging with a
    tag outside a non-empty set of authorized tags raises
    [UnauthorizedTagError], deleting and hard-deleting a master scenario
    raise [DeletingMasterScenario], and each leaves the world as it was. *)
Theorem guards_fail_fast (w : World) (s : Scenario.t) (tag : string)
    (ts : gset string) (k : Id) :
  (Scenario.properties s !! _AUTHORIZED_TAGS_KEY = Some (PTags ts) ->
   ts <> ∅ -> tag ∉ ts ->
   _tag s tag w = (raise UnauthorizedTagError, w))
  /\ (persisted w k s -> Scenario.is_master s = true ->
      _delete k w = (raise DeletingMasterScenario, w)
      /\ _hard_delete k w = (raise DeletingMasterScenario, w)).
Proof.
  split.
  - intros Hp Hne Hnin. apply tag_unauthorized.
    by apply (unauthorized_tags s tag ts Hp).
  - intros Hk Hm. split; [by apply (delete_master k s) | by apply (hard_delete_master k s)].
Qed.

Lemma guards_fail_fast_witness :
  _tag guarded "draft" w_guarded = (raise UnauthorizedTagError, w_guarded)
  /\ _delete (Scenario.id A) w2 = (raise DeletingMasterScenario, w2)
  /\ _hard_delete (Scenario.id A) w2 = (raise DeletingMasterScenario, w2).
Proof.
  split.
  - apply (guards_fail_fast w_guarded guarded "draft" {["final"]} 0%nat);
      [vm_compute; reflexivity | vm_compute; discriminate | apply (bool_decide_unpack _); vm_compute; exact I].
  - apply (guards_fail_fast w2 A "draft" ∅ (Scenario.id A));
      vm_compute; reflexivity.
Defined.

(** ** The cycle manager *)

(** CLAIM C9. [_get_or_create] for an instant whose bucket has a start and
    an end returns a cycle. A second call for an instant with the same
    bucket start returns that very cycle and creates nothing; a second call
    for an instant of another bucket returns a cycle of another identity. *)
Theorem get_or_create_identity (F : Frequency) (w : World)
    (now1 now2 : Py.datetime) (cd1 cd2 : option Py.datetime)
    (dn1 dn2 : option string) (s1 e1 : Py.datetime) :
  let T1 := default now1 cd1 in
  let T2 := default now2 cd2 in
  cycles_well_formed w ->
  _CycleManager._get_start_date_of_cycle F T1 = ok s1 ->
  _CycleManager._get_end_date_of_cycle F s1 = ok e1 ->
  exists c1 w1,
    _CycleManager._get_or_create now1 F cd1 dn1 w = (ok c1, w1)
    /\ (_CycleManager._get_start_date_of_cycle F T2 = ok s1 ->
        _CycleManager._get_or_create now2 F cd2 dn2 w1 = (ok c1, w1))
    /\ (forall s2 e2,
          _CycleManager._get_start_date_of_cycle F T2 = ok s2 ->
          _CycleManager._get_end_date_of_cycle F s2 = ok e2 ->
          s2 <> s1 ->
          exists c2 w2,
            _CycleManager._get_or_create now2 F cd2 dn2 w1 = (ok c2, w2)
            /\ Cycle.id c2 <> Cycle.id c1).
Proof.
  intros T1 T2 Hwf Hs1 He1.
  destruct (get_or_create_identity_aux F w now1 now2 cd1 cd2 dn1 dn2)
    as (Hsame & Hdiff & Hret).
  destruct (Hret s1 e1 Hs1 He1) as (c1 & w1 & Hrun1).
  exists c1, w1. split; [exact Hrun1 |]. split.
  - intros Hs2. apply Hsame; [| exact Hrun1]. fold T1 T2. congruence.
  - intros s2 e2 Hs2 He2 Hne.
    destruct (get_or_create_identity_aux F w1 now2 now2 cd2 cd2 dn2 dn2)
      as (_ & _ & Hret2).
    destruct (Hret2 s2 e2 Hs2 He2) as (c2 & w2 & Hrun2).
    exists c2, w2. split; [exact Hrun2 |].
    intros Heq. symmetry in Heq. revert Heq.
    apply (Hdiff Hwf) with (w1 := w1) (w2 := w2); [| exact Hrun1 | exact Hrun2].
    fold T1 T2. rewrite Hs1, Hs2. unfold ok. congruence.
Qed.

Lemma get_or_create_identity_witness :
  cycles_well_formed empty_world
  /\ exists c1 w1,
       _CycleManager._get_or_create wednesday WEEKLY None None empty_world
       = (ok c1, w1)
       /\ _CycleManager._get_or_create thursday WEEKLY None None w1 = (ok c1, w1)
       /\ exists c2 w2,
            _CycleManager._get_or_create next_monday WEEKLY None None w1
            = (ok c2, w2)
            /\ Cycle.id c2 <> Cycle.id c1.
Proof.
  assert (Hwf : cycles_well_formed empty_world).
  { intros k c Hk. vm_compute in Hk. discriminate. }
  split; [exact Hwf |].
  destruct (get_or_create_identity WEEKLY empty_world wednesday thursday
              None None None None
              (Py.combine_midnight (Py.mkdate 2022 3 14))
              (Py.mkdatetime (Py.mkdate 2022 3 20) 23 59 59 999999))
    as (c1 & w1 & Hrun & Hsame & _);
    [exact Hwf | vm_compute; reflexivity | vm_compute; reflexivity |].
  destruct (get_or_create_identity WEEKLY empty_world wednesday next_monday
              None None None None
              (Py.combine_midnight (Py.mkdate 2022 3 14))
              (Py.mkdatetime (Py.mkdate 2022 3 20) 23 59 59 999999))
    as (c1' & w1' & Hrun' & _ & Hdiff);
    [exact Hwf | vm_compute; reflexivity | vm_compute; reflexivity |].
  rewrite Hrun in Hrun'. injection Hrun' as <- <-.
  exists c1, w1. split; [exact Hrun |]. split; [apply Hsame; vm_compute; reflexivity |].
  apply (Hdiff (Py.combine_midnight (Py.mkdate 2022 3 21))
               (Py.mkdatetime (Py.mkdate 2022 3 27) 23 59 59 999999));
    [vm_compute; reflexivity | vm_compute; reflexivity | vm_compute; congruence].
Defined.

(** ** Tags outside cycles *)

Lemma get_all_by_tag_run (tag : string) (w : World) :
  _get_all_by_tag tag w
  = (ok (List.filter (fun s => Scenario.has_tag s tag) (all_scenarios w)), w).
Proof. reflexivity. Qed.

(** CLAIM C10. Tagging a scenario without a cycle with an authorized tag
    returns, persists the scenario with the tag and leaves every other
    record as it was; a second scenario without a cycle can then take the
    same tag, and [_get_all_by_tag] finds both holding it. *)
Theorem tag_without_cycle (w : World) (s : Scenario.t) (tag : string) :
  Scenario.cycle s = None -> unauthorized s tag = false ->
  let s' := Scenario._add_tag s tag in
  let w' := with_scenarios w (put s' (scenarios w)) in
  _tag s tag w = (ok s', w')
  /\ Scenario.has_tag s' tag = true
  /\ (forall k, k <> Scenario.id s -> scenarios w' !! k = scenarios w !! k)
  /\ (forall s2,
        Scenario.cycle s2 = None -> unauthorized s2 tag = false ->
        Scenario.id s2 <> Scenario.id s ->
        exists w'' held,
          _tag s2 tag w' = (ok (Scenario._add_tag s2 tag), w'')
          /\ _get_all_by_tag tag w'' = (ok held, w'')
          /\ In s' held /\ In (Scenario._add_tag s2 tag) held).
Proof.
  intros Hc Hu s' w'.
  assert (Hrun : forall x v, Scenario.cycle x = None -> unauthorized x tag = false ->
            _tag x tag v
            = (ok (Scenario._add_tag x tag),
               with_scenarios v (put (Scenario._add_tag x tag) (scenarios v)))).
  { intros x v Hx Hux. rewrite (tag_run x tag v Hux). by rewrite Hx. }
  split; [by apply Hrun |]. split; [apply has_tag_add |]. split.
  - intros k Hk. unfold w', with_scenarios, put. cbn.
    by rewrite lookup_insert_ne.
  - intros s2 Hc2 Hu2 Hne.
    eexists _, _. split; [by apply Hrun |].
    split; [apply get_all_by_tag_run |].
    split; apply filter_In; (split; [| apply has_tag_add]); apply elem_of_all.
    + exists (Scenario.id s). apply persisted_put. right.
      split; [cbn; congruence |].
      unfold w', with_scenarios, put. cbn. by rewrite lookup_insert_eq.
    + exists (Scenario.id s2). apply persisted_put. by left.
Qed.

Lemma tag_without_cycle_witness :
  Scenario.cycle C = None /\ unauthorized C "best" = false
  /\ Scenario.cycle D = None /\ unauthorized D "best" = false
  /\ Scenario.id D <> Scenario.id C
  /\ exists w' w'' held,
       _tag C "best" w6 = (ok (Scenario._add_tag C "best"), w')
       /\ _tag D "best" w' = (ok (Scenario._add_tag D "best"), w'')
       /\ _get_all_by_tag "best" w'' = (ok held, w'')
       /\ In (Scenario._add_tag C "best") held
       /\ In (Scenario._add_tag D "best") held.
Proof.
  split; [reflexivity |]. split; [reflexivity |].
  split; [reflexivity |]. split; [reflexivity |].
  split; [vm_compute; lia |].
  destruct (tag_without_cycle w6 C "best") as (H1 & _ & _ & H4);
    [reflexivity | reflexivity |].
  destruct (H4 D) as (w'' & held & H5 & H6 & H7 & H8);
    [reflexivity | reflexivity | vm_compute; lia |].
  eexists _, w'', held. repeat split; eassumption.
Defined.

(** ** The master invariant on concrete worlds *)

Lemma master_invariant_kept_witness :
  reachable pm w2 /\ step pm w2 w3
  /\ one_master_per_cycle w2 /\ one_master_per_cycle w3
  /\ (forall c, scenarios_of w2 c <> [] -> scenarios_of w3 c <> []).
Proof.
  assert (Hr : reachable pm w2).
  { apply (rtc_l _ _ w1);
      [exact (step_create pm empty_world wednesday weekly_config None None) |].
    apply (rtc_l _ _ w2);
      [exact (step_create pm w1 thursday weekly_config None None) |].
    apply rtc_refl. }
  assert (Hs : step pm w2 w3).
  { apply (step_set_master pm w2 B). exists B.
    repeat split; vm_compute; reflexivity. }
  split; [exact Hr |]. split; [exact Hs |].
  exact (master_invariant_kept pm w2 w3 Hr Hs).
Defined.

(** The scenario [A] was the first of its week and so the master. After
    [B] is made the master, the record of [A] says so, but the [A] the
    caller holds still carries the flag; untagging that [A] persists it,
    and the week has two masters. *)
Lemma stale_scenario_restores_master :
  _create pm wednesday weekly_config None None empty_world = (ok A, w1)
  /\ _create pm thursday weekly_config None None w1 = (ok B, w2)
  /\ _set_master B w2 = (ok B_master, w3)
  /\ Scenario.cycle A = Some week /\ Scenario.cycle B = Some week
  /\ masters_of w3 week = [B_master]
  /\ persisted w3 (Scenario.id A) (Scenario.set_master_scenario A false)
  /\ _untag A "draft" w3 = (ok A, w4)
  /\ masters_of w4 week = [B_master; A]
  /\ rtc (step_any pm) empty_world w4
  /\ ~ one_master_per_cycle w4.
Proof.
  do 9 (split; [vm_compute; reflexivity |]).
  split.
  - apply (rtc_l _ _ w1); [exact (any_create pm empty_world wednesday weekly_config None None) |].
    apply (rtc_l _ _ w2); [exact (any_create pm w1 thursday weekly_config None None) |].
    apply (rtc_l _ _ w3); [exact (any_set_master pm w2 B) |].
    apply (rtc_l _ _ w4); [exact (any_untag pm w3 A "draft") |].
    apply rtc_refl.
  - intros H. destruct (H week) as [Hle _]. vm_compute in Hle. lia.
Qed.

(** ** Comparison on concrete scenarios *)

Lemma compare_outcomes_witness :
  _compare configs revenue [A] None = raise InsufficientScenarioToCompare
  /\ _compare configs revenue [A; C] None = raise DifferentScenarioConfigs
  /\ _compare configs revenue [A; B] (Some "cost") = raise NonExistingComparator
  /\ _compare configs revenue [A; B] (Some "revenue")
     = ok {["revenue" := apply_comparators [total] [10; 12]%Z]}
  /\ apply_comparators [total] [10; 12]%Z !! "total" = Some 22%Z.
Proof.
  split; [| split; [| split; [| split]]].
  - apply (compare_outcomes revenue configs [A] None). cbn. lia.
  - destruct (compare_outcomes revenue configs [A; C] None) as (_ & H & _).
    destruct H as [H _]; [cbn; lia |]. apply H.
    intros Hsame. specialize (Hsame A C). vm_compute in Hsame.
    assert (Hx : "sales" = "adhoc") by (apply Hsame; [left | right; left]).
    discriminate Hx.
  - destruct (compare_outcomes revenue configs [A; B] (Some "cost")) as (_ & H & _).
    destruct H as [_ H]; [cbn; lia |].
    destruct (H A) as [_ Hcfg]; [reflexivity | |].
    { intros s s' Hs Hs'.
      apply elem_of_cons in Hs as [-> | Hs]; [| apply list_elem_of_singleton in Hs as ->];
        (apply elem_of_cons in Hs' as [-> | Hs'];
         [| apply list_elem_of_singleton in Hs' as ->]); reflexivity. }
    destruct (Hcfg compared_config) as [Hgiven _]; [vm_compute; reflexivity |].
    destruct (Hgiven "cost") as [Hnone _]; [reflexivity | discriminate |].
    apply Hnone. vm_compute. reflexivity.
  - destruct (compare_outcomes revenue configs [A; B] (Some "revenue")) as (_ & H & _).
    destruct H as [_ H]; [cbn; lia |].
    destruct (H A) as [_ Hcfg]; [reflexivity | |].
    { intros s s' Hs Hs'.
      apply elem_of_cons in Hs as [-> | Hs]; [| apply list_elem_of_singleton in Hs as ->];
        (apply elem_of_cons in Hs' as [-> | Hs'];
         [| apply list_elem_of_singleton in Hs' as ->]); reflexivity. }
    destruct (Hcfg compared_config) as [Hgiven _]; [vm_compute; reflexivity |].
    destruct (Hgiven "revenue") as [_ Hsome]; [reflexivity | discriminate |].
    apply Hsome; vm_compute; reflexivity.
  - destruct (compare_outcomes revenue configs [A; B] None) as (_ & _ & H).
    apply (H [total] [10; 12]%Z total); [| left].
    cbn. apply NoDup_singleton.
Defined.

End Claims.

(* ===================================================================== *)
(** ** The buckets of the calendar *)
(* ===================================================================== *)

Section Buckets.
Import Py.
Import _CycleManager.

(** *** Days of a month and of a year, by ordinal *)

Lemma toordinal_day (y m d : Z) :
  toordinal (mkdate y m d) = toordinal (mkdate y m 1) + d - 1.
Proof. unfold toordinal, _ymd2ord. cbn. lia. Qed.

Lemma valid_first_of_month (d : date) :
  valid_date d = true -> valid_date (mkdate (year d) (month d) 1) = true.
Proof.
  intros Hv. apply valid_date_iff in Hv. apply valid_date_iff.
  cbn [year month day]. lia.
Qed.

Lemma valid_first_of_year (d : date) :
  valid_date d = true -> valid_date (mkdate (year d) 1 1) = true.
Proof.
  intros Hv. apply valid_date_iff in Hv. apply valid_date_iff.
  cbn [year month day]. unfold dim_of. cbn. lia.
Qed.

Lemma date_eta (d : date) : mkdate (year d) (month d) (day d) = d.
Proof. by destruct d. Qed.

(** A valid day whose ordinal falls among those of a month is a day of
    that month. *)
Lemma ordinal_in_month (y m : Z) (d : date) :
  valid_date (mkdate y m 1) = true -> valid_date d = true ->
  toordinal (mkdate y m 1) <= toordinal d
    < toordinal (mkdate y m 1) + _days_in_month y m ->
  year d = y /\ month d = m.
Proof.
  intros Hs Hd Hin.
  set (k := toordinal d - toordinal (mkdate y m 1)).
  assert (Hc : valid_date (mkdate y m (1 + k)) = true).
  { apply valid_date_iff in Hs. apply valid_date_iff.
    cbn [year month day] in *.
    rewrite <- days_in_month_dim. unfold k. lia. }
  assert (Heq : d = mkdate y m (1 + k)).
  { apply toordinal_inj; [done | done |].
    rewrite (toordinal_day y m (1 + k)). unfold k. lia. }
  by rewrite Heq.
Qed.

Lemma year_length (y : Z) :
  1 <= y ->
  toordinal (mkdate (y + 1) 1 1)
  = toordinal (mkdate y 1 1) + (if _is_leap y then 366 else 365).
Proof.
  intros Hy. unfold toordinal, _ymd2ord. cbn [year month day].
  rewrite (days_before_year_succ y Hy).
  unfold _days_before_month. cbn. lia.
Qed.

(** A valid day whose ordinal falls among those of a year is a day of that
    year. *)
Lemma ordinal_in_year (y : Z) (d : date) :
  valid_date (mkdate y 1 1) = true -> valid_date d = true ->
  toordinal (mkdate y 1 1) <= toordinal d
    < toordinal (mkdate y 1 1) + (if _is_leap y then 366 else 365) ->
  year d = y.
Proof.
  intros Hs Hd Hin.
  set (k := toordinal d - toordinal (mkdate y 1 1)).
  assert (Hk : 0 <= k < 365 + (if _is_leap y then 1 else 0)).
  { unfold k. destruct (_is_leap y); lia. }
  pose proof (month_day_spec (_is_leap y) k Hk) as Hmd.
  destruct (_month_day (_is_leap y) k) as [m dd].
  destruct Hmd as (Hm & Hdd & Hsum).
  assert (Hy : 1 <= y <= 9999).
  { apply valid_date_iff in Hs. cbn [year month day] in Hs. lia. }
  assert (Hc : valid_date (mkdate y m dd) = true).
  { apply valid_date_iff. cbn [year month day]. lia. }
  assert (Heq : d = mkdate y m dd).
  { apply toordinal_inj; [done | done |].
    unfold toordinal, _ymd2ord in *. cbn [year month day] in *.
    rewrite (days_before_month_adj y m).
    unfold _days_before_month in *. cbn in k, Hin. unfold k in *. lia. }
  by rewrite Heq.
Qed.

Lemma day_of_year_in_range (d : date) :
  valid_date d = true ->
  toordinal (mkdate (year d) 1 1) <= toordinal d
    < toordinal (mkdate (year d) 1 1) + (if _is_leap (year d) then 366 else 365).
Proof.
  intros Hv. apply valid_date_iff in Hv. destruct Hv as (Hy & Hm & Hd).
  pose proof (day_of_year_bounds (_is_leap (year d)) (month d) (day d) Hm Hd) as Hb.
  unfold toordinal, _ymd2ord. cbn [year month day].
  rewrite !days_before_month_adj. cbn [_DAYS_BEFORE_MONTH leap_adj].
  unfold leap_adj at 1. cbn.
  destruct (_is_leap (year d)); lia.
Qed.

Lemma start_first_day (F : Frequency) (T : datetime) :
  valid_date (dt_date T) = true ->
  _get_start_date_of_cycle F T = ok (combine_midnight (first_day F (dt_date T)))
  /\ valid_date (first_day F (dt_date T)) = true.
Proof.
  intros Hv. destruct F; cbn [first_day].
  - split; [apply start_daily | done].
  - destruct (start_weekly T Hv) as (Hs & Hr & _). split; [exact Hs |].
    by apply toordinal_fromordinal.
  - split; [by apply start_monthly | by apply valid_first_of_month].
  - split; [by apply start_yearly | by apply valid_first_of_year].
Qed.

Lemma week_start_ordinal (d : date) :
  valid_date d = true ->
  exists o,
    o = toordinal d - weekday d
    /\ valid_date (fromordinal o) = true
    /\ toordinal (fromordinal o) = o
    /\ (o + 6) mod 7 = 0.
Proof.
  intros Hv. exists (toordinal d - weekday d).
  pose proof (toordinal_bounds d Hv) as Hb.
  pose proof (weekday_range d) as Hw.
  assert (Hr : 1 <= toordinal d - weekday d <= _MAXORDINAL).
  { unfold weekday in *. split; [| lia].
    assert (1 <= (toordinal d + 6) / 7) by (apply Z.div_le_lower_bound; lia).
    pose proof (Z.div_mod (toordinal d + 6) 7 ltac:(lia)) as Hdm.
    lia. }
  destruct (toordinal_fromordinal _ Hr) as [Hvo Ho].
  split; [reflexivity |]. split; [exact Hvo |]. split; [exact Ho |].
  unfold weekday.
  replace (toordinal d - (toordinal d + 6) mod 7 + 6)
    with (toordinal d + 6 - (toordinal d + 6) mod 7) by lia.
  rewrite Zminus_mod, Z.mod_mod by lia.
  by rewrite Z.sub_diag.
Qed.

Lemma same_week_iff (d d' : date) :
  valid_date d = true -> valid_date d' = true ->
  let s := fromordinal (toordinal d - weekday d) in
  fromordinal (toordinal d' - weekday d') = s
  <-> toordinal s <= toordinal d' < toordinal s + 7.
Proof.
  intros Hd Hd'.
  destruct (week_start_ordinal d Hd) as (o & <- & Hvo & Ho & Hmon).
  destruct (week_start_ordinal d' Hd') as (o' & Heq' & Hvo' & Ho' & Hmon').
  rewrite <- Heq'. cbv zeta. rewrite Ho.
  pose proof (weekday_range d') as Hw'.
  split.
  - intros Heq. rewrite <- Heq in Ho. lia.
  - intros Hin. apply toordinal_inj; [exact Hvo' | exact Hvo |].
    rewrite Ho, Ho'.
    assert (Hk : weekday d' = toordinal d' - o).
    { unfold weekday. symmetry.
      apply (Z.mod_unique_pos _ 7 ((o + 6) / 7)); [lia |].
      pose proof (Z.div_mod (o + 6) 7 ltac:(lia)). lia. }
    lia.
Qed.

Lemma same_first_day_iff (F : Frequency) (d d' : date) :
  valid_date d = true -> valid_date d' = true ->
  let s := first_day F d in
  first_day F d' = s
  <-> toordinal s <= toordinal d' < toordinal s + bucket_days F s.
Proof.
  intros Hd Hd' s. subst s. destruct F; cbn [first_day bucket_days].
  - split; [intros ->; lia |].
    intros H. apply toordinal_inj; [done | done | lia].
  - by apply same_week_iff.
  - set (y := year d). set (m := month d).
    pose proof (valid_first_of_month d Hd) as Hvs. fold y m in Hvs.
    split.
    + intros [= Hy Hm].
      rewrite <- (date_eta d'), Hy, Hm, (toordinal_day y m (day d')).
      apply valid_date_iff in Hd'. rewrite Hy, Hm in Hd'.
      cbn [year month day]. rewrite days_in_month_dim. lia.
    + intros Hin. destruct (ordinal_in_month y m d' Hvs Hd' Hin) as [-> ->]. done.
  - set (y := year d).
    pose proof (valid_first_of_year d Hd) as Hvs. fold y in Hvs.
    cbn [year].
    split.
    + intros [= Hy]. pose proof (day_of_year_in_range d' Hd') as Hr.
      by rewrite Hy in Hr.
    + intros Hin. by rewrite (ordinal_in_year y d' Hvs Hd' Hin).
Qed.

(** *** The buckets partition the calendar *)

(** PROPERTY X1. Two instants have the same bucket start exactly when the
    day of the second falls among the days of the bucket of the first; in particular
    an instant falls in its own bucket. *)
Theorem same_bucket_iff (F : Frequency) (T T' : datetime) :
  valid_date (dt_date T) = true -> valid_date (dt_date T') = true ->
  let s := first_day F (dt_date T) in
  _get_start_date_of_cycle F T = ok (combine_midnight s)
  /\ toordinal s <= toordinal (dt_date T) < toordinal s + bucket_days F s
  /\ (_get_start_date_of_cycle F T' = _get_start_date_of_cycle F T
      <-> toordinal s <= toordinal (dt_date T') < toordinal s + bucket_days F s).
Proof.
  intros Hv Hv' s. subst s.
  destruct (start_first_day F T Hv) as [Hs _].
  destruct (start_first_day F T' Hv') as [Hs' _].
  split; [exact Hs |]. split.
  - by apply (same_first_day_iff F (dt_date T) (dt_date T) Hv Hv).
  - rewrite Hs, Hs'.
    rewrite <- (same_first_day_iff F (dt_date T) (dt_date T') Hv Hv').
    split; [| by intros ->].
    unfold ok, combine_midnight. by intros [= ->].
Qed.

Lemma same_bucket_iff_witness :
  valid_date (dt_date (mkdatetime (mkdate 2024 2 10) 8 0 0 0)) = true
  /\ valid_date (dt_date (mkdatetime (mkdate 2024 2 29) 23 59 59 999999)) = true
  /\ _get_start_date_of_cycle MONTHLY (mkdatetime (mkdate 2024 2 29) 23 59 59 999999)
     = _get_start_date_of_cycle MONTHLY (mkdatetime (mkdate 2024 2 10) 8 0 0 0).
Proof.
  split; [reflexivity |]. split; [reflexivity |].
  apply (same_bucket_iff MONTHLY (mkdatetime (mkdate 2024 2 10) 8 0 0 0)
           (mkdatetime (mkdate 2024 2 29) 23 59 59 999999));
    [reflexivity | reflexivity |].
  vm_compute. split; [discriminate | reflexivity].
Defined.

(** *** The span of a bucket *)

Lemma weekday_first_day (d : date) :
  valid_date d = true -> weekday (first_day WEEKLY d) = 0.
Proof.
  intros Hv. destruct (week_start_ordinal d Hv) as (o & -> & _ & Ho & Hmon).
  unfold weekday, first_day. by rewrite Ho.
Qed.

Lemma toordinal_last_of_year (y : Z) :
  toordinal (mkdate y 12 31)
  = toordinal (mkdate y 1 1) + (if _is_leap y then 366 else 365) - 1.
Proof.
  unfold toordinal, _ymd2ord, _days_before_month. cbn.
  destruct (_is_leap y); lia.
Qed.

Lemma bucket_end (F : Frequency) (T : datetime) :
  valid_date (dt_date T) = true ->
  let s := first_day F (dt_date T) in
  _get_end_date_of_cycle F (combine_midnight s)
  = if toordinal s + bucket_days F s <=? _MAXORDINAL
    then ok (last_instant (fromordinal (toordinal s + bucket_days F s - 1)))
    else raise OverflowError.
Proof.
  intros Hv s. destruct (start_first_day F T Hv) as [_ Hvs]. fold s in Hvs.
  destruct F; cbn [bucket_days].
  - rewrite (end_daily s Hvs).
    replace (toordinal s + 1 - 1) with (toordinal s) by lia.
    by rewrite (fromordinal_toordinal s Hvs).
  - rewrite (end_weekly s Hvs (weekday_first_day _ Hv)).
    by replace (toordinal s + 7 - 1) with (toordinal s + 6) by lia.
  - destruct (end_monthly s Hvs) as [Hve ->].
    subst s. cbn [first_day year month] in *.
    pose proof (toordinal_day (year (dt_date T)) (month (dt_date T))
                  (_days_in_month (year (dt_date T)) (month (dt_date T)))) as He.
    pose proof (fromordinal_toordinal _ Hve) as Hf.
    rewrite He in Hf. rewrite Hf.
    by replace (toordinal (mkdate (year (dt_date T)) (month (dt_date T))
                         (_days_in_month (year (dt_date T)) (month (dt_date T)))) + 1)
      with (toordinal (mkdate (year (dt_date T)) (month (dt_date T)) 1)
            + _days_in_month (year (dt_date T)) (month (dt_date T))) by lia.
  - destruct (end_yearly s Hvs) as [Hve ->].
    subst s. cbn [first_day year month] in *.
    pose proof (toordinal_last_of_year (year (dt_date T))) as He.
    pose proof (fromordinal_toordinal _ Hve) as Hf.
    rewrite He in Hf. rewrite Hf.
    by replace (toordinal (mkdate (year (dt_date T)) 12 31) + 1)
      with (toordinal (mkdate (year (dt_date T)) 1 1)
            + (if _is_leap (year (dt_date T)) then 366 else 365)) by lia.
Qed.

(** PROPERTY X2. The bucket of an instant runs from midnight of its first
    day to the last microsecond of its last day, and has 1 day, 7 days, the
    days of the month, or the 365 or 366 days of the year; when its last
    day would be the last of the calendar or later, no end is computed:
    [OverflowError] is raised. *)
Theorem bucket_span (F : Frequency) (T : datetime) :
  valid_date (dt_date T) = true ->
  let s := first_day F (dt_date T) in
  let e := fromordinal (toordinal s + bucket_days F s - 1) in
  (toordinal s + bucket_days F s <= _MAXORDINAL ->
   _get_end_date_of_cycle F (combine_midnight s) = ok (last_instant e)
   /\ valid_date e = true
   /\ toordinal e - toordinal s + 1 = bucket_days F s)
  /\ (_MAXORDINAL < toordinal s + bucket_days F s ->
      _get_end_date_of_cycle F (combine_midnight s) = raise OverflowError)
  /\ 1 <= bucket_days F s <= 366.
Proof.
  intros Hv s e. pose proof (bucket_end F T Hv) as He. cbv zeta in He.
  fold s in He. destruct (start_first_day F T Hv) as [_ Hvs]. fold s in Hvs.
  pose proof (toordinal_bounds s Hvs) as Hb.
  assert (Hdays : 1 <= bucket_days F s <= 366).
  { destruct F; cbn [bucket_days]; [lia | lia | | destruct (_is_leap _); lia].
    apply valid_date_iff in Hvs. rewrite days_in_month_dim.
    destruct Hvs as (_ & Hm & Hd). unfold dim_of in *.
    assert (_DAYS_IN_MONTH (month s) <= 31).
    { destruct (month s) as [| p | p]; try lia.
      do 4 (destruct p as [p | p |]; cbn; try lia). }
    destruct (_ && _); lia. }
  split; [| split; [| exact Hdays]].
  - intros Hle. rewrite He.
    assert (Hb' : (toordinal s + bucket_days F s <=? _MAXORDINAL) = true)
      by (apply Z.leb_le; lia).
    rewrite Hb'. split; [reflexivity |].
    destruct (toordinal_fromordinal (toordinal s + bucket_days F s - 1))
      as [Hve Hoe]; [lia |].
    split; [exact Hve |]. unfold e. rewrite Hoe. lia.
  - intros Hgt. rewrite He.
    assert (Hb' : (toordinal s + bucket_days F s <=? _MAXORDINAL) = false)
      by (apply Z.leb_gt; lia).
    by rewrite Hb'.
Qed.

Lemma bucket_span_witness :
  valid_date (dt_date (mkdatetime (mkdate 2024 7 4) 12 0 0 0)) = true
  /\ _get_end_date_of_cycle YEARLY (combine_midnight (mkdate 2024 1 1))
     = ok (last_instant (mkdate 2024 12 31))
  /\ bucket_days YEARLY (mkdate 2024 1 1) = 366.
Proof.
  split; [reflexivity |].
  destruct (bucket_span YEARLY (mkdatetime (mkdate 2024 7 4) 12 0 0 0) eq_refl)
    as (Hok & _ & _).
  destruct Hok as (He & _ & _); [vm_compute; discriminate |].
  split; [exact He | reflexivity].
Defined.

End Buckets.

(* ===================================================================== *)
(** ** The cycle store *)
(* ===================================================================== *)

Section CycleStoreFacts.
Import _CycleManager.
Local Close Scope Z_scope.

(** ** Creating a cycle *)

(** PROPERTY X3. [_CycleManager._create] for a valid creation date: when the bucket
    ends before the last day of the calendar, one cycle is persisted under
    a fresh identity, with the dates of the bucket, which hold the creation
    date, and the display name given or else the start date in ISO format;
    otherwise [OverflowError] is raised and nothing is persisted. *)
Theorem cycle_create_outcome (now : Py.datetime) (F : Frequency)
    (name : option string) (cd : option Py.datetime) (dn : option string)
    (props : gmap string prop_value) (w : World) :
  let T := default now cd in
  Py.valid_date (Py.dt_date T) = true ->
  let s := first_day F (Py.dt_date T) in
  let last := (Py.toordinal s + bucket_days F s - 1)%Z in
  ((last < Py._MAXORDINAL)%Z ->
   exists c,
     _create now F name cd dn props w
     = (ok c, mkWorld (scenarios w) (<[next_id w := c]> (cycles w))
                      (pm_requests w) (S (next_id w)))
     /\ Cycle.id c = next_id w /\ Cycle.frequency c = F /\ Cycle.name c = name
     /\ Cycle.creation_date c = T
     /\ Cycle.start_date c = Py.combine_midnight s
     /\ Cycle.end_date c = last_instant (Py.fromordinal last)
     /\ (Py.toordinal (Py.dt_date (Cycle.start_date c))
         <= Py.toordinal (Py.dt_date T)
         <= Py.toordinal (Py.dt_date (Cycle.end_date c)))%Z
     /\ Cycle.properties c !! "display_name"
        = Some (PText (if truthy dn then default EmptyString dn
                       else isoformat (Py.combine_midnight s))))
  /\ ((Py._MAXORDINAL <= last)%Z ->
      _create now F name cd dn props w = (raise OverflowError, w)).
Proof.
  intros T Hv s last.
  destruct (start_first_day F T Hv) as [Hs Hvs]. fold s in Hs, Hvs.
  pose proof (proj1 (same_first_day_iff F _ _ Hv Hv) eq_refl) as Hin.
  cbv zeta in Hin. fold s in Hin.
  pose proof (bucket_end F T Hv) as He. cbv zeta in He. fold s in He.
  pose proof (Py_toordinal_bounds := toordinal_bounds s Hvs).
  split.
  - intros Hlast.
    assert (Hle : (Py.toordinal s + bucket_days F s <=? Py._MAXORDINAL)%Z = true)
      by (apply Z.leb_le; unfold last in Hlast; lia).
    rewrite Hle in He.
    eexists. split; [exact (cycle_create_run now F name cd dn props w _ _ Hs He) |].
    cbn [Cycle.id Cycle.frequency Cycle.name Cycle.creation_date Cycle.start_date
         Cycle.end_date Cycle.properties new_cycle].
    repeat split; try reflexivity.
    + cbn. lia.
    + cbn [last_instant Py.dt_date].
      destruct (toordinal_fromordinal (Py.toordinal s + bucket_days F s - 1)%Z)
        as [_ ->]; [unfold last in Hlast; lia | lia].
    + by rewrite lookup_insert_eq.
  - intros Hlast.
    assert (Hle : (Py.toordinal s + bucket_days F s <=? Py._MAXORDINAL)%Z = false)
      by (apply Z.leb_gt; unfold last in Hlast; lia).
    rewrite Hle in He.
    exact (cycle_create_fails now F name cd dn props w _ _ Hs He).
Qed.

Lemma cycle_create_outcome_witness :
  Py.valid_date (Py.dt_date (Py.mkdatetime (Py.mkdate 2022 3 16) 10 30 0 0)) = true
  /\ exists c w',
       _create (Py.mkdatetime (Py.mkdate 2022 3 16) 10 30 0 0) MONTHLY None None
               (Some "march") ∅ empty_world = (ok c, w')
       /\ Cycle.start_date c = Py.combine_midnight (Py.mkdate 2022 3 1)
       /\ Cycle.end_date c = last_instant (Py.mkdate 2022 3 31)
       /\ Cycle.properties c !! "display_name" = Some (PText "march").
Proof.
  split; [reflexivity |].
  destruct (cycle_create_outcome (Py.mkdatetime (Py.mkdate 2022 3 16) 10 30 0 0)
              MONTHLY None None (Some "march") ∅ empty_world eq_refl)
    as [Hok _].
  destruct Hok as (c & Hrun & _ & _ & _ & _ & Hs & He & _ & Hp);
    [vm_compute; reflexivity |].
  exists c. eexists. split; [exact Hrun |]. split; [exact Hs |].
  split; [exact He | exact Hp].
Defined.

(** ** Looking a cycle up, or creating it *)

Lemma matching_nil_fresh (w : World) (F : Frequency) (s : Py.datetime) :
  matching_cycles w F s = [] ->
  forall k c, cycles w !! k = Some c ->
              ~ (Cycle.frequency c = F /\ Cycle.start_date c = s).
Proof.
  intros Hnil k c Hk Hfs.
  assert (Hin : c ∈ matching_cycles w F s).
  { apply elem_of_matching. split; [by exists k | exact Hfs]. }
  rewrite Hnil in Hin. by apply elem_of_nil in Hin.
Qed.

Lemma cycles_sound_insert (w : World) (c : Cycle.t) :
  cycles_sound w -> Cycle.id c = next_id w -> cycle_consistent c ->
  matching_cycles w (Cycle.frequency c) (Cycle.start_date c) = [] ->
  cycles_sound (mkWorld (scenarios w) (<[next_id w := c]> (cycles w))
                        (pm_requests w) (S (next_id w))).
Proof.
  intros (Hwf & Hnd & Hc) Hid Hcc Hnil. split; [| split].
  - intros k c0 Hk. cbn in Hk |- *.
    apply lookup_insert_Some in Hk as [[<- <-] | [Hne Hk]]; [split; [done | lia] |].
    destruct (Hwf k c0 Hk). split; [done | lia].
  - intros k1 c1 k2 c2 H1 H2 HF HS. cbn in H1, H2.
    apply lookup_insert_Some in H1 as [[<- <-] | [Hne1 H1]];
      apply lookup_insert_Some in H2 as [[<- <-] | [Hne2 H2]].
    + done.
    + exfalso. by apply (matching_nil_fresh w _ _ Hnil k2 c2 H2).
    + exfalso. by apply (matching_nil_fresh w _ _ Hnil k1 c1 H1).
    + by apply (Hnd k1 c1 k2 c2).
  - intros k c0 Hk. cbn in Hk.
    apply lookup_insert_Some in Hk as [[<- <-] | [Hne Hk]]; [done |].
    by apply (Hc k c0).
Qed.

Lemma get_or_create_keeps_sound (now : Py.datetime) (F : Frequency)
    (cd : option Py.datetime) (dn : option string) (w : World) :
  cycles_sound w ->
  let run := _get_or_create now F cd dn w in
  cycles_sound (snd run)
  /\ scenarios (snd run) = scenarios w
  /\ (forall k c, cycles w !! k = Some c -> cycles (snd run) !! k = Some c)
  /\ (forall c, fst run = ok c ->
        cycles (snd run) !! Cycle.id c = Some c
        /\ Cycle.frequency c = F
        /\ _get_start_date_of_cycle F (default now cd) = ok (Cycle.start_date c)
        /\ forall k c', cycles (snd run) !! k = Some c' ->
             Cycle.frequency c' = F ->
             Cycle.start_date c' = Cycle.start_date c -> c' = c).
Proof.
  intros Hsound run. subst run.
  destruct (_get_start_date_of_cycle F (default now cd)) as [x | s] eqn:Hs.
  { rewrite (get_or_create_start_fails now F cd dn w x Hs). cbn.
    split; [done |]. split; [done |]. split; [done |]. by intros c. }
  rewrite (get_or_create_run now F cd dn w s Hs).
  destruct (matching_cycles w F s) as [| c l] eqn:Hm.
  - destruct (_get_end_date_of_cycle F s) as [x | e] eqn:He.
    + rewrite (cycle_create_fails now F None (Some (default now cd)) dn ∅ w s x Hs He).
      cbn. split; [done |]. split; [done |]. split; [done |]. by intros c.
    + rewrite (cycle_create_run now F None (Some (default now cd)) dn ∅ w s e Hs He).
      cbn [fst snd scenarios cycles].
      set (c := new_cycle w F None (default now (Some (default now cd))) dn ∅ s e).
      assert (Hsound' : cycles_sound
                (mkWorld (scenarios w) (<[next_id w := c]> (cycles w))
                         (pm_requests w) (S (next_id w)))).
      { apply cycles_sound_insert; [done | done | by split | exact Hm]. }
      split; [exact Hsound' |]. split; [done |]. split.
      * intros k c0 Hk. destruct Hsound as (Hwf & _). destruct (Hwf k c0 Hk).
        rewrite lookup_insert_ne; [done | lia].
      * intros c' [= <-]. split; [by rewrite lookup_insert_eq |].
        split; [done |]. split; [done |].
        intros k c' Hk HF HS. destruct Hsound' as (_ & Hnd & _).
        assert (k = next_id w).
        { apply (Hnd k c' (next_id w) c); cbn; [done | | done | done].
          by rewrite lookup_insert_eq. }
        subst k. rewrite lookup_insert_eq in Hk. congruence.
  - cbn. split; [done |]. split; [done |]. split; [done |].
    intros c' [= <-].
    assert (Hin : c ∈ matching_cycles w F s) by (rewrite Hm; left).
    apply elem_of_matching in Hin as ((k & Hk) & HF & HS).
    destruct Hsound as (Hwf & Hnd & _).
    destruct (Hwf k c Hk) as [Hid _].
    split; [by rewrite Hid |]. split; [done |]. split; [by rewrite HS |].
    intros k' c' Hk' HF' HS'.
    assert (k' = k) by (apply (Hnd k' c' k c); congruence).
    subst k'. congruence.
Qed.

Lemma get_or_create_sound_scenarios (now : Py.datetime) (F : Frequency)
    (cd : option Py.datetime) (dn : option string) (w : World) :
  scenarios (snd (_get_or_create now F cd dn w)) = scenarios w.
Proof.
  destruct (_get_start_date_of_cycle F (default now cd)) as [x | s] eqn:Hs.
  { by rewrite (get_or_create_start_fails now F cd dn w x Hs). }
  rewrite (get_or_create_run now F cd dn w s Hs).
  destruct (matching_cycles w F s) as [| c l]; [| done].
  destruct (_get_end_date_of_cycle F s) as [x | e] eqn:He.
  - by rewrite (cycle_create_fails now F None (Some (default now cd)) dn ∅ w s x Hs He).
  - by rewrite (cycle_create_run now F None (Some (default now cd)) dn ∅ w s e Hs He).
Qed.

(** PROPERTY X4. [_get_or_create], whatever it returns or raises, keeps the cycles
    sound, leaves the scenarios alone, asks nothing of the Pipeline Manager
    and forgets no cycle; the cycle it
    returns is persisted under its identity and is the one cycle of the
    frequency asked for whose bucket holds the instant. *)
Theorem get_or_create_sound (now : Py.datetime) (F : Frequency)
    (cd : option Py.datetime) (dn : option string) (w : World) :
  cycles_sound w ->
  let run := _get_or_create now F cd dn w in
  cycles_sound (snd run)
  /\ scenarios (snd run) = scenarios w
  /\ pm_requests (snd run) = pm_requests w
  /\ (forall k c, cycles w !! k = Some c -> cycles (snd run) !! k = Some c)
  /\ (forall c, fst run = ok c ->
        cycles (snd run) !! Cycle.id c = Some c
        /\ Cycle.frequency c = F
        /\ _get_start_date_of_cycle F (default now cd) = ok (Cycle.start_date c)
        /\ forall k c', cycles (snd run) !! k = Some c' ->
             Cycle.frequency c' = F ->
             Cycle.start_date c' = Cycle.start_date c -> c' = c).
Proof.
  intros Hsound run. subst run.
  destruct (get_or_create_keeps_sound now F cd dn w Hsound)
    as (Hs & Hsc & Hgrow & Hret).
  destruct (get_or_create_frame now F cd dn w
              (snd (_get_or_create now F cd dn w))
              (fst (_get_or_create now F cd dn w)))
    as (_ & Hpm & _); [by destruct (_get_or_create now F cd dn w) |].
  split; [exact Hs |]. split; [exact Hsc |]. split; [exact Hpm |].
  split; [exact Hgrow | exact Hret].
Qed.

End CycleStoreFacts.

(* ===================================================================== *)
(** ** Every reachable world, tags, and the single operations *)
(* ===================================================================== *)

Section MoreFacts.
Import _ScenarioManager.
Local Close Scope Z_scope.

(** ** Writing every scenario back *)

Lemma for_each_puts (f : Scenario.t -> Scenario.t) (body : Scenario.t -> M unit) :
  (forall scn w, body scn w
                 = (ok tt, with_scenarios w (put (f scn) (scenarios w)))) ->
  forall l w,
    for_each l body w
    = (ok tt,
       with_scenarios w (foldl (fun m scn => put (f scn) m) (scenarios w) l)).
Proof.
  intros Hbody l. induction l as [| scn l IH]; intros w.
  - by destruct w.
  - cbn [for_each foldl]. unfold bind. rewrite Hbody. cbv beta iota delta [ok].
    by rewrite IH.
Qed.

Lemma foldl_put_lookup (f : Scenario.t -> Scenario.t)
    (l : list (Id * Scenario.t)) :
  (forall s, Scenario.id (f s) = Scenario.id s) ->
  NoDup l.*1 ->
  (forall k s, (k, s) ∈ l -> Scenario.id s = k) ->
  forall (acc : gmap Id Scenario.t) k,
    foldl (fun m scn => put (f scn) m) acc l.*2 !! k
    = match (list_to_map l : gmap Id Scenario.t) !! k with
      | Some s => Some (f s)
      | None => acc !! k
      end.
Proof.
  intros Hid. induction l as [| [k0 s0] l IH]; intros Hnd Hl acc k.
  - cbn. by rewrite lookup_empty.
  - cbn in Hnd. apply NoDup_cons in Hnd as [Hnin Hnd].
    cbn [fmap list_fmap foldl snd list_to_map foldr uncurry fst].
    change (foldl (fun m scn => put (f scn) m) (put (f s0) acc) l.*2 !! k
            = match <[k0 := s0]> (list_to_map l : gmap Id Scenario.t) !! k with
              | Some s => Some (f s)
              | None => acc !! k
              end).
    rewrite IH; [| done | intros k' s' Hin; apply Hl; by right].
    assert (Hk0 : Scenario.id s0 = k0) by (apply Hl; left).
    destruct (decide (k = k0)) as [-> | Hne].
    + rewrite lookup_insert_eq.
      rewrite (not_elem_of_list_to_map_1 _ k0 Hnin).
      unfold put. rewrite Hid, Hk0. by rewrite lookup_insert_eq.
    + rewrite (lookup_insert_ne (list_to_map l) k0 k s0) by congruence.
      destruct (list_to_map l !! k); [done |].
      unfold put. rewrite Hid, Hk0. by rewrite lookup_insert_ne.
Qed.

Lemma foldl_put_fmap (f : Scenario.t -> Scenario.t) (m : gmap Id Scenario.t) :
  (forall s, Scenario.id (f s) = Scenario.id s) ->
  (forall k s, m !! k = Some s -> Scenario.id s = k) ->
  foldl (fun acc scn => put (f scn) acc) m (map_to_list m).*2 = f <$> m.
Proof.
  intros Hid Hm. apply map_eq. intros k.
  rewrite (foldl_put_lookup f (map_to_list m) Hid).
  - rewrite list_to_map_to_list, lookup_fmap. by destruct (m !! k).
  - apply NoDup_fst_map_to_list.
  - intros k' s' Hin. apply Hm. by apply elem_of_map_to_list.
Qed.

Lemma subscribe_all_run (w : World) (cb : Callback) :
  stored_under_id w ->
  _subscribe cb None w
  = (ok None,
     with_scenarios w ((fun s => Scenario.add_subscriber s cb) <$> scenarios w)).
Proof.
  intros Hst. unfold _subscribe. unfold bind at 1.
  cbv beta iota delta [_get_all _ScenarioRepository._load_all ok].
  unfold bind at 1.
  rewrite (for_each_puts (fun s => Scenario.add_subscriber s cb)); [| done].
  rewrite foldl_put_fmap; [done | done | exact Hst].
Qed.

Lemma unsubscribe_all_run (w : World) (cb : Callback) :
  stored_under_id w ->
  _unsubscribe cb None w
  = (ok None,
     with_scenarios w
       ((fun s => Scenario.remove_subscriber s cb) <$> scenarios w)).
Proof.
  intros Hst. unfold _unsubscribe. unfold bind at 1.
  cbv beta iota delta [_get_all _ScenarioRepository._load_all ok].
  unfold bind at 1.
  rewrite (for_each_puts (fun s => Scenario.remove_subscriber s cb)); [| done].
  rewrite foldl_put_fmap; [done | done | exact Hst].
Qed.

(** ** What an operation can do to a record *)

Lemma descends_refl (m : gmap Id Scenario.t) : descends m m.
Proof. intros k s Hk. exists s. split; [done |]. split; [done |]. by left. Qed.

Lemma descends_trans (m1 m2 m3 : gmap Id Scenario.t) :
  descends m1 m2 -> descends m2 m3 -> descends m1 m3.
Proof.
  intros H12 H23 k s3 Hk3.
  destruct (H23 k s3 Hk3) as (s2 & Hk2 & Hc2 & Hm2).
  destruct (H12 k s2 Hk2) as (s1 & Hk1 & Hc1 & Hm1).
  exists s1. split; [done |]. split; [congruence |].
  intros Hm. destruct (Hm2 Hm) as [Hm' | Hn]; [| by right].
  destruct (Hm1 Hm') as [? | Hn]; [by left |]. right. congruence.
Qed.

Lemma descends_put (m : gmap Id Scenario.t) (s' s0 : Scenario.t) :
  m !! Scenario.id s' = Some s0 ->
  Scenario.cycle s' = Scenario.cycle s0 ->
  (Scenario.is_master s' = true ->
   Scenario.is_master s0 = true \/ Scenario.cycle s' <> None) ->
  descends m (put s' m).
Proof.
  intros Hk Hc Hm k x Hx. unfold put in Hx.
  apply lookup_insert_Some in Hx as [[<- <-] | [Hne Hx]].
  - by exists s0.
  - exists x. split; [done |]. split; [done |]. by left.
Qed.

Lemma descends_delete (m : gmap Id Scenario.t) (k : Id) : descends m (delete k m).
Proof.
  intros k' x Hx. apply lookup_delete_Some in Hx as [_ Hx].
  exists x. split; [done |]. split; [done |]. by left.
Qed.

Lemma descends_fmap (f : Scenario.t -> Scenario.t) (m : gmap Id Scenario.t) :
  (forall s, shape (f s) = shape s) -> descends m (f <$> m).
Proof.
  intros Hf k x Hx. rewrite lookup_fmap in Hx.
  destruct (m !! k) as [s |] eqn:Hk; [| done]. injection Hx as <-.
  exists s. split; [done |]. pose proof (Hf s) as Hs. unfold shape in Hs.
  injection Hs as Hm Hc. split; [done |]. left. congruence.
Qed.

Lemma descends_same_shape_put (m : gmap Id Scenario.t) (s' s0 : Scenario.t) :
  m !! Scenario.id s' = Some s0 -> shape s0 = shape s' -> descends m (put s' m).
Proof.
  intros Hk Hs. unfold shape in Hs. injection Hs as Hm Hc.
  apply (descends_put m s' s0); [done | done |]. left. congruence.
Qed.

Lemma descends_linked (w w' : World) :
  descends (scenarios w) (scenarios w') ->
  (forall k c, cycles w !! k = Some c -> cycles w' !! k = Some c) ->
  scenarios_linked w -> scenarios_linked w'.
Proof.
  intros Hd Hc Hl k s c Hk Hsc.
  destruct (Hd k s Hk) as (s0 & Hk0 & Hc0 & _).
  apply Hc. apply (Hl k s0 c); [done | congruence].
Qed.

Lemma descends_masters (w w' : World) :
  descends (scenarios w) (scenarios w') ->
  masters_in_cycles w -> masters_in_cycles w'.
Proof.
  intros Hd Hm k s Hk Hs.
  destruct (Hd k s Hk) as (s0 & Hk0 & Hc0 & Hm0).
  destruct (Hm0 Hs) as [Hs0 | Hn]; [| done].
  rewrite Hc0. by apply (Hm k s0).
Qed.

Lemma cycles_sound_frame (w w' : World) :
  cycles w' = cycles w -> (next_id w <= next_id w')%nat ->
  cycles_sound w -> cycles_sound w'.
Proof.
  intros Hc Hn (Hwf & Hnd & Hcc). unfold cycles_sound, cycles_well_formed,
    no_duplicate_buckets. rewrite Hc. split; [| split; [done | done]].
  intros k c Hk. destruct (Hwf k c Hk). split; [done | lia].
Qed.

(** ** The operations that create no scenario *)

Lemma frames_refl (w : World) : frames w w.
Proof. split; [done |]. split; [done |]. apply descends_refl. Qed.

Lemma frames_with (w : World) (m : gmap Id Scenario.t) :
  descends (scenarios w) m -> frames w (with_scenarios w m).
Proof. intros Hd. split; [done |]. split; [done |]. exact Hd. Qed.

Lemma put_keeps_key (m : gmap Id Scenario.t) (x s0 : Scenario.t) (k : Id) :
  m !! k = Some s0 ->
  (forall y, m !! Scenario.id x = Some y -> Scenario.cycle x = Scenario.cycle y) ->
  exists s1, put x m !! k = Some s1 /\ Scenario.cycle s1 = Scenario.cycle s0.
Proof.
  intros Hk Hx. unfold put. destruct (decide (Scenario.id x = k)) as [<- | Hne].
  - exists x. rewrite lookup_insert_eq. split; [done |]. by apply Hx.
  - exists s0. by rewrite lookup_insert_ne.
Qed.

Lemma frames_put_in_sync (w : World) (s s' : Scenario.t) :
  in_sync w s -> Scenario.id s' = Scenario.id s -> shape s' = shape s ->
  frames w (with_scenarios w (put s' (scenarios w))).
Proof.
  intros (s0 & Hk & Hm & Hc) Hid Hsh. apply frames_with.
  apply (descends_same_shape_put _ s' s0).
  - by rewrite Hid.
  - rewrite Hsh. unfold shape. congruence.
Qed.

Lemma frames_tag (w : World) (s : Scenario.t) (tag : string) :
  good w -> in_sync w s -> frames w (snd (_tag s tag w)).
Proof.
  intros (_ & Hst & _) Hsync.
  destruct (unauthorized s tag) eqn:Hu.
  { rewrite (tag_unauthorized s tag w Hu). apply frames_refl. }
  rewrite (tag_run s tag w Hu). cbn [snd]. apply frames_with.
  destruct Hsync as (s0 & Hk & Hm & Hc).
  set (inner := match Scenario.cycle s with
                | Some c => match first_holder w c tag with
                            | Some o => put (Scenario.remove_tag o tag) (scenarios w)
                            | None => scenarios w
                            end
                | None => scenarios w
                end).
  assert (Hinner : descends (scenarios w) inner
                   /\ exists s1, inner !! Scenario.id s = Some s1
                                 /\ shape s1 = shape s0).
  { unfold inner. destruct (Scenario.cycle s) as [c |];
      [| split; [apply descends_refl | by exists s0]].
    destruct (first_holder w c tag) as [o |] eqn:Ho;
      [| split; [apply descends_refl | by exists s0]].
    apply first_holder_Some in Ho as (ko & Hko & _ & _).
    pose proof (Hst ko o Hko) as Hido.
    assert (Hput : same_shapes (scenarios w)
                     (put (Scenario.remove_tag o tag) (scenarios w))).
    { apply (same_shapes_put _ _ o).
      - rewrite id_remove_tag, Hido. exact Hko.
      - symmetry. apply shape_remove_tag. }
    split.
    - apply (descends_same_shape_put _ _ o).
      + rewrite id_remove_tag, Hido. exact Hko.
      + symmetry. apply shape_remove_tag.
    - by apply (same_shapes_lookup _ _ _ _ Hput). }
  destruct Hinner as (Hd & s1 & Hk1 & Hs1).
  apply (descends_trans _ inner); [exact Hd |].
  apply (descends_same_shape_put _ _ s1); [exact Hk1 |].
  rewrite Hs1. unfold shape. cbn. congruence.
Qed.

Lemma frames_set_master (w : World) (s : Scenario.t) :
  good w -> in_sync w s -> frames w (snd (_set_master s w)).
Proof.
  intros (_ & Hst & _) (s0 & Hk & Hm & Hc).
  destruct (Scenario.cycle s) as [c |] eqn:Hcs.
  2: { rewrite (set_master_no_cycle s w Hcs). apply frames_refl. }
  rewrite (set_master_run s c w Hcs). cbn [snd]. apply frames_with.
  set (inner := match first_master w c with
                | Some a => put (Scenario.set_master_scenario a false) (scenarios w)
                | None => scenarios w
                end).
  assert (Hinner : descends (scenarios w) inner
                   /\ exists s1, inner !! Scenario.id s = Some s1
                                 /\ Scenario.cycle s1 = Scenario.cycle s0).
  { unfold inner. destruct (first_master w c) as [a |] eqn:Ha;
      [| split; [apply descends_refl | by exists s0]].
    apply first_master_Some in Ha as (ka & Hka & _ & _).
    pose proof (Hst ka a Hka) as Hida.
    split.
    - apply (descends_put _ _ a); [by rewrite <- Hida in Hka | done | done].
    - apply put_keeps_key; [exact Hk |].
      cbn. intros y Hy. rewrite Hida in Hy. unfold persisted in Hka. congruence. }
  destruct Hinner as (Hd & s1 & Hk1 & Hs1).
  apply (descends_trans _ inner); [exact Hd |].
  apply (descends_put _ _ s1); [exact Hk1 | cbn; congruence |].
  intros _. right. cbn. congruence.
Qed.

Lemma frames_delete (w : World) (k : Id) : frames w (snd (_delete k w)).
Proof.
  rewrite delete_run. destruct (scenarios w !! k) as [s |]; [| apply frames_refl].
  destruct (Scenario.is_master s); [apply frames_refl |].
  apply frames_with, descends_delete.
Qed.

Lemma frames_hard_delete (w : World) (k : Id) : frames w (snd (_hard_delete k w)).
Proof.
  destruct (scenarios w !! k) as [s |] eqn:Hk.
  - destruct (Scenario.is_master s) eqn:Hm.
    + rewrite (hard_delete_master k s w Hk Hm). apply frames_refl.
    + rewrite (hard_delete_run k s w Hk Hm).
      split; [done |]. split; [done |]. apply descends_delete.
  - rewrite (hard_delete_missing k w Hk). apply frames_refl.
Qed.

Lemma frames_subscribe (w : World) (cb : Callback) (o : option Scenario.t) :
  good w -> in_sync_opt w o ->
  frames w (snd (_subscribe cb o w)) /\ frames w (snd (_unsubscribe cb o w)).
Proof.
  intros (_ & Hst & _) Ho. destruct o as [s |].
  - split.
    + by apply (frames_put_in_sync w s (Scenario.add_subscriber s cb)).
    + by apply (frames_put_in_sync w s (Scenario.remove_subscriber s cb)).
  - rewrite (subscribe_all_run w cb Hst), (unsubscribe_all_run w cb Hst).
    split; apply frames_with, descends_fmap; done.
Qed.

Lemma frames_coherent (w w' : World) :
  good w' -> frames w w' -> coherent w -> coherent w'.
Proof.
  intros Hg' (Hc & Hn & Hd) (_ & Hsound & Hl & Hm).
  split; [exact Hg' |]. split; [| split].
  - apply (cycles_sound_frame w); [done | lia | done].
  - apply (descends_linked w); [done | by rewrite Hc | done].
  - by apply (descends_masters w).
Qed.

(** ** Creation, and every reachable world *)

Lemma linked_grow (w w' : World) :
  scenarios w' = scenarios w ->
  (forall k c, cycles w !! k = Some c -> cycles w' !! k = Some c) ->
  scenarios_linked w -> scenarios_linked w'.
Proof.
  intros Hs Hc Hl k s c Hk Hsc. unfold persisted in Hk. rewrite Hs in Hk.
  apply Hc. by apply (Hl k s c).
Qed.

Lemma linked_put (w : World) (scn : Scenario.t) :
  scenarios_linked w ->
  (forall c, Scenario.cycle scn = Some c -> cycles w !! Cycle.id c = Some c) ->
  scenarios_linked (with_scenarios w (put scn (scenarios w))).
Proof.
  intros Hl Hscn k s c Hk Hsc. apply persisted_put in Hk as [[_ ->] | [_ Hk]].
  - by apply Hscn.
  - by apply (Hl k s c).
Qed.

Lemma masters_put (w : World) (scn : Scenario.t) :
  masters_in_cycles w ->
  (Scenario.is_master scn = true -> Scenario.cycle scn <> None) ->
  masters_in_cycles (with_scenarios w (put scn (scenarios w))).
Proof.
  intros Hm Hscn k s Hk Hs. apply persisted_put in Hk as [[_ ->] | [_ Hk]].
  - by apply Hscn.
  - by apply (Hm k s).
Qed.

Lemma masters_same (w w' : World) :
  scenarios w' = scenarios w -> masters_in_cycles w -> masters_in_cycles w'.
Proof.
  intros Hs Hm k s Hk Hms. unfold persisted in Hk. rewrite Hs in Hk.
  by apply (Hm k s).
Qed.

Lemma create_coherent {V} (pm : PipelineManager) (now : Py.datetime)
    (cfg : ScenarioConfig.t V) (cd : option Py.datetime) (dn : option string)
    (w : World) :
  coherent w -> coherent (snd (_create pm now cfg cd dn w)).
Proof.
  intros (Hg & Hsound & Hl & Hm).
  destruct (step_create_good pm now cfg cd dn w Hg) as [Hg' _].
  split; [exact Hg' |]. clear Hg'.
  destruct (create_inversion pm now cfg cd dn w)
    as (ps & w_b & Hsb & Hcb & Hnb & ->).
  assert (Hsound_b : cycles_sound w_b).
  { apply (cycles_sound_frame w); [done | lia | done]. }
  assert (Hl_b : scenarios_linked w_b).
  { apply (linked_grow w); [done | by rewrite Hcb | done]. }
  assert (Hm_b : masters_in_cycles w_b) by (by apply (masters_same w)).
  destruct (ScenarioConfig.frequency cfg) as [F |].
  - destruct (get_or_create_keeps_sound now F cd None w_b Hsound_b)
      as (Hsound_c & Hsc & Hgrow & Hret).
    destruct (_CycleManager._get_or_create now F cd None w_b) as [[x | c] w_c].
    + cbn [snd] in *. split; [done |]. split.
      * by apply (linked_grow w_b).
      * by apply (masters_same w_b).
    + cbn [fst snd] in *. destruct (Hret c eq_refl) as (Hc & _).
      split; [exact Hsound_c |]. split.
      * apply linked_put; [by apply (linked_grow w_b) |].
        cbn. by intros c' [= <-].
      * apply masters_put; [by apply (masters_same w_b) |]. done.
  - cbn [snd]. split; [exact Hsound_b |]. split.
    + apply linked_put; [done | done].
    + apply masters_put; [done | done].
Qed.

Lemma step_coherent (pm : PipelineManager) (w w' : World) :
  coherent w -> step pm w w' -> coherent w'.
Proof.
  intros Hc Hstep. pose proof Hc as (Hg & _).
  destruct (step_good pm w w' Hg Hstep) as [Hg' _].
  destruct Hstep.
  - by apply create_coherent.
  - by apply (frames_coherent w); [| apply frames_set_master |].
  - by apply (frames_coherent w); [| apply frames_tag |].
  - apply (frames_coherent w); [done | | done].
    rewrite untag_run. cbn [snd].
    apply (frames_put_in_sync w s); [done | apply id_remove_tag |].
    apply shape_remove_tag.
  - by apply (frames_coherent w); [| apply frames_delete |].
  - by apply (frames_coherent w); [| apply frames_hard_delete |].
  - apply (frames_coherent w); [done | | done].
    by apply (frames_subscribe w callback o).
  - apply (frames_coherent w); [done | | done].
    by apply (frames_subscribe w callback o).
Qed.

Lemma coherent_empty : coherent empty_world.
Proof.
  split; [apply good_empty |]. split; [split; [| split] |].
  - intros k c Hk. cbn in Hk. by rewrite lookup_empty in Hk.
  - intros k1 c1 k2 c2 Hk. cbn in Hk. by rewrite lookup_empty in Hk.
  - intros k c Hk. cbn in Hk. by rewrite lookup_empty in Hk.
  - split.
    + intros k s c Hk. unfold persisted in Hk. cbn in Hk.
      by rewrite lookup_empty in Hk.
    + intros k s Hk. unfold persisted in Hk. cbn in Hk.
      by rewrite lookup_empty in Hk.
Qed.

Lemma reachable_coherent (pm : PipelineManager) (w : World) :
  reachable pm w -> coherent w.
Proof.
  unfold reachable. intros H.
  apply (rtc_ind_r (R := step pm) (fun w => coherent w) empty_world);
    [apply coherent_empty | | exact H].
  intros y z _ Hs Hy. by apply (step_coherent pm y z).
Qed.

Lemma create_cycles_sound {V} (pm : PipelineManager) (now : Py.datetime)
    (cfg : ScenarioConfig.t V) (cd : option Py.datetime) (dn : option string)
    (w : World) :
  cycles_sound w -> cycles_sound (snd (_create pm now cfg cd dn w)).
Proof.
  intros Hsound.
  destruct (create_inversion pm now cfg cd dn w)
    as (ps & w_b & Hsb & Hcb & Hnb & ->).
  assert (Hsound_b : cycles_sound w_b).
  { apply (cycles_sound_frame w); [done | lia | done]. }
  destruct (ScenarioConfig.frequency cfg) as [F |]; [| done].
  destruct (get_or_create_keeps_sound now F cd None w_b Hsound_b) as (Hsound_c & _).
  by destruct (_CycleManager._get_or_create now F cd None w_b) as [[x | c] w_c].
Qed.

Lemma any_step_cycles (pm : PipelineManager) (w w' : World) :
  cycles_sound w -> step_any pm w w' -> cycles_sound w'.
Proof.
  intros Hsound Hstep. destruct Hstep.
  - by apply create_cycles_sound.
  - destruct (Scenario.cycle s) as [c |] eqn:Hc.
    + by rewrite (set_master_run s c w Hc).
    + by rewrite (set_master_no_cycle s w Hc).
  - destruct (unauthorized s tag) eqn:Hu.
    + by rewrite (tag_unauthorized s tag w Hu).
    + by rewrite (tag_run s tag w Hu).
  - by rewrite untag_run.
  - rewrite delete_run. destruct (scenarios w !! scenario_id) as [s |]; [| done].
    by destruct (Scenario.is_master s).
  - destruct (scenarios w !! scenario_id) as [s |] eqn:Hk.
    + destruct (Scenario.is_master s) eqn:Hm.
      * by rewrite (hard_delete_master scenario_id s w Hk Hm).
      * by rewrite (hard_delete_run scenario_id s w Hk Hm).
    + by rewrite (hard_delete_missing scenario_id w Hk).
  - destruct o as [s |]; [done |].
    rewrite subscribe_all_world.
    by rewrite (for_each_puts (fun s => Scenario.add_subscriber s callback)).
  - destruct o as [s |]; [done |].
    rewrite unsubscribe_all_world.
    by rewrite (for_each_puts (fun s => Scenario.remove_subscriber s callback)).
Qed.

(** ** What holds in every reachable world *)

(** PROPERTY X5. In every world reached by operations of the Scenario Manager, whatever
    the scenario objects handed to them: every cycle is stored under its
    identity; its start and end dates are those of the bucket of its
    creation date; no other cycle has its frequency and start date. *)
Theorem reachable_cycles (pm : PipelineManager) (w : World) :
  rtc (step_any pm) empty_world w ->
  forall k c,
    cycles w !! k = Some c ->
    Cycle.id c = k
    /\ _CycleManager._get_start_date_of_cycle (Cycle.frequency c)
         (Cycle.creation_date c) = ok (Cycle.start_date c)
    /\ _CycleManager._get_end_date_of_cycle (Cycle.frequency c)
         (Cycle.start_date c) = ok (Cycle.end_date c)
    /\ forall k' c',
         cycles w !! k' = Some c' ->
         Cycle.frequency c' = Cycle.frequency c ->
         Cycle.start_date c' = Cycle.start_date c -> c' = c.
Proof.
  intros Hr.
  assert (Hsound : cycles_sound w).
  { apply (rtc_ind_r (R := step_any pm) (fun w => cycles_sound w) empty_world);
      [apply coherent_empty | | exact Hr].
    intros y z _ Hs Hy. by apply (any_step_cycles pm y z). }
  destruct Hsound as (Hwf & Hnd & Hcc). intros k c Hk.
  destruct (Hwf k c Hk) as [Hid _]. destruct (Hcc k c Hk) as [Hs He].
  split; [done |]. split; [done |]. split; [done |].
  intros k' c' Hk' HF HS.
  assert (k' = k) by (by apply (Hnd k' c' k c)).
  subst k'. congruence.
Qed.

(** PROPERTY X6. In every reachable world the cycle of a persisted scenario is a
    persisted cycle, a scenario without a cycle is not a master, and the
    scenario is stored under its own identity. *)
Theorem reachable_scenarios (pm : PipelineManager) (w : World) :
  reachable pm w ->
  forall k s,
    persisted w k s ->
    Scenario.id s = k
    /\ (forall c, Scenario.cycle s = Some c -> cycles w !! Cycle.id c = Some c)
    /\ (Scenario.cycle s = None -> Scenario.is_master s = false).
Proof.
  intros Hr k s Hk.
  destruct (reachable_coherent pm w Hr) as ((_ & Hst & _) & _ & Hl & Hm).
  split; [by apply Hst |]. split.
  - intros c Hc. by apply (Hl k s c).
  - intros Hc. destruct (Scenario.is_master s) eqn:Hms; [| done].
    by destruct (Hm k s Hk Hms).
Qed.

(** PROPERTY X7. In every reachable world [_get_master] answers [None] exactly for
    the cycles without a scenario; for any other cycle it answers a
    persisted scenario of the cycle that is flagged master, and no other
    scenario of the cycle is. *)
Theorem get_master_total (pm : PipelineManager) (w : World) (c : Cycle.t) :
  reachable pm w ->
  exists o,
    _get_master c w = (ok o, w)
    /\ (o = None <-> scenarios_of w c = [])
    /\ forall a, o = Some a ->
         persisted w (Scenario.id a) a /\ in_cycle c a = true
         /\ Scenario.is_master a = true
         /\ forall k s, persisted w k s -> in_cycle c s = true ->
                        Scenario.is_master s = true -> s = a.
Proof.
  intros Hr. pose proof (reachable_good pm w Hr) as (Hel & Hst & _).
  destruct (Hel c) as [Huniq Hpop].
  exists (first_master w c). split; [apply get_master_run |]. split.
  - split.
    + intros Hnone. destruct (scenarios_of w c) as [| s l] eqn:Hsc; [done |].
      exfalso.
      assert (Hp : populated (scenarios w) c).
      { apply populated_iff. by rewrite Hsc. }
      destruct (Hpop Hp) as (k & m & Hk & Hc & Hm).
      pose proof (first_master_None w c Hnone k m Hk Hc). congruence.
    + intros Hnil. destruct (first_master w c) as [a |] eqn:Ha; [| done].
      exfalso. apply first_master_Some in Ha as (k & Hk & Hc & _).
      assert (Hin : In a (scenarios_of w c)) by (apply scenarios_of_In; eauto).
      by rewrite Hnil in Hin.
  - intros a Ha. apply first_master_Some in Ha as (k & Hk & Hc & Hm).
    pose proof (Hst k a Hk) as Hid. rewrite Hid.
    split; [done |]. split; [done |]. split; [done |].
    intros k' s Hk' Hc' Hm'.
    assert (k' = k) by (by apply (Huniq k' s k a)).
    subst k'. unfold persisted in *. congruence.
Qed.

(** PROPERTY X8. In every reachable world the last scenario of a cycle cannot be
    deleted: it is the master, and both deletions refuse it, changing
    nothing. *)
Theorem last_scenario_stays (pm : PipelineManager) (w : World) (k : Id)
    (s : Scenario.t) (c : Cycle.t) :
  reachable pm w ->
  persisted w k s -> Scenario.cycle s = Some c ->
  (forall k' s', persisted w k' s' -> in_cycle c s' = true -> k' = k) ->
  Scenario.is_master s = true
  /\ _delete k w = (raise DeletingMasterScenario, w)
  /\ _hard_delete k w = (raise DeletingMasterScenario, w).
Proof.
  intros Hr Hk Hc Honly. pose proof (reachable_good pm w Hr) as (Hel & _).
  destruct (Hel c) as [_ Hpop].
  assert (Hm : Scenario.is_master s = true).
  { destruct Hpop as (k' & m & Hk' & Hcm & Hm).
    - exists k, s. split; [done | by apply in_cycle_own].
    - assert (k' = k) by (by apply (Honly k' m)).
      subst k'. unfold persisted in *. congruence. }
  split; [done |].
  split; [by apply (delete_master k s) | by apply (hard_delete_master k s)].
Qed.

Lemma get_all_masters_run (w : World) :
  _get_all_masters w = (ok (List.filter Scenario.is_master (all_scenarios w)), w).
Proof. reflexivity. Qed.

(** PROPERTY X9. In every reachable world [_get_all_masters] returns persisted
    scenarios that each belong to a cycle, one for every cycle that has a
    scenario and no two for the same cycle. *)
Theorem get_all_masters_one_per_cycle (pm : PipelineManager) (w : World) :
  reachable pm w ->
  exists masters,
    _get_all_masters w = (ok masters, w)
    /\ (forall s, In s masters ->
          persisted w (Scenario.id s) s /\ Scenario.is_master s = true
          /\ exists c, Scenario.cycle s = Some c)
    /\ (forall c, scenarios_of w c <> [] ->
          exists s, In s masters /\ in_cycle c s = true)
    /\ (forall c s1 s2, In s1 masters -> In s2 masters ->
          in_cycle c s1 = true -> in_cycle c s2 = true -> s1 = s2).
Proof.
  intros Hr.
  destruct (reachable_coherent pm w Hr) as ((Hel & Hst & _) & _ & _ & Hmc).
  eexists. split; [apply get_all_masters_run |].
  assert (Hin : forall s, In s (List.filter Scenario.is_master (all_scenarios w))
                   <-> (exists k, persisted w k s) /\ Scenario.is_master s = true).
  { intros s. rewrite filter_In, elem_of_all. done. }
  split; [| split].
  - intros s Hs. apply Hin in Hs as [[k Hk] Hm].
    rewrite (Hst k s Hk). split; [done |]. split; [done |].
    destruct (Scenario.cycle s) as [c |] eqn:Hc; [by exists c |].
    by destruct (Hmc k s Hk Hm).
  - intros c Hne. destruct (Hel c) as [_ Hpop].
    destruct Hpop as (k & m & Hk & Hc & Hm); [by apply populated_iff |].
    exists m. split; [| done]. apply Hin. split; [by exists k | done].
  - intros c s1 s2 H1 H2 Hc1 Hc2.
    apply Hin in H1 as [[k1 Hk1] Hm1]. apply Hin in H2 as [[k2 Hk2] Hm2].
    destruct (Hel c) as [Huniq _].
    assert (k1 = k2) by (by apply (Huniq k1 s1 k2 s2)).
    subst k2. unfold persisted in *. congruence.
Qed.

(** PROPERTY X12. Subscribing a callback to every scenario returns, and replaces each
    persisted scenario by itself with the callback added; no scenario is
    added or removed, and nothing else of the world changes. *)
Theorem subscribe_all_outcome (w : World) (cb : Callback) :
  stored_under_id w ->
  let w' := with_scenarios w
              ((fun s => Scenario.add_subscriber s cb) <$> scenarios w) in
  _subscribe cb None w = (ok None, w')
  /\ (forall k s, persisted w k s ->
                  persisted w' k (Scenario.add_subscriber s cb))
  /\ (forall k, scenarios w !! k = None -> scenarios w' !! k = None).
Proof.
  intros Hst w'. split; [by apply subscribe_all_run |]. split.
  - intros k s Hk. unfold persisted, w' in *. cbn. by rewrite lookup_fmap, Hk.
  - intros k Hk. unfold w'. cbn. by rewrite lookup_fmap, Hk.
Qed.

(** ** One holder for a tag in a cycle *)

Lemma one_holder_iff (w : World) :
  one_holder_per_tag w <-> unique_holder (scenarios w).
Proof.
  split.
  - intros H c tag. by apply holders_le_1.
  - intros H c tag. apply holders_le_1. apply H.
Qed.

Lemma in_tag_sync_in_sync (w : World) (s : Scenario.t) :
  in_tag_sync w s -> in_sync w s.
Proof. intros (s0 & Hk & Hm & Hc & _). by exists s0. Qed.

Lemma step_synced_step (pm : PipelineManager) (w w' : World) :
  step_synced pm w w' -> step pm w w'.
Proof.
  intros H. destruct H.
  - apply step_create.
  - by apply step_set_master, in_tag_sync_in_sync.
  - by apply step_tag, in_tag_sync_in_sync.
  - by apply step_untag, in_tag_sync_in_sync.
  - apply step_delete.
  - apply step_hard_delete.
  - apply step_subscribe. destruct o; [by apply in_tag_sync_in_sync | done].
  - apply step_unsubscribe. destruct o; [by apply in_tag_sync_in_sync | done].
Qed.

Lemma in_cycle_of_cycle (c : Cycle.t) (s s' : Scenario.t) :
  Scenario.cycle s' = Scenario.cycle s -> in_cycle c s' = in_cycle c s.
Proof. intros H. unfold in_cycle. by rewrite H. Qed.

Lemma has_tag_subseteq (s s' : Scenario.t) (tag : string) :
  Scenario.tags s' ⊆ Scenario.tags s ->
  Scenario.has_tag s' tag = true -> Scenario.has_tag s tag = true.
Proof.
  unfold Scenario.has_tag. intros Hsub H.
  apply bool_decide_eq_true in H. apply bool_decide_eq_true. by apply Hsub.
Qed.

Lemma sheds_refl (m : gmap Id Scenario.t) : sheds m m.
Proof. intros k s Hk. by exists s. Qed.

Lemma sheds_trans (m1 m2 m3 : gmap Id Scenario.t) :
  sheds m1 m2 -> sheds m2 m3 -> sheds m1 m3.
Proof.
  intros H12 H23 k s3 Hk3.
  destruct (H23 k s3 Hk3) as (s2 & Hk2 & Hc2 & Ht2).
  destruct (H12 k s2 Hk2) as (s1 & Hk1 & Hc1 & Ht1).
  exists s1. split; [done |]. split; [congruence |]. by transitivity (Scenario.tags s2).
Qed.

Lemma sheds_put (m : gmap Id Scenario.t) (s' s0 : Scenario.t) :
  m !! Scenario.id s' = Some s0 ->
  Scenario.cycle s' = Scenario.cycle s0 -> Scenario.tags s' ⊆ Scenario.tags s0 ->
  sheds m (put s' m).
Proof.
  intros Hk Hc Ht k x Hx. unfold put in Hx.
  apply lookup_insert_Some in Hx as [[<- <-] | [Hne Hx]].
  - by exists s0.
  - by exists x.
Qed.

Lemma sheds_delete (m : gmap Id Scenario.t) (k : Id) : sheds m (delete k m).
Proof.
  intros k' x Hx. apply lookup_delete_Some in Hx as [_ Hx]. by exists x.
Qed.

Lemma sheds_fmap (f : Scenario.t -> Scenario.t) (m : gmap Id Scenario.t) :
  (forall s, Scenario.cycle (f s) = Scenario.cycle s) ->
  (forall s, Scenario.tags (f s) = Scenario.tags s) ->
  sheds m (f <$> m).
Proof.
  intros Hc Ht k x Hx. rewrite lookup_fmap in Hx.
  destruct (m !! k) as [s |] eqn:Hk; [| done]. injection Hx as <-.
  exists s. split; [done |]. split; [done |]. by rewrite Ht.
Qed.

Lemma sheds_unique (m m' : gmap Id Scenario.t) :
  sheds m m' -> unique_holder m -> unique_holder m'.
Proof.
  intros Hs Hu c tag k1 s1 k2 s2 H1 Hc1 Ht1 H2 Hc2 Ht2.
  destruct (Hs k1 s1 H1) as (x1 & Hx1 & Hcx1 & Htx1).
  destruct (Hs k2 s2 H2) as (x2 & Hx2 & Hcx2 & Htx2).
  apply (Hu c tag k1 x1 k2 x2); try done.
  - by rewrite <- (in_cycle_of_cycle c x1 s1).
  - by apply (has_tag_subseteq x1 s1).
  - by rewrite <- (in_cycle_of_cycle c x2 s2).
  - by apply (has_tag_subseteq x2 s2).
Qed.

Lemma unique_put_tagless (m : gmap Id Scenario.t) (scn : Scenario.t) :
  Scenario.tags scn = ∅ -> unique_holder m -> unique_holder (put scn m).
Proof.
  intros Hnone Hu c tag k1 s1 k2 s2 H1 Hc1 Ht1 H2 Hc2 Ht2.
  assert (Hno : Scenario.has_tag scn tag = false).
  { unfold Scenario.has_tag. rewrite Hnone. by apply bool_decide_eq_false. }
  unfold put in H1, H2.
  apply lookup_insert_Some in H1 as [[_ <-] | [_ H1]]; [congruence |].
  apply lookup_insert_Some in H2 as [[_ <-] | [_ H2]]; [congruence |].
  by apply (Hu c tag k1 s1 k2 s2).
Qed.

Lemma put_keeps_tags (m : gmap Id Scenario.t) (x s0 : Scenario.t) (k : Id) :
  m !! k = Some s0 ->
  (forall y, m !! Scenario.id x = Some y ->
             Scenario.cycle x = Scenario.cycle y
             /\ Scenario.tags x = Scenario.tags y) ->
  exists s1, put x m !! k = Some s1
             /\ Scenario.cycle s1 = Scenario.cycle s0
             /\ Scenario.tags s1 = Scenario.tags s0.
Proof.
  intros Hk Hx. unfold put. destruct (decide (Scenario.id x = k)) as [<- | Hne].
  - exists x. rewrite lookup_insert_eq. split; [done |]. by apply Hx.
  - exists s0. by rewrite lookup_insert_ne.
Qed.

Lemma sheds_put_synced (w : World) (s s' : Scenario.t) :
  in_tag_sync w s -> Scenario.id s' = Scenario.id s ->
  Scenario.cycle s' = Scenario.cycle s -> Scenario.tags s' ⊆ Scenario.tags s ->
  sheds (scenarios w) (put s' (scenarios w)).
Proof.
  intros (s0 & Hk & _ & Hc & Ht) Hid Hc' Ht'.
  apply (sheds_put _ s' s0); [by rewrite Hid | congruence | by rewrite Ht].
Qed.

Lemma tags_remove_tag (s : Scenario.t) (tag : string) :
  Scenario.tags (Scenario._remove_tag s tag) ⊆ Scenario.tags s.
Proof.
  unfold Scenario._remove_tag. destruct (Scenario.has_tag s tag); [| done].
  cbn. intros x Hx. by apply elem_of_difference in Hx as [? _].
Qed.

Lemma cycle_remove_tag (s : Scenario.t) (tag : string) :
  Scenario.cycle (Scenario._remove_tag s tag) = Scenario.cycle s.
Proof. unfold Scenario._remove_tag. by destruct (Scenario.has_tag s tag). Qed.

Lemma unique_set_master (w : World) (s : Scenario.t) :
  good w -> in_tag_sync w s -> unique_holder (scenarios w) ->
  unique_holder (scenarios (snd (_set_master s w))).
Proof.
  intros (_ & Hst & _) (s0 & Hk & _ & Hc & Ht) Hu.
  destruct (Scenario.cycle s) as [c |] eqn:Hcs.
  2: { by rewrite (set_master_no_cycle s w Hcs). }
  rewrite (set_master_run s c w Hcs). cbn [snd scenarios with_scenarios].
  apply (sheds_unique (scenarios w)); [| exact Hu].
  set (inner := match first_master w c with
                | Some a => put (Scenario.set_master_scenario a false) (scenarios w)
                | None => scenarios w
                end).
  assert (Hinner : sheds (scenarios w) inner
                   /\ exists s1, inner !! Scenario.id s = Some s1
                                 /\ Scenario.cycle s1 = Scenario.cycle s0
                                 /\ Scenario.tags s1 = Scenario.tags s0).
  { unfold inner. destruct (first_master w c) as [a |] eqn:Ha;
      [| split; [apply sheds_refl | by exists s0]].
    apply first_master_Some in Ha as (ka & Hka & _ & _).
    pose proof (Hst ka a Hka) as Hida. unfold persisted in Hka.
    split.
    - apply (sheds_put _ _ a); [by rewrite <- Hida in Hka | done | done].
    - apply put_keeps_tags; [exact Hk |].
      cbn. intros y Hy. rewrite Hida in Hy. split; congruence. }
  destruct Hinner as (Hd & s1 & Hk1 & Hc1 & Ht1).
  apply (sheds_trans _ inner); [exact Hd |].
  apply (sheds_put _ _ s1); [exact Hk1 | cbn; congruence |].
  cbn. by rewrite Ht1, Ht.
Qed.

Lemma unique_delete (w : World) (k : Id) :
  unique_holder (scenarios w) ->
  unique_holder (scenarios (snd (_delete k w)))
  /\ unique_holder (scenarios (snd (_hard_delete k w))).
Proof.
  intros Hu. split.
  - rewrite delete_run. destruct (scenarios w !! k) as [s |]; [| done].
    destruct (Scenario.is_master s); [done |].
    by apply (sheds_unique (scenarios w)); [apply sheds_delete |].
  - destruct (scenarios w !! k) as [s |] eqn:Hk.
    + destruct (Scenario.is_master s) eqn:Hm.
      * by rewrite (hard_delete_master k s w Hk Hm).
      * rewrite (hard_delete_run k s w Hk Hm).
        by apply (sheds_unique (scenarios w)); [apply sheds_delete |].
    + by rewrite (hard_delete_missing k w Hk).
Qed.

Lemma unique_subscribe (w : World) (cb : Callback) (o : option Scenario.t) :
  good w -> in_tag_sync_opt w o -> unique_holder (scenarios w) ->
  unique_holder (scenarios (snd (_subscribe cb o w)))
  /\ unique_holder (scenarios (snd (_unsubscribe cb o w))).
Proof.
  intros (_ & Hst & _) Ho Hu. destruct o as [s |].
  - split; (apply (sheds_unique (scenarios w)); [| exact Hu]).
    + by apply (sheds_put_synced w s (Scenario.add_subscriber s cb)).
    + by apply (sheds_put_synced w s (Scenario.remove_subscriber s cb)).
  - rewrite (subscribe_all_run w cb Hst), (unsubscribe_all_run w cb Hst).
    split; (apply (sheds_unique (scenarios w)); [| exact Hu]);
      by apply sheds_fmap.
Qed.

Lemma unique_create {V} (pm : PipelineManager) (now : Py.datetime)
    (cfg : ScenarioConfig.t V) (cd : option Py.datetime) (dn : option string)
    (w : World) :
  unique_holder (scenarios w) ->
  unique_holder (scenarios (snd (_create pm now cfg cd dn w))).
Proof.
  intros Hu.
  destruct (create_inversion pm now cfg cd dn w)
    as (ps & w_b & Hsb & Hcb & Hnb & ->).
  destruct (ScenarioConfig.frequency cfg) as [F |].
  - pose proof (get_or_create_sound_scenarios now F cd None w_b) as Hsc.
    destruct (_CycleManager._get_or_create now F cd None w_b) as [[x | c] w_c];
      cbn [snd] in *.
    + by rewrite Hsc, Hsb.
    + cbn [scenarios with_scenarios]. apply unique_put_tagless; [done |].
      by rewrite Hsc, Hsb.
  - cbn [snd scenarios with_scenarios]. apply unique_put_tagless; [done |].
    by rewrite Hsb.
Qed.

Lemma unique_untag (w : World) (s : Scenario.t) (tag : string) :
  in_tag_sync w s -> unique_holder (scenarios w) ->
  unique_holder (scenarios (snd (_untag s tag w))).
Proof.
  intros Hsync Hu. rewrite untag_run. cbn [snd scenarios with_scenarios].
  apply (sheds_unique (scenarios w)); [| exact Hu].
  apply (sheds_put_synced w s).
  - exact Hsync.
  - apply id_remove_tag.
  - apply cycle_remove_tag.
  - apply tags_remove_tag.
Qed.

Lemma has_tag_add_other (s : Scenario.t) (tag tag' : string) :
  tag' <> tag ->
  Scenario.has_tag (Scenario._add_tag s tag) tag' = Scenario.has_tag s tag'.
Proof.
  intros Hne. unfold Scenario.has_tag. cbn. apply bool_decide_ext.
  rewrite elem_of_union, elem_of_singleton. tauto.
Qed.

Lemma has_tag_same_tags (s s' : Scenario.t) (tag : string) :
  Scenario.tags s' = Scenario.tags s ->
  Scenario.has_tag s' tag = Scenario.has_tag s tag.
Proof. unfold Scenario.has_tag. by intros ->. Qed.

(** What [_tag] leaves under the identity of the scenario it tags, and
    elsewhere. *)
Lemma unique_tag (w : World) (s : Scenario.t) (tag : string) :
  good w -> in_tag_sync w s -> unique_holder (scenarios w) ->
  unique_holder (scenarios (snd (_tag s tag w))).
Proof.
  intros (_ & Hst & _) (s0 & Hk & _ & Hc & Ht) Hu.
  destruct (unauthorized s tag) eqn:Hua.
  { by rewrite (tag_unauthorized s tag w Hua). }
  rewrite (tag_run s tag w Hua). cbn [snd scenarios with_scenarios].
  set (inner := match Scenario.cycle s with
                | Some c => match first_holder w c tag with
                            | Some o => put (Scenario.remove_tag o tag) (scenarios w)
                            | None => scenarios w
                            end
                | None => scenarios w
                end).
  assert (Hsheds : sheds (scenarios w) inner).
  { unfold inner. destruct (Scenario.cycle s) as [c |]; [| apply sheds_refl].
    destruct (first_holder w c tag) as [o |] eqn:Ho; [| apply sheds_refl].
    apply first_holder_Some in Ho as (ko & Hko & _ & _).
    pose proof (Hst ko o Hko) as Hido. unfold persisted in Hko.
    apply (sheds_put _ _ o).
    - by rewrite id_remove_tag, Hido.
    - apply cycle_remove_tag.
    - apply tags_remove_tag. }
  assert (Hinner : unique_holder inner) by (by apply (sheds_unique (scenarios w))).
  (* no record of [inner] beside the one of [s] holds [tag] in the cycle of [s] *)
  assert (Hfree : forall c k x,
            in_cycle c (Scenario._add_tag s tag) = true ->
            inner !! k = Some x -> k <> Scenario.id s ->
            in_cycle c x = true -> Scenario.has_tag x tag = false).
  { intros c k x Hcs Hx Hne Hcx.
    destruct (Scenario.has_tag x tag) eqn:Hhas; [exfalso | done].
    assert (Hcs' : in_cycle c s = true) by exact Hcs.
    unfold inner in Hx.
    destruct (Scenario.cycle s) as [c' |] eqn:Hcyc;
      [| unfold in_cycle in Hcs'; by rewrite Hcyc in Hcs'].
    assert (Hsame : forall y, in_cycle c y = in_cycle c' y).
    { apply (in_cycle_same c' c s); [by apply in_cycle_own | done]. }
    rewrite Hsame in Hcx.
    destruct (first_holder w c' tag) as [o |] eqn:Ho.
    - apply first_holder_Some in Ho as (ko & Hko & Hco & Hto).
      pose proof (Hst ko o Hko) as Hido. unfold persisted in Hko.
      unfold put in Hx. rewrite id_remove_tag, Hido in Hx.
      apply lookup_insert_Some in Hx as [[<- <-] | [Hnk Hx]].
      + rewrite has_tag_remove in Hhas. done.
      + apply Hnk. by apply (Hu c' tag ko o k x).
    - pose proof (first_holder_None w c' tag Ho k x Hx Hcx). congruence. }
  intros c tag' k1 s1 k2 s2 H1 Hc1 Ht1 H2 Hc2 Ht2.
  assert (Hs0 : scenarios w !! Scenario.id s = Some s0) by exact Hk.
  assert (Hold : forall k x, inner !! k = Some x -> k <> Scenario.id s ->
                   in_cycle c x = true -> Scenario.has_tag x tag' = true ->
                   in_cycle c (Scenario._add_tag s tag) = true ->
                   Scenario.has_tag (Scenario._add_tag s tag) tag' = true ->
                   False).
  { intros k x Hx Hne Hcx Htx Hcs Hts.
    destruct (decide (tag' = tag)) as [-> | Hnt].
    - pose proof (Hfree c k x Hcs Hx Hne Hcx). congruence.
    - rewrite (has_tag_add_other s tag tag' Hnt) in Hts.
      destruct (Hsheds k x Hx) as (x0 & Hx0 & Hcx0 & Htx0).
      apply Hne. apply (Hu c tag' k x0 (Scenario.id s) s0); try done.
      + by rewrite <- (in_cycle_of_cycle c x0 x).
      + by apply (has_tag_subseteq x0 x).
      + rewrite (in_cycle_of_cycle c s s0); [exact Hcs | done].
      + by rewrite (has_tag_same_tags s s0). }
  unfold put in H1, H2. cbn [Scenario.id Scenario._add_tag Scenario.set_tags] in H1, H2.
  apply lookup_insert_Some in H1 as [[<- <-] | [Hn1 H1]];
    apply lookup_insert_Some in H2 as [[<- <-] | [Hn2 H2]].
  - done.
  - exfalso. apply (Hold k2 s2); (done || congruence).
  - exfalso. apply (Hold k1 s1); (done || congruence).
  - by apply (Hinner c tag' k1 s1 k2 s2).
Qed.

Lemma step_synced_unique (pm : PipelineManager) (w w' : World) :
  good w -> unique_holder (scenarios w) -> step_synced pm w w' ->
  unique_holder (scenarios w').
Proof.
  intros Hg Hu Hstep. destruct Hstep.
  - by apply unique_create.
  - by apply unique_set_master.
  - by apply unique_tag.
  - by apply unique_untag.
  - by apply unique_delete.
  - by apply unique_delete.
  - by apply unique_subscribe.
  - by apply unique_subscribe.
Qed.

Lemma reachable_synced_good (pm : PipelineManager) (w : World) :
  rtc (step_synced pm) empty_world w -> good w /\ unique_holder (scenarios w).
Proof.
  intros H.
  apply (rtc_ind_r (R := step_synced pm)
           (fun w => good w /\ unique_holder (scenarios w)) empty_world);
    [| | exact H].
  - split; [apply good_empty |].
    intros c tag k1 s1 k2 s2 H1. cbn in H1. by rewrite lookup_empty in H1.
  - intros y z _ Hs [Hg Hu]. split.
    + by apply (step_good pm y z Hg), step_synced_step.
    + by apply (step_synced_unique pm y z).
Qed.

Lemma find_head_filter {A} (p : A -> bool) (l : list A) :
  List.find p l = head (List.filter p l).
Proof.
  induction l as [| x l IH]; [done |]. cbn. by destruct (p x).
Qed.

(** PROPERTY X10. In every world reached by operations of the Scenario
    Manager on scenario objects that agree with their persisted record on the master
    flag, the cycle and the tags, no two scenarios of a cycle hold the same
    tag, and [_get_by_tag] answers the one holder there is, or [None] when
    there is none. *)
Theorem one_holder_per_tag_kept (pm : PipelineManager) (w : World)
    (c : Cycle.t) (tag : string) :
  rtc (step_synced pm) empty_world w ->
  (length (holders_of w c tag) <= 1)%nat
  /\ exists o,
       _get_by_tag c tag w = (ok o, w)
       /\ (o = None <-> holders_of w c tag = [])
       /\ forall a, o = Some a -> holders_of w c tag = [a].
Proof.
  intros Hr. destruct (reachable_synced_good pm w Hr) as [_ Hu].
  assert (Hle : (length (holders_of w c tag) <= 1)%nat).
  { by apply one_holder_iff. }
  split; [exact Hle |].
  exists (first_holder w c tag). split; [apply get_by_tag_run |].
  unfold first_holder. rewrite find_head_filter. fold (holders_of w c tag).
  destruct (holders_of w c tag) as [| a [| b l]].
  - split; [done |]. by intros a.
  - split; [by split |]. by intros a' [= <-].
  - cbn in Hle. lia.
Qed.

(** PROPERTY X11. In such a world, untagging the scenario of a cycle that holds a tag
    leaves the tag with no holder in the cycle: [_get_by_tag] answers
    [None]. *)
Theorem untag_frees_tag (pm : PipelineManager) (w : World) (s : Scenario.t)
    (c : Cycle.t) (tag : string) :
  rtc (step_synced pm) empty_world w ->
  in_tag_sync w s -> Scenario.cycle s = Some c ->
  Scenario.has_tag s tag = true ->
  exists s' w',
    _untag s tag w = (ok s', w')
    /\ persisted w' (Scenario.id s) s' /\ Scenario.has_tag s' tag = false
    /\ holders_of w' c tag = []
    /\ _get_by_tag c tag w' = (ok None, w').
Proof.
  intros Hr (s0 & Hk & _ & Hc0 & Ht0) Hc Ht.
  destruct (reachable_synced_good pm w Hr) as [_ Hu].
  eexists _, _. split; [apply untag_run |].
  set (s' := Scenario._remove_tag s tag).
  set (w' := with_scenarios w (put s' (scenarios w))).
  assert (Hs' : Scenario.has_tag s' tag = false) by apply has_tag_remove.
  assert (Hid : Scenario.id s' = Scenario.id s) by apply id_remove_tag.
  assert (Hnil : holders_of w' c tag = []).
  { destruct (holders_of w' c tag) as [| x l] eqn:Hh; [done |]. exfalso.
    assert (Hin : In x (holders_of w' c tag)) by (rewrite Hh; by left).
    unfold holders_of in Hin. apply filter_In in Hin as [Hin Htx].
    apply scenarios_of_In in Hin as (k & Hkx & Hcx).
    apply persisted_put in Hkx as [[_ ->] | [Hne Hkx]]; [congruence |].
    apply Hne. rewrite Hid.
    apply (Hu c tag k x (Scenario.id s) s0); try done.
    - rewrite (in_cycle_of_cycle c s s0) by done. by apply in_cycle_own.
    - by rewrite (has_tag_same_tags s s0). }
  split; [apply persisted_put; left; by split |].
  split; [done |]. split; [done |].
  rewrite get_by_tag_run. unfold first_holder. rewrite find_head_filter.
  fold (holders_of w' c tag). by rewrite Hnil.
Qed.

(** ** Deleting *)

(** PROPERTY X13. The two deletions of an identity under which nothing is persisted
    raise [AttributeError] and change nothing. Deleting a scenario that is
    not a master returns, removes that record alone and asks the Pipeline
    Manager for nothing; the identity can then not be read, nor deleted
    again. *)
Theorem delete_outcome (k : Id) (w : World) :
  (scenarios w !! k = None ->
   _delete k w = (raise AttributeError, w)
   /\ _hard_delete k w = (raise AttributeError, w))
  /\ (forall s,
        persisted w k s -> Scenario.is_master s = false ->
        let w' := with_scenarios w (delete k (scenarios w)) in
        _delete k w = (ok tt, w')
        /\ pm_requests w' = pm_requests w /\ cycles w' = cycles w
        /\ (forall k', k' <> k -> scenarios w' !! k' = scenarios w !! k')
        /\ _get k w' = (ok None, w')
        /\ _delete k w' = (raise AttributeError, w')
        /\ _hard_delete k w' = (raise AttributeError, w')).
Proof.
  split.
  - intros Hk. split; [by rewrite delete_run, Hk | by apply hard_delete_missing].
  - intros s Hk Hm w'. unfold persisted in Hk.
    assert (Hgone : scenarios w' !! k = None) by apply lookup_delete_eq.
    split; [by rewrite delete_run, Hk, Hm |].
    split; [done |]. split; [done |]. split.
    { intros k' Hne. cbn. by rewrite lookup_delete_ne. }
    split; [unfold _get, _ScenarioRepository.load; by rewrite Hgone |].
    split; [by rewrite delete_run, Hgone | by apply hard_delete_missing].
Qed.

(** ** Electing the master again, tagging again *)

Lemma set_master_scenario_id (s : Scenario.t) :
  Scenario.set_master_scenario s (Scenario.is_master s) = s.
Proof. by destruct s. Qed.

Lemma put_put (m : gmap Id Scenario.t) (x y : Scenario.t) :
  Scenario.id x = Scenario.id y -> put x (put y m) = put x m.
Proof. intros H. unfold put. rewrite H. apply insert_insert_eq. Qed.

Lemma put_persisted (m : gmap Id Scenario.t) (x : Scenario.t) :
  m !! Scenario.id x = Some x -> put x m = m.
Proof. intros H. unfold put. by apply insert_id. Qed.

(** PROPERTY X14. Electing the scenario that is the one master of its cycle changes
    nothing. *)
Theorem set_master_again (w : World) (s : Scenario.t) (c : Cycle.t) :
  persisted w (Scenario.id s) s ->
  Scenario.cycle s = Some c -> Scenario.is_master s = true ->
  (length (masters_of w c) <= 1)%nat ->
  _set_master s w = (ok s, w).
Proof.
  intros Hk Hc Hm Hle.
  assert (Hfirst : first_master w c = Some s).
  { apply first_master_unique; [by exists (Scenario.id s) | by apply in_cycle_own
                               | done |].
    intros k x Hx Hcx Hmx.
    assert (k = Scenario.id s).
    { apply (proj1 (masters_le_1 w c) Hle k x (Scenario.id s) s); try done.
      by apply in_cycle_own. }
    subst k. unfold persisted in *. congruence. }
  rewrite (set_master_run s c w Hc), Hfirst.
  assert (Hs : Scenario.set_master_scenario s true = s).
  { rewrite <- Hm. apply set_master_scenario_id. }
  rewrite Hs, put_put by done. rewrite put_persisted by exact Hk.
  by destruct w.
Qed.

Lemma add_tag_held (s : Scenario.t) (tag : string) :
  Scenario.has_tag s tag = true -> Scenario._add_tag s tag = s.
Proof.
  unfold Scenario.has_tag, Scenario._add_tag, Scenario.set_tags.
  intros H. apply bool_decide_eq_true in H.
  assert (Heq : {[tag]} ∪ Scenario.tags s = Scenario.tags s).
  { apply set_eq. intros x. rewrite elem_of_union, elem_of_singleton.
    split; [intros [-> | ?]; done | by right]. }
  rewrite Heq. by destruct s.
Qed.

Lemma remove_add_tag (s : Scenario.t) (tag : string) :
  Scenario.has_tag s tag = false ->
  Scenario._remove_tag (Scenario._add_tag s tag) tag = s.
Proof.
  intros H. unfold Scenario._remove_tag. rewrite has_tag_add.
  unfold Scenario.has_tag in H. apply bool_decide_eq_false in H.
  unfold Scenario._add_tag, Scenario.set_tags. cbn.
  assert (Heq : ({[tag]} ∪ Scenario.tags s) ∖ {[tag]} = Scenario.tags s).
  { apply set_eq. intros x.
    rewrite elem_of_difference, elem_of_union, elem_of_singleton.
    split; [intros [[-> | ?] ?]; done |].
    intros Hx. split; [by right |]. intros ->. done. }
  rewrite Heq. by destruct s.
Qed.

(** PROPERTY X15. Tagging a persisted scenario with an authorized tag it holds, no
    other scenario of its cycle holding it, changes nothing. *)
Theorem tag_again (w : World) (s : Scenario.t) (tag : string) :
  persisted w (Scenario.id s) s ->
  unauthorized s tag = false -> Scenario.has_tag s tag = true ->
  (forall c, Scenario.cycle s = Some c -> (length (holders_of w c tag) <= 1)%nat) ->
  _tag s tag w = (ok s, w).
Proof.
  intros Hk Hu Ht Hle. rewrite (tag_run s tag w Hu), (add_tag_held s tag Ht).
  destruct (Scenario.cycle s) as [c |] eqn:Hc.
  - assert (Hfirst : first_holder w c tag = Some s).
    { apply first_holder_unique; [by exists (Scenario.id s) | by apply in_cycle_own
                                 | done |].
      intros k x Hx Hcx Htx.
      assert (k = Scenario.id s).
      { apply (proj1 (holders_le_1 w c tag) (Hle c eq_refl) k x (Scenario.id s) s);
          try done. by apply in_cycle_own. }
      subst k. unfold persisted in *. congruence. }
    rewrite Hfirst, put_put by (by rewrite id_remove_tag).
    rewrite put_persisted by exact Hk. by destruct w.
  - rewrite put_persisted by exact Hk. by destruct w.
Qed.

(** PROPERTY X16. Tagging a persisted scenario with an authorized tag that neither it
    nor any scenario of its cycle holds, and then untagging what [_tag]
    returned, gives back the scenario and the world. *)
Theorem tag_untag_round_trip (w : World) (s : Scenario.t) (tag : string) :
  persisted w (Scenario.id s) s ->
  unauthorized s tag = false -> Scenario.has_tag s tag = false ->
  (forall c, Scenario.cycle s = Some c -> holders_of w c tag = []) ->
  exists s' w',
    _tag s tag w = (ok s', w')
    /\ persisted w' (Scenario.id s) s' /\ Scenario.has_tag s' tag = true
    /\ _untag s' tag w' = (ok s, w).
Proof.
  intros Hk Hu Ht Hnone. eexists _, _.
  split; [apply (tag_run s tag w Hu) |].
  assert (Hinner : match Scenario.cycle s with
                   | Some c => match first_holder w c tag with
                               | Some o => put (Scenario.remove_tag o tag) (scenarios w)
                               | None => scenarios w
                               end
                   | None => scenarios w
                   end = scenarios w).
  { destruct (Scenario.cycle s) as [c |]; [| done].
    unfold first_holder. rewrite find_head_filter. fold (holders_of w c tag).
    by rewrite (Hnone c eq_refl). }
  rewrite Hinner. split; [| split].
  - apply persisted_put. by left.
  - apply has_tag_add.
  - rewrite untag_run, (remove_add_tag s tag Ht).
    cbn [scenarios with_scenarios].
    rewrite (put_put (scenarios w) s (Scenario._add_tag s tag)) by done.
    rewrite (put_persisted (scenarios w) s) by exact Hk. by destruct w.
Qed.

(** ** Creating a scenario *)

Lemma get_or_create_pipelines_exact (pm : PipelineManager)
    (p_configs : list PipelineConfig) (sid : Id) (w : World) :
  get_or_create_pipelines pm p_configs sid w
  = (ok (pipelines_answered pm (pm_requests w) p_configs sid),
     with_requests w
       (pm_requests w ++ map (fun p => PMGetOrCreate p sid) p_configs)).
Proof.
  revert w. induction p_configs as [| p l IH]; intros w.
  - cbn. rewrite app_nil_r. by destruct w.
  - cbn [get_or_create_pipelines]. unfold bind at 1.
    unfold _PipelineManager._get_or_create. cbv beta iota delta [ok].
    unfold bind at 1. rewrite IH. cbn. unfold with_requests. cbn.
    by rewrite <- app_assoc.
Qed.

Lemma create_run_exact {V} (pm : PipelineManager) (now : Py.datetime)
    (cfg : ScenarioConfig.t V) (cd : option Py.datetime) (dn : option string)
    (w : World) :
  let sid := next_id w in
  let ps := pipelines_answered pm (pm_requests w)
              (ScenarioConfig.pipeline_configs cfg) sid in
  let w_b :=
    mkWorld (scenarios w) (cycles w)
      (pm_requests w
       ++ map (fun p => PMGetOrCreate p sid) (ScenarioConfig.pipeline_configs cfg))
      (S sid) in
  let props :=
    if truthy dn
    then <["display_name" := PText (default EmptyString dn)]>
           (ScenarioConfig.properties cfg)
    else ScenarioConfig.properties cfg in
  _create pm now cfg cd dn w
  = match ScenarioConfig.frequency cfg with
    | Some F =>
        match _CycleManager._get_or_create now F cd None w_b with
        | (inl x, w_c) => (inl x, w_c)
        | (inr c, w_c) =>
            let scn :=
              Scenario.new (ScenarioConfig.id cfg) ps props sid cd
                (length (scenarios_of w_c c) =? 0)%nat (Some c) in
            (ok scn, with_scenarios w_c (put scn (scenarios w_c)))
        end
    | None =>
        let scn := Scenario.new (ScenarioConfig.id cfg) ps props sid cd false None in
        (ok scn, with_scenarios w_b (put scn (scenarios w_b)))
    end.
Proof.
  cbv zeta.
  unfold _create. unfold bind at 1. unfold new_id at 1. cbv beta iota delta [ok].
  unfold bind at 1. rewrite get_or_create_pipelines_exact.
  cbv beta iota delta [ok]. unfold with_requests. cbn [scenarios cycles pm_requests next_id].
  destruct (ScenarioConfig.frequency cfg) as [F |].
  - unfold bind at 1. unfold bind at 1.
    destruct (_CycleManager._get_or_create now F cd None _) as [[x | c] w_c];
      reflexivity.
  - reflexivity.
Qed.

Lemma get_or_create_fails_unchanged (now : Py.datetime) (F : Frequency)
    (cd : option Py.datetime) (dn : option string) (w w1 : World) (x : exn) :
  _CycleManager._get_or_create now F cd dn w = (raise x, w1) -> w1 = w.
Proof.
  intros Hrun.
  destruct (_CycleManager._get_start_date_of_cycle F (default now cd))
    as [y | s] eqn:Hs.
  { rewrite (get_or_create_start_fails _ _ _ _ _ y Hs) in Hrun. congruence. }
  rewrite (get_or_create_run _ _ _ _ _ s Hs) in Hrun.
  destruct (matching_cycles w F s) as [| c' l]; [| done].
  destruct (_CycleManager._get_end_date_of_cycle F s) as [y | e] eqn:He.
  - rewrite (cycle_create_fails _ _ _ _ _ _ _ s y) in Hrun by done. congruence.
  - rewrite (cycle_create_run _ _ _ _ _ _ _ s e) in Hrun by done. done.
Qed.

(** PROPERTY X17. [_create] asks the Pipeline Manager for one pipeline for each pipeline
    configuration, in order and under the identity of the new scenario,
    whatever happens next. When it raises, the configuration has a
    frequency, and no scenario and no cycle has been persisted, though the
    requests were issued. When it returns, the scenario is persisted
    under the new identity, with no tag and no subscriber, and every other
    record is as it was; without a frequency the scenario has no cycle,
    is not a master, and no cycle is persisted. *)
Theorem create_outcome {V} (pm : PipelineManager) (now : Py.datetime)
    (cfg : ScenarioConfig.t V) (cd : option Py.datetime) (dn : option string)
    (w : World) :
  let run := _create pm now cfg cd dn w in
  pm_requests (snd run)
  = pm_requests w
    ++ map (fun p => PMGetOrCreate p (next_id w)) (ScenarioConfig.pipeline_configs cfg)
  /\ (forall x, fst run = raise x ->
        ScenarioConfig.frequency cfg <> None
        /\ scenarios (snd run) = scenarios w /\ cycles (snd run) = cycles w)
  /\ (forall scn, fst run = ok scn ->
        Scenario.id scn = next_id w
        /\ persisted (snd run) (next_id w) scn
        /\ (forall k, k <> next_id w -> scenarios (snd run) !! k = scenarios w !! k)
        /\ Scenario.config_id scn = ScenarioConfig.id cfg
        /\ Scenario.creation_date scn = cd
        /\ Scenario.tags scn = ∅ /\ Scenario.subscribers scn = []
        /\ (ScenarioConfig.frequency cfg = None ->
            Scenario.cycle scn = None /\ Scenario.is_master scn = false
            /\ cycles (snd run) = cycles w)).
Proof.
  intros run. subst run. rewrite create_run_exact. cbv zeta.
  set (w_b := mkWorld (scenarios w) (cycles w) _ (S (next_id w))).
  destruct (ScenarioConfig.frequency cfg) as [F |].
  - destruct (_CycleManager._get_or_create now F cd None w_b) as [[x | c] w_c] eqn:Hrun.
    + pose proof (get_or_create_fails_unchanged _ _ _ _ _ _ _ Hrun) as ->.
      cbn [fst snd]. split; [done |]. split; [by intros y _ | by intros scn].
    + destruct (get_or_create_frame _ _ _ _ _ _ _ Hrun) as (Hs & Hp & _).
      cbn [fst snd]. split; [cbn; by rewrite Hp |].
      split; [by intros y |]. intros scn [= <-].
      split; [done |]. split; [apply persisted_put; by left |].
      split; [| done].
      intros k Hne. cbn. unfold put. cbn.
      rewrite lookup_insert_ne by congruence. by rewrite Hs.
  - cbn [fst snd]. split; [done |]. split; [by intros y |].
    intros scn [= <-].
    split; [done |]. split; [apply persisted_put; by left |].
    split; [| done].
    intros k Hne. cbn. unfold put. cbn. by rewrite lookup_insert_ne by congruence.
Qed.

(** PROPERTY X18. Submitting an identity under which nothing is persisted raises
    [NonExistingScenario] and calls nothing. Otherwise the call returns,
    changes nothing, and submits each pipeline of the persisted scenario
    once, with the force flag given and the subscribers of the persisted
    scenario bound to it; a scenario object handed over counts for its
    identity alone. *)
Theorem submit_outcome (x : Id + Scenario.t) (force : bool) (w : World) :
  let k := match x with inr s => Scenario.id s | inl k => k end in
  _submit x force w = _submit (inl k) force w
  /\ (scenarios w !! k = None ->
      _submit x force w = (raise NonExistingScenario, w, []))
  /\ (forall s0,
        persisted w k s0 ->
        exists calls,
          _submit x force w = (ok tt, w, calls)
          /\ length calls = size (Scenario.pipelines s0)
          /\ forall call,
               In call calls <->
               exists cfg p,
                 Scenario.pipelines s0 !! cfg = Some p
                 /\ call = mkSubmission p
                             (map (fun c => (c, s0)) (Scenario.subscribers s0))
                             force).
Proof.
  intros k. split; [by destruct x |]. split.
  - intros Hk. unfold _submit. fold k. cbn. by rewrite Hk.
  - intros s0 Hk. unfold persisted in Hk. eexists. split.
    { unfold _submit. fold k. cbn. rewrite Hk. reflexivity. }
    split.
    + rewrite length_map, length_fmap. apply length_map_to_list.
    + intros call. rewrite in_map_iff. split.
      * intros (p & <- & Hp). apply list_elem_of_In, list_elem_of_fmap in Hp.
        destruct Hp as ([cfg p'] & -> & Hp). apply elem_of_map_to_list in Hp.
        by exists cfg, p'.
      * intros (cfg & p & Hp & ->). exists p. split; [done |].
        apply list_elem_of_In, list_elem_of_fmap. exists (cfg, p).
        split; [done |]. by apply elem_of_map_to_list.
Qed.

(** ** Comparators that share a name *)

(** PROPERTY X19. The mapping built for a data node has one entry for each name borne by
    a comparator, and the entry of a name is what the last comparator of
    that name returns: a comparator is hidden by a later one of its name. *)
Theorem comparators_last_wins {V} (cs : list (Comparator V)) (vs : list V)
    (n : string) :
  apply_comparators cs vs !! n
  = (fun c => call c vs)
      <$> List.find (fun c => bool_decide (__name__ c = n)) (rev cs).
Proof.
  induction cs as [| c cs IH] using rev_ind.
  - cbn. by rewrite lookup_empty.
  - rewrite apply_comparators_snoc, rev_app_distr. cbn [rev app List.find].
    destruct (decide (__name__ c = n)) as [<- | Hne].
    + rewrite lookup_insert_eq. by rewrite bool_decide_eq_true_2.
    + rewrite lookup_insert_ne by done. by rewrite bool_decide_eq_false_2.
Qed.

Example two_lambdas_one_entry :
  apply_comparators
    [mkComparator "<lambda>" (fun vs : list Z => foldr Z.add 0%Z vs);
     mkComparator "<lambda>" (fun vs : list Z => foldr Z.max 0%Z vs)]
    [3; 4]%Z
  = {["<lambda>" := 4%Z]}.
Proof. vm_compute. reflexivity. Qed.

End MoreFacts.

(* ===================================================================== *)
(** ** The worked examples, continued *)
(* ===================================================================== *)

Section MoreExamples.
Import _ScenarioManager.
Import Examples.
Import Tour.
Local Close Scope Z_scope.

Lemma w2_reachable : reachable pm w2.
Proof.
  apply (rtc_l _ _ w1);
    [exact (step_create pm empty_world wednesday weekly_config None None) |].
  apply (rtc_l _ _ w2);
    [exact (step_create pm w1 thursday weekly_config None None) |].
  apply rtc_refl.
Qed.

Lemma w3_reachable : reachable pm w3.
Proof.
  apply (rtc_r _ w2); [apply w2_reachable |].
  apply (step_set_master pm w2 B). exists B.
  repeat split; vm_compute; reflexivity.
Qed.

Lemma w_passed_reachable : rtc (step_synced pm) empty_world w_passed.
Proof.
  apply (rtc_l _ _ w1);
    [exact (synced_create pm empty_world wednesday weekly_config None None) |].
  apply (rtc_l _ _ w2);
    [exact (synced_create pm w1 thursday weekly_config None None) |].
  apply (rtc_l _ _ w_best).
  { apply (synced_tag pm w2 A "best"). exists A.
    repeat split; vm_compute; reflexivity. }
  apply (rtc_l _ _ w_passed); [| apply rtc_refl].
  apply (synced_tag pm w_best B "best"). exists B.
  repeat split; vm_compute; reflexivity.
Qed.

Lemma get_or_create_sound_witness :
  cycles_sound empty_world
  /\ cycles_sound
       (snd (_CycleManager._get_or_create wednesday WEEKLY None None empty_world)).
Proof.
  assert (Hs : cycles_sound empty_world).
  { split; [| split].
    - intros k c Hk. vm_compute in Hk. discriminate.
    - intros k1 c1 k2 c2 Hk. vm_compute in Hk. discriminate.
    - intros k c Hk. vm_compute in Hk. discriminate. }
  split; [exact Hs |].
  exact (proj1 (get_or_create_sound wednesday WEEKLY None None empty_world Hs)).
Defined.

Lemma reachable_cycles_witness :
  rtc (step_any pm) empty_world w4
  /\ cycles w4 !! 1%nat = Some week
  /\ Cycle.id week = 1%nat
  /\ _CycleManager._get_start_date_of_cycle (Cycle.frequency week)
       (Cycle.creation_date week) = ok (Cycle.start_date week).
Proof.
  assert (Hr : rtc (step_any pm) empty_world w4).
  { apply (rtc_l _ _ w1);
      [exact (any_create pm empty_world wednesday weekly_config None None) |].
    apply (rtc_l _ _ w2);
      [exact (any_create pm w1 thursday weekly_config None None) |].
    apply (rtc_l _ _ w3); [exact (any_set_master pm w2 B) |].
    apply (rtc_l _ _ w4); [exact (any_untag pm w3 A "draft") |].
    apply rtc_refl. }
  assert (Hk : cycles w4 !! 1%nat = Some week) by (vm_compute; reflexivity).
  split; [exact Hr |]. split; [exact Hk |].
  destruct (reachable_cycles pm w4 Hr 1%nat week Hk) as (Hid & Hs & _).
  split; [exact Hid | exact Hs].
Defined.

Lemma reachable_scenarios_witness :
  reachable pm w3 /\ persisted w3 2%nat B_master
  /\ Scenario.id B_master = 2%nat
  /\ (forall c, Scenario.cycle B_master = Some c ->
                cycles w3 !! Cycle.id c = Some c).
Proof.
  assert (Hk : persisted w3 2%nat B_master) by (vm_compute; reflexivity).
  split; [apply w3_reachable |]. split; [exact Hk |].
  destruct (reachable_scenarios pm w3 w3_reachable 2%nat B_master Hk)
    as (Hid & Hl & _).
  split; [exact Hid | exact Hl].
Defined.

Lemma get_master_total_witness :
  reachable pm w3
  /\ exists o,
       _get_master week w3 = (ok o, w3)
       /\ (o = None <-> scenarios_of w3 week = []).
Proof.
  split; [apply w3_reachable |].
  destruct (get_master_total pm w3 week w3_reachable) as (o & Hrun & Hnone & _).
  exists o. split; [exact Hrun | exact Hnone].
Defined.

Lemma w1_reachable : reachable pm w1.
Proof.
  apply (rtc_l _ _ w1);
    [exact (step_create pm empty_world wednesday weekly_config None None) |].
  apply rtc_refl.
Qed.

Lemma w1_scenarios : scenarios w1 = {[0%nat := A]}.
Proof. vm_compute. reflexivity. Qed.

Lemma last_scenario_stays_witness :
  reachable pm w1 /\ persisted w1 0%nat A /\ Scenario.cycle A = Some week
  /\ Scenario.is_master A = true
  /\ _delete 0%nat w1 = (raise DeletingMasterScenario, w1)
  /\ _hard_delete 0%nat w1 = (raise DeletingMasterScenario, w1).
Proof.
  assert (Hk : persisted w1 0%nat A) by (vm_compute; reflexivity).
  assert (Hc : Scenario.cycle A = Some week) by (vm_compute; reflexivity).
  split; [apply w1_reachable |]. split; [exact Hk |]. split; [exact Hc |].
  apply (last_scenario_stays pm w1 0%nat A week w1_reachable Hk Hc).
  intros k' s' Hk' _. unfold persisted in Hk'. rewrite w1_scenarios in Hk'.
  apply lookup_singleton_Some in Hk' as [Hk' _]. symmetry. exact Hk'.
Defined.

Lemma get_all_masters_one_per_cycle_witness :
  reachable pm w3
  /\ exists masters,
       _get_all_masters w3 = (ok masters, w3)
       /\ forall c, scenarios_of w3 c <> [] ->
            exists s, In s masters /\ in_cycle c s = true.
Proof.
  split; [apply w3_reachable |].
  destruct (get_all_masters_one_per_cycle pm w3 w3_reachable)
    as (masters & Hrun & _ & Hone & _).
  exists masters. split; [exact Hrun | exact Hone].
Defined.

Lemma one_holder_per_tag_kept_witness :
  rtc (step_synced pm) empty_world w_passed
  /\ (length (holders_of w_passed week "best") <= 1)%nat
  /\ exists o, _get_by_tag week "best" w_passed = (ok o, w_passed)
               /\ forall a, o = Some a -> holders_of w_passed week "best" = [a].
Proof.
  split; [apply w_passed_reachable |].
  destruct (one_holder_per_tag_kept pm w_passed week "best" w_passed_reachable)
    as (Hle & o & Hrun & _ & Hone).
  split; [exact Hle |]. exists o. split; [exact Hrun | exact Hone].
Defined.

Lemma untag_frees_tag_witness :
  rtc (step_synced pm) empty_world w_passed
  /\ in_tag_sync w_passed B_best /\ Scenario.cycle B_best = Some week
  /\ Scenario.has_tag B_best "best" = true
  /\ exists s' w',
       _untag B_best "best" w_passed = (ok s', w')
       /\ holders_of w' week "best" = []
       /\ _get_by_tag week "best" w' = (ok None, w').
Proof.
  assert (Hsync : in_tag_sync w_passed B_best).
  { exists B_best. repeat split; vm_compute; reflexivity. }
  assert (Hc : Scenario.cycle B_best = Some week) by (vm_compute; reflexivity).
  assert (Ht : Scenario.has_tag B_best "best" = true) by (vm_compute; reflexivity).
  split; [apply w_passed_reachable |]. split; [exact Hsync |].
  split; [exact Hc |]. split; [exact Ht |].
  destruct (untag_frees_tag pm w_passed B_best week "best"
              w_passed_reachable Hsync Hc Ht)
    as (s' & w' & Hrun & _ & _ & Hnil & Hget).
  exists s', w'. split; [exact Hrun |]. split; [exact Hnil | exact Hget].
Defined.

Lemma subscribe_all_outcome_witness :
  stored_under_id w2
  /\ _subscribe 7%nat None w2
     = (ok None,
        with_scenarios w2
          ((fun s => Scenario.add_subscriber s 7%nat) <$> scenarios w2)).
Proof.
  assert (Hst : stored_under_id w2) by apply (reachable_good pm w2 w2_reachable).
  split; [exact Hst |]. exact (proj1 (subscribe_all_outcome w2 7%nat Hst)).
Defined.

Lemma delete_outcome_witness :
  persisted w2 2%nat B /\ Scenario.is_master B = false
  /\ _delete 2%nat w2 = (ok tt, with_scenarios w2 (delete 2%nat (scenarios w2)))
  /\ _delete 2%nat (with_scenarios w2 (delete 2%nat (scenarios w2)))
     = (raise AttributeError, with_scenarios w2 (delete 2%nat (scenarios w2)))
  /\ _delete 5%nat w2 = (raise AttributeError, w2).
Proof.
  assert (Hk : persisted w2 2%nat B) by (vm_compute; reflexivity).
  assert (Hm : Scenario.is_master B = false) by (vm_compute; reflexivity).
  split; [exact Hk |]. split; [exact Hm |].
  destruct (delete_outcome 2%nat w2) as [_ Hsome].
  destruct (Hsome B Hk Hm) as (Hrun & _ & _ & _ & _ & Hagain & _).
  split; [exact Hrun |]. split; [exact Hagain |].
  destruct (delete_outcome 5%nat w2) as [Hnone _].
  destruct Hnone as [Hd _]; [vm_compute; reflexivity | exact Hd].
Defined.

Lemma set_master_again_witness :
  persisted w2 (Scenario.id A) A /\ Scenario.cycle A = Some week
  /\ Scenario.is_master A = true /\ (length (masters_of w2 week) <= 1)%nat
  /\ _set_master A w2 = (ok A, w2).
Proof.
  assert (Hk : persisted w2 (Scenario.id A) A) by (vm_compute; reflexivity).
  assert (Hc : Scenario.cycle A = Some week) by (vm_compute; reflexivity).
  assert (Hm : Scenario.is_master A = true) by (vm_compute; reflexivity).
  assert (Hle : (length (masters_of w2 week) <= 1)%nat) by (vm_compute; lia).
  split; [exact Hk |]. split; [exact Hc |]. split; [exact Hm |].
  split; [exact Hle |]. exact (set_master_again w2 A week Hk Hc Hm Hle).
Defined.

Lemma tag_again_witness :
  persisted w_best (Scenario.id A_best) A_best
  /\ unauthorized A_best "best" = false
  /\ Scenario.has_tag A_best "best" = true
  /\ _tag A_best "best" w_best = (ok A_best, w_best).
Proof.
  assert (Hk : persisted w_best (Scenario.id A_best) A_best)
    by (vm_compute; reflexivity).
  assert (Hu : unauthorized A_best "best" = false) by (vm_compute; reflexivity).
  assert (Ht : Scenario.has_tag A_best "best" = true) by (vm_compute; reflexivity).
  split; [exact Hk |]. split; [exact Hu |]. split; [exact Ht |].
  apply (tag_again w_best A_best "best" Hk Hu Ht).
  intros c Hc. vm_compute in Hc. injection Hc as <-. vm_compute. lia.
Defined.

Lemma tag_untag_round_trip_witness :
  persisted w2 (Scenario.id A) A /\ unauthorized A "best" = false
  /\ Scenario.has_tag A "best" = false
  /\ exists s' w',
       _tag A "best" w2 = (ok s', w') /\ _untag s' "best" w' = (ok A, w2).
Proof.
  assert (Hk : persisted w2 (Scenario.id A) A) by (vm_compute; reflexivity).
  assert (Hu : unauthorized A "best" = false) by (vm_compute; reflexivity).
  assert (Ht : Scenario.has_tag A "best" = false) by (vm_compute; reflexivity).
  split; [exact Hk |]. split; [exact Hu |]. split; [exact Ht |].
  destruct (tag_untag_round_trip w2 A "best" Hk Hu Ht)
    as (s' & w' & Hrun & _ & _ & Hback).
  { intros c Hc. vm_compute in Hc. injection Hc as <-. vm_compute. reflexivity. }
  exists s', w'. split; [exact Hrun | exact Hback].
Defined.

Lemma create_outcome_witness :
  pm_requests (snd (_create pm thursday weekly_config None None w1))
  = pm_requests w1 ++ [PMGetOrCreate (mkPipelineConfig "forecast") (next_id w1)]
  /\ forall scn,
       fst (_create pm wednesday plain_config None None w2) = ok scn ->
       Scenario.cycle scn = None /\ Scenario.is_master scn = false.
Proof.
  split.
  - exact (proj1 (create_outcome pm thursday weekly_config None None w1)).
  - intros scn Hscn.
    destruct (create_outcome pm wednesday plain_config None None w2)
      as (_ & _ & Hok).
    destruct (Hok scn Hscn) as (_ & _ & _ & _ & _ & _ & _ & Hnone).
    destruct (Hnone eq_refl) as (Hc & Hm & _). split; [exact Hc | exact Hm].
Defined.

Lemma submit_outcome_witness :
  _submit (inr A) true w3 = _submit (inl 0%nat) true w3
  /\ _submit (inl 5%nat) false w3 = (raise NonExistingScenario, w3, [])
  /\ exists calls,
       _submit (inr A) true w3 = (ok tt, w3, calls) /\ length calls = 1%nat.
Proof.
  split; [exact (proj1 (submit_outcome (inr A) true w3)) |]. split.
  - destruct (submit_outcome (inl 5%nat) false w3) as (_ & Hnone & _).
    apply Hnone. vm_compute. reflexivity.
  - destruct (submit_outcome (inr A) true w3) as (_ & _ & Hsome).
    destruct (Hsome (Scenario.set_master_scenario A false))
      as (calls & Hrun & Hlen & _); [vm_compute; reflexivity |].
    exists calls. split; [exact Hrun |]. rewrite Hlen. vm_compute. reflexivity.
Defined.

Lemma comparators_last_wins_witness :
  apply_comparators
    [mkComparator "<lambda>" (fun vs : list Z => foldr Z.add 0%Z vs);
     mkComparator "<lambda>" (fun vs : list Z => foldr Z.max 0%Z vs)]
    [3; 4]%Z !! "<lambda>"
  = Some 4%Z.
Proof. rewrite comparators_last_wins. vm_compute. reflexivity. Defined.

End MoreExamples.

(* ===================================================================== *)
(** ** Stale objects: a second holder, a second master *)
(* ===================================================================== *)

Section StaleObjects.
Import _ScenarioManager.
Import Examples.
Import Stale.
Local Close Scope Z_scope.

(** The week has the holders [B_held] and [E_held] of the tag "best".
    [_get_by_tag] answers [B_held]; tagging the persisted [A] takes the tag
    from [B_held] alone: [E_held] keeps it, the week has two holders again,
    and [_get_by_tag] answers [E_held], not [A]. *)
Lemma second_holder_keeps_tag :
  unauthorized A "best" = false
  /\ Scenario.cycle A = Some week
  /\ persisted w_two_holders (Scenario.id A) A
  /\ persisted w_two_holders (Scenario.id E_held) E_held
  /\ in_cycle week E_held = true
  /\ Scenario.has_tag E_held "best" = true
  /\ holders_of w_two_holders week "best" = [B_held; E_held]
  /\ _get_by_tag week "best" w_two_holders = (ok (Some B_held), w_two_holders)
  /\ _tag A "best" w_two_holders = (ok A_held, w_third_holder)
  /\ persisted w_third_holder (Scenario.id B_held) (Scenario.remove_tag B_held "best")
  /\ persisted w_third_holder (Scenario.id A) A_held
  /\ persisted w_third_holder (Scenario.id E_held) E_held
  /\ holders_of w_third_holder week "best" = [E_held; A_held]
  /\ _get_by_tag week "best" w_third_holder = (ok (Some E_held), w_third_holder)
  /\ Scenario.id E_held <> Scenario.id A
  /\ rtc (step_any pm) empty_world w_two_holders.
Proof.
  do 14 (split; [vm_compute; reflexivity |]).
  split; [vm_compute; lia |].
  apply (rtc_l _ _ w1);
    [exact (any_create pm empty_world wednesday weekly_config None None) |].
  apply (rtc_l _ _ w2);
    [exact (any_create pm w1 thursday weekly_config None None) |].
  apply (rtc_l _ _ w_three);
    [exact (any_create pm w2 friday weekly_config None None) |].
  apply (rtc_l _ _ w_held); [exact (any_tag pm w_three B "best") |].
  apply (rtc_l _ _ w_moved); [exact (any_tag pm w_held E "best") |].
  apply (rtc_l _ _ w_two_holders);
    [exact (any_untag pm w_moved B_held "draft") |].
  apply rtc_refl.
Qed.

(** The week has the masters [B_elected] and [E_elected]. [_get_master]
    answers [B_elected]; making the persisted [A_demoted] the master takes
    the flag from [B_elected] alone: [E_elected] keeps it, the week has two
    masters again, and [_get_master] answers [E_elected], not [A]. *)
Lemma second_master_survives :
  Scenario.cycle A_demoted = Some week
  /\ persisted w_two_masters (Scenario.id A_demoted) A_demoted
  /\ persisted w_two_masters (Scenario.id E_elected) E_elected
  /\ in_cycle week E_elected = true
  /\ Scenario.is_master E_elected = true
  /\ masters_of w_two_masters week = [B_elected; E_elected]
  /\ _get_master week w_two_masters = (ok (Some B_elected), w_two_masters)
  /\ _set_master A_demoted w_two_masters = (ok A_elected, w_third_master)
  /\ persisted w_third_master (Scenario.id B_elected)
       (Scenario.set_master_scenario B_elected false)
  /\ persisted w_third_master (Scenario.id A_demoted) A_elected
  /\ Scenario.is_master A_elected = true
  /\ persisted w_third_master (Scenario.id E_elected) E_elected
  /\ masters_of w_third_master week = [E_elected; A_elected]
  /\ _get_master week w_third_master = (ok (Some E_elected), w_third_master)
  /\ Scenario.id E_elected <> Scenario.id A_demoted
  /\ rtc (step_any pm) empty_world w_two_masters.
Proof.
  do 14 (split; [vm_compute; reflexivity |]).
  split; [vm_compute; lia |].
  apply (rtc_l _ _ w1);
    [exact (any_create pm empty_world wednesday weekly_config None None) |].
  apply (rtc_l _ _ w2);
    [exact (any_create pm w1 thursday weekly_config None None) |].
  apply (rtc_l _ _ w_three);
    [exact (any_create pm w2 friday weekly_config None None) |].
  apply (rtc_l _ _ w_elected); [exact (any_set_master pm w_three B) |].
  apply (rtc_l _ _ w_reelected); [exact (any_set_master pm w_elected E) |].
  apply (rtc_l _ _ w_two_masters);
    [exact (any_untag pm w_reelected B_elected "draft") |].
  apply rtc_refl.
Qed.

End StaleObjects.
